(** * ResNet with adaptive computation time: the utilities of [resnet_act_utils.py]

    The Python module builds a TensorFlow graph: every [tf.*] and [slim.*]
    call adds a node to the default graph and returns a handle on it.  The
    embedding keeps that reading.  A [Tensor] is the symbolic node a call
    returns, the [World] holds what the calls mutate (the graph, the variable
    scope in force, the loss collection, the summaries, the HDF5 file and the
    session), and a Python function is a computation in the monad [M] of
    world passing with exceptions.

    What the module calls and does not define is kept abstract.  A call to
    TensorFlow or [slim] adds its node and returns; the exceptions modelled
    are those of the Python code itself ([assert], a missing key, an index
    out of range, a division by zero).  [flopsometer.conv2d] is a node that
    carries its arguments, the function of a unit is a field of its block, and
    the controllers of the module [act] are the fields of a record that
    [stack_blocks] takes.  A Python number that meets a tensor is the
    constant tensor it converts to.  Values, where a statement speaks of
    them, are real numbers: what a floating-point evaluation returns is left
    to an arbitrary valuation of the nodes. *)

From Stdlib Require Import ZArith QArith Reals Lra Lia List String Ascii DecimalString.

From Stdlib Require DecimalPos.

From stdpp Require Import base option gmap strings list fin_maps.

Import ListNotations.

#[local] Open Scope string_scope.

#[local] Open Scope list_scope.

#[local] Open Scope Z_scope.

#[local] Set Warnings "-register-all".

(** ** Tensors: the nodes of the graph *)

Inductive UnOp := Sqrt | Sigmoid | ToFloat.

Inductive BinOp := Add | Sub | Mul | Div | Maximum.

Inductive ReduceOp := Mean | Min | Max.

Inductive MomentsOut := MomentsMean | MomentsVariance.

Inductive ConvOut := ConvOutputs | ConvFlops.

Inductive Activation := SigmoidFn.

Inductive Normalizer := BatchNormFn.

(** [flopsometer.conv2d] belongs to a module that is not among the sources at
    hand; its two results (the output and its FLOP count) are kept as
    uninterpreted nodes [TConv2d] that carry every argument of the call.
    Of their shapes, [shape_of] below knows one thing, which section 4.1 of the
    specification states: the estimator has one value per batch element and
    spatial location at the resolution of its input, so the output of the
    convolution has the batch, height and width of its input and
    [num_outputs] channels.  The shape of the FLOP count is left unknown. *)
Inductive Tensor :=
| TPlaceholder (name : string) (shape : list nat)
| TInt (z : Z)
| TFloat (q : Q)
| TIntList (l : list Z)
| TUnary (op : UnOp) (x : Tensor)
| TBinary (op : BinOp) (a b : Tensor)
| TReduce (op : ReduceOp) (x : Tensor) (axes : option (list nat)) (keep_dims : bool)
| TMoments (out : MomentsOut) (x : Tensor) (axes : list nat) (shift : option Tensor)
| TBatchNorm (x : Tensor) (bn_scope : string)
| TConv2d (out : ConvOut) (inputs : Tensor) (num_outputs kernel_size : Z)
    (activation_fn : option Activation) (normalizer_fn : option Normalizer)
    (biases_initializer : option Q) (output_mask : option Tensor)
    (conv_scope : string)
| TSqueeze (x : Tensor) (axes : list nat)
| TExpandDims (x : Tensor) (axis : nat)
| TShape (x : Tensor)
| TGetItem (v : Tensor) (i : nat)
| TGetSlice (v : Tensor) (lo hi : nat)
| TTake (x : Tensor) (n : Tensor) (rank : nat)
| TResizeNearestNeighbor (x : Tensor) (size : Tensor)
| TStack (l : list Tensor)
| TZeros (dims : Tensor)
| TConcat (l : list Tensor) (axis : nat)
| TAddN (l : list Tensor).

(** ** Shapes *)

Definition broadcast_dim (a b : nat) : option nat :=
  if (a =? b)%nat then Some a
  else if (b =? 1)%nat then Some a
  else if (a =? 1)%nat then Some b
  else None.

(** Shapes are aligned on their last dimension: both are given reversed. *)
Fixpoint broadcast_rev (s1 s2 : list nat) : option (list nat) :=
  match s1, s2 with
  | [], s | s, [] => Some s
  | a :: s1', b :: s2' =>
      d ← broadcast_dim a b; s ← broadcast_rev s1' s2'; Some (d :: s)
  end.

Definition broadcast (s1 s2 : list nat) : option (list nat) :=
  reverse <$> broadcast_rev (reverse s1) (reverse s2).

Definition mem_nat (i : nat) (l : list nat) : bool := existsb (Nat.eqb i) l.

(** The shape left by a reduction over [axes], position [i] onwards. *)
Fixpoint reduce_from (i : nat) (s : list nat) (axes : list nat) (keep_dims : bool)
  : list nat :=
  match s with
  | [] => []
  | d :: s' =>
      if mem_nat i axes
      then (if keep_dims then [1%nat] else []) ++ reduce_from (S i) s' axes keep_dims
      else d :: reduce_from (S i) s' axes keep_dims
  end.

Definition reduce_shape (s : list nat) (axes : option (list nat)) (keep_dims : bool)
  : list nat :=
  match axes with
  | Some ax => reduce_from 0 s ax keep_dims
  | None => if keep_dims then map (λ _, 1%nat) s else []
  end.

Fixpoint squeeze_from (i : nat) (s : list nat) (axes : list nat) : option (list nat) :=
  match s with
  | [] => Some []
  | d :: s' =>
      r ← squeeze_from (S i) s' axes;
      if mem_nat i axes
      then (if (d =? 1)%nat then Some r else None)
      else Some (d :: r)
  end.

Definition expand_dims_shape (s : list nat) (axis : nat) : option (list nat) :=
  if (axis <=? length s)%nat then Some (take axis s ++ 1%nat :: drop axis s) else None.

Definition nat_of_Z (z : Z) : option nat :=
  if 0 <=? z then Some (Z.to_nat z) else None.

Definition nats_of_Zs (l : list Z) : option (list nat) := mapM nat_of_Z l.

(** All the shapes agree outside [axis]; the result adds them up along it. *)
Fixpoint concat_shapes (axis : nat) (ss : list (list nat)) : option (list nat) :=
  match ss with
  | [] => None
  | [s] => if (axis <? length s)%nat then Some s else None
  | s :: ss' =>
      r ← concat_shapes axis ss';
      d ← s !! axis;
      e ← r !! axis;
      if decide (<[axis := 0%nat]> s = <[axis := 0%nat]> r)
      then Some (<[axis := (d + e)%nat]> r) else None
  end.

Fixpoint same_shapes (ss : list (list nat)) : option (list nat) :=
  match ss with
  | [] => None
  | [s] => Some s
  | s :: ss' => r ← same_shapes ss'; if decide (s = r) then Some s else None
  end.

(** [shape_of t] is the shape of the value of [t], when the nodes met on the
    way determine it; [ints_of t] is the content of an integer scalar or
    vector that is known from the graph alone (a Python integer, a shape).
    [TTake x n rank] is the slice [x[:n, :, ..., :]] written with [rank]
    positions, [TGetItem v i] is [v[i]] and [TGetSlice v lo hi] is [v[lo:hi]]
    on a vector. *)
Fixpoint shape_of (t : Tensor) : option (list nat) :=
  match t with
  | TPlaceholder _ s => Some s
  | TInt _ | TFloat _ => Some []
  | TIntList l => Some [length l]
  | TUnary _ x => shape_of x
  | TBinary _ a b => s1 ← shape_of a; s2 ← shape_of b; broadcast s1 s2
  | TReduce _ x axes keep => s ← shape_of x; Some (reduce_shape s axes keep)
  | TMoments _ x axes _ => s ← shape_of x; Some (reduce_shape s (Some axes) false)
  | TBatchNorm x _ => shape_of x
  | TConv2d ConvOutputs x n _ _ _ _ _ _ => s ← shape_of x;
      match s with
      | [b; h; w; _] => n' ← nat_of_Z n; Some [b; h; w; n']
      | _ => None
      end
  | TConv2d ConvFlops _ _ _ _ _ _ _ _ => None
  | TSqueeze x axes => s ← shape_of x; squeeze_from 0 s axes
  | TExpandDims x axis => s ← shape_of x; expand_dims_shape s axis
  | TShape x => s ← shape_of x; Some [length s]
  | TGetItem v i => s ← shape_of v;
      match s with [n] => if (i <? n)%nat then Some [] else None | _ => None end
  | TGetSlice v lo hi => s ← shape_of v;
      match s with [n] => Some [(Nat.min hi n - lo)%nat] | _ => None end
  | TTake x n rank => s ← shape_of x; k ← ints_of n;
      match s, k with
      | d :: s', [k] =>
          k' ← nat_of_Z k;
          if (rank <=? length s)%nat then Some (Nat.min k' d :: s') else None
      | _, _ => None
      end
  | TResizeNearestNeighbor x size => s ← shape_of x; k ← ints_of size;
      match s, k with
      | [b; _; _; c], [h; w] => h' ← nat_of_Z h; w' ← nat_of_Z w; Some [b; h'; w'; c]
      | _, _ => None
      end
  | TStack l => ss ← mapM shape_of l; s ← same_shapes ss; Some (length l :: s)
  | TZeros dims => k ← ints_of dims; nats_of_Zs k
  | TConcat l axis => ss ← mapM shape_of l; concat_shapes axis ss
  | TAddN l => ss ← mapM shape_of l; same_shapes ss
  end
with ints_of (t : Tensor) : option (list Z) :=
  match t with
  | TInt z => Some [z]
  | TIntList l => Some l
  | TShape x => s ← shape_of x; Some (map Z.of_nat s)
  | TGetItem v i => k ← ints_of v; z ← k !! i; Some [z]
  | TGetSlice v lo hi => k ← ints_of v; Some (drop lo (take hi k))
  | TStack l => ks ← mapM ints_of l;
      if forallb (λ k, (length k =? 1)%nat) ks then Some (concat ks) else None
  | _ => None
  end.

(** ** The world the module acts on *)

Inductive PyError :=
| AssertionError
| KeyError (key : string)
| IndexError
| TypeError
| ValueError
| ZeroDivisionError.

(** What the export does to the HDF5 file and to the session, in order. *)
Inductive IOEvent :=
| H5Open (path : string)
| H5Attr (name : string) (value : list string)
| H5CreateDataset (key : string) (shape : list Z)
| H5Write (key : string) (lo hi : Z) (batch : Z)
| PrintShape (key : string) (shape : list Z)
| AssignFromCheckpointFn (checkpoint_path : string)
| SupervisorCreated
| SessionOpened
| InitFn
| StartQueueRunners
| LogInfo (batch num_batches : Z)
| SessionRun (batch : Z) (keys : list string).

(** [scopes] is the stack of variable scopes in force, innermost first; a
    node of [graph] is recorded with the scopes it was created under.  The
    lists [graph], [losses], [summaries] and [io] grow at their end. *)
#[projections(primitive)]
Record World := mkWorld {
  scopes : list string;
  graph : list (list string * Tensor);
  losses : list Tensor;
  summaries : list (string * Tensor);
  io : list IOEvent
}.

Definition empty_world : World := mkWorld [] [] [] [] [].

Inductive Res (A : Type) :=
| Ok (a : A)
| Raise (e : PyError).

Arguments Ok {A} a.

Arguments Raise {A} e.

Definition M (A : Type) : Type := World → World * Res A.

#[export] Instance M_ret : MRet M := λ A a w, (w, Ok a).

#[export] Instance M_bind : MBind M := λ A B f m w,
  match m w with
  | (w', Ok a) => f a w'
  | (w', Raise e) => (w', Raise e)
  end.

Definition raise {A} (e : PyError) : M A := λ w, (w, Raise e).

(** [assert c] *)
Definition assert (c : bool) : M () :=
  if c then mret () else raise AssertionError.

(** [for x in l: body], the loop variables carried in [acc] *)
Fixpoint for_in {A S} (l : list A) (acc : S) (body : S → A → M S) : M S :=
  match l with
  | [] => mret acc
  | x :: l' => acc' ← body acc x; for_in l' acc' body
  end.

(** [range(n)] *)
Definition range (n : Z) : list Z := seqZ 0 n.

(** [l[i]] on a Python list: a negative index counts from the end. *)
Definition py_getitem {A} (l : list A) (i : Z) : M A :=
  let n := Z.of_nat (length l) in
  let j := if i <? 0 then i + n else i in
  if (0 <=? j) && (j <? n)
  then match l !! Z.to_nat j with Some x => mret x | None => raise IndexError end
  else raise IndexError.

(** [d[k]] on a Python dict *)
Definition dict_get {V} (d : gmap string V) (k : string) : M V :=
  match d !! k with
  | Some v => mret v
  | None => raise (KeyError k)
  end.

(** Adds the node [t] to the graph, under the scopes in force. *)
Definition emit (t : Tensor) : M Tensor := λ w,
  (mkWorld (scopes w) (graph w ++ [(scopes w, t)]) (losses w) (summaries w) (io w),
   Ok t).

Definition set_scopes (s : list string) (w : World) : World :=
  mkWorld s (graph w) (losses w) (summaries w) (io w).

(** [with tf.variable_scope(name): body]; the scope is left on the way out,
    also when [body] raises. *)
Definition variable_scope {A} (name : string) (body : M A) : M A := λ w,
  let '(w', r) := body (set_scopes (name :: scopes w) w) in
  (set_scopes (scopes w) w', r).

(** [tf.losses.add_loss(loss)] *)
Definition add_loss (loss : Tensor) : M () := λ w,
  (mkWorld (scopes w) (graph w) (losses w ++ [loss]) (summaries w) (io w), Ok ()).

(** [tf.summary.histogram(name, x)] *)
Definition summary_histogram (name : string) (x : Tensor) : M () := λ w,
  (mkWorld (scopes w) (graph w) (losses w) (summaries w ++ [(name, x)]) (io w), Ok ()).

Definition do_io (e : IOEvent) : M () := λ w,
  (mkWorld (scopes w) (graph w) (losses w) (summaries w) (io w ++ [e]), Ok ()).

(** ** The TensorFlow calls of the module *)

Definition tf_reduce_mean (x : Tensor) (axes : option (list nat)) (keep_dims : bool) :=
  emit (TReduce Mean x axes keep_dims).

Definition tf_reduce_min (x : Tensor) (axes : option (list nat)) (keep_dims : bool) :=
  emit (TReduce Min x axes keep_dims).

Definition tf_reduce_max (x : Tensor) (axes : option (list nat)) (keep_dims : bool) :=
  emit (TReduce Max x axes keep_dims).

Definition tf_sqrt (x : Tensor) := emit (TUnary Sqrt x).

Definition tf_sigmoid (x : Tensor) := emit (TUnary Sigmoid x).

Definition tf_to_float (x : Tensor) := emit (TUnary ToFloat x).

Definition tf_maximum (a b : Tensor) := emit (TBinary Maximum a b).

Definition tf_add (a b : Tensor) := emit (TBinary Add a b).

Definition tf_sub (a b : Tensor) := emit (TBinary Sub a b).

Definition tf_mul (a b : Tensor) := emit (TBinary Mul a b).

Definition tf_div (a b : Tensor) := emit (TBinary Div a b).

Definition tf_squeeze (x : Tensor) (axes : list nat) := emit (TSqueeze x axes).

Definition tf_expand_dims (x : Tensor) (axis : nat) := emit (TExpandDims x axis).

Definition tf_shape (x : Tensor) := emit (TShape x).

Definition tf_stack (l : list Tensor) := emit (TStack l).

Definition tf_zeros (dims : Tensor) := emit (TZeros dims).

Definition tf_concat (l : list Tensor) (axis : nat) := emit (TConcat l axis).

Definition tf_add_n (l : list Tensor) := emit (TAddN l).

Definition tf_resize_nearest_neighbor (x size : Tensor) :=
  emit (TResizeNearestNeighbor x size).

Definition slim_batch_norm (x : Tensor) (scope : string) := emit (TBatchNorm x scope).

(** [tf.nn.moments(x, axes, shift=shift)] *)
Definition tf_nn_moments (x : Tensor) (axes : list nat) (shift : option Tensor)
  : M (Tensor * Tensor) :=
  mean ← emit (TMoments MomentsMean x axes shift);
  var ← emit (TMoments MomentsVariance x axes shift);
  mret (mean, var).

(** [flopsometer.conv2d(inputs, num_outputs, kernel_size, ...)] returns the
    output of the convolution and its FLOP count. *)
Definition flopsometer_conv2d (inputs : Tensor) (num_outputs kernel_size : Z)
    (activation_fn : option Activation) (normalizer_fn : option Normalizer)
    (biases_initializer : option Q) (output_mask : option Tensor) (scope : string)
  : M (Tensor * Tensor) :=
  outputs ← emit (TConv2d ConvOutputs inputs num_outputs kernel_size activation_fn
                    normalizer_fn biases_initializer output_mask scope);
  flops ← emit (TConv2d ConvFlops inputs num_outputs kernel_size activation_fn
                  normalizer_fn biases_initializer output_mask scope);
  mret (outputs, flops).

(** ** The module *)

Definition SACT_KERNEL_SIZE : Z := 3.

Definition INIT_BIAS : Q := (-3)%Q.

Definition get_halting_proba (outputs : Tensor) : M (Tensor * Tensor) :=
  variable_scope "halting_proba" (
    let x := outputs in
    x ← tf_reduce_mean x (Some [1%nat; 2%nat]) true;
    x ← slim_batch_norm x "global_bn";
    '(halting_proba, flops) ←
      flopsometer_conv2d x 1 1 (Some SigmoidFn) None (Some INIT_BIAS) None "global_conv";
    halting_proba ← tf_squeeze halting_proba [1%nat; 2%nat];
    mret (halting_proba, flops)).

Definition get_halting_proba_conv (outputs : Tensor) (residual_mask : option Tensor)
  : M (Tensor * Tensor) :=
  variable_scope "halting_proba" (
    let flops := TInt 0 in
    let x := outputs in
    local_feature ← slim_batch_norm x "local_bn";
    '(halting_logit, current_flops) ←
      flopsometer_conv2d local_feature 1 SACT_KERNEL_SIZE None None (Some INIT_BIAS)
        residual_mask "local_conv";
    flops ← tf_add flops current_flops;
    global_feature ← tf_reduce_mean x (Some [1%nat; 2%nat]) true;
    global_feature ← slim_batch_norm global_feature "global_bn";
    '(halting_logit_global, current_flops) ←
      flopsometer_conv2d global_feature 1 1 None None None None "global_conv";
    flops ← tf_add flops current_flops;
    halting_logit ← tf_add halting_logit halting_logit_global;
    halting_proba ← tf_sigmoid halting_logit;
    mret (halting_proba, flops)).

(** A block of residual units, as [slim]'s [resnet_utils.Block]: a scope, the
    function of a unit and one tuple of arguments per unit.  The unit function
    is the caller's; it is taken to return its two results, the output and its
    FLOP count, which [call_unit_fn] adds to the graph. *)
Record Block := mkBlock {
  scope : string;
  unit_fn : Tensor → list Z → option Tensor → Tensor * Tensor;
  args : list (list Z)
}.

Definition call_unit_fn (block : Block) (inputs : Tensor) (a : list Z)
    (residual_mask : option Tensor) : M (Tensor * Tensor) :=
  let r := unit_fn block inputs a residual_mask in
  _ ← emit r.1; _ ← emit r.2; mret r.

(** ['%d' % z] *)
Definition string_of_Z (z : Z) : string := NilZero.string_of_int (Z.to_int z).

Arguments string_of_Z : simpl never.

Definition unit_act (block : Block) (inputs : Tensor) (unit_idx : Z)
    (skip_halting_proba : bool) (sact : bool) (residual_mask : option Tensor)
  : M (Tensor * option Tensor * Tensor) :=
  variable_scope ("unit_" +:+ string_of_Z (unit_idx + 1)) (
    a ← py_getitem (args block) unit_idx;
    '(outputs, flops) ← call_unit_fn block inputs a residual_mask;
    if negb skip_halting_proba && (unit_idx <? Z.of_nat (length (args block)) - 1)
    then
      if sact
      then
        '(halting_proba, current_flops) ← get_halting_proba_conv outputs None;
        flops ← tf_add flops current_flops;
        mret (outputs, Some halting_proba, flops)
      else
        '(halting_proba, current_flops) ← get_halting_proba outputs;
        flops ← tf_add flops current_flops;
        mret (outputs, Some halting_proba, flops)
    else
      mret (outputs, None, flops)).

(** ** End points *)

(** The values held by the end-points mapping: tensors (a Python number is
    the constant tensor it converts to), the list of block scopes and the
    list of unit counts. *)
Inductive Value :=
| VTensor (t : Tensor)
| VStrings (l : list string)
| VInts (l : list Z).

Definition as_tensor (v : Value) : M Tensor :=
  match v with VTensor t => mret t | _ => raise TypeError end.

Definition as_strings (v : Value) : M (list string) :=
  match v with VStrings l => mret l | _ => raise TypeError end.

Definition as_ints (v : Value) : M (list Z) :=
  match v with VInts l => mret l | _ => raise TypeError end.

Definition add_all_ponder_costs (end_points : gmap string Value) (weights : Tensor)
  : M () :=
  let total_ponder_cost := TFloat 0 in
  block_scopes ← dict_get end_points "block_scopes" ≫= as_strings;
  total_ponder_cost ← for_in block_scopes total_ponder_cost (λ total_ponder_cost scope,
    ponder_cost ← dict_get end_points (scope +:+ "/ponder_cost") ≫= as_tensor;
    m ← tf_reduce_mean ponder_cost None false;
    tf_add total_ponder_cost m);
  loss ← tf_mul total_ponder_cost weights;
  add_loss loss.

(** [x.get_shape().as_list()] *)
Definition get_shape_as_list (x : Tensor) : M (list nat) :=
  match shape_of x with
  | Some s => mret s
  | None => raise ValueError
  end.

Definition moments_metric_map (x : Tensor) (name : string) (delimiter : string)
    (do_shift : bool) : M (gmap string Tensor) :=
  _ ← summary_histogram name x;
  shift ← (if do_shift
           then m ← tf_reduce_mean x None false; mret (Some m)
           else mret None);
  sh ← get_shape_as_list x;
  '(mean, var) ← tf_nn_moments x (seq 0 (length sh)) shift;
  m ← tf_maximum (TFloat 0) var;
  std ← tf_sqrt m;
  mret (<[name +:+ delimiter +:+ "std" := std]>
          (<[name +:+ delimiter +:+ "mean" := mean]> ∅)).

(** ** Stacking the blocks *)

Definition UnitActFn : Type :=
  Tensor → Z → bool → option Tensor → M (Tensor * option Tensor * Tensor).

(** The three controllers of the module [act], which is not among the
    sources at hand: each takes the input of the block, the function of a
    unit, the number of units and the scope, and returns
    [(ponder_cost, num_units, flops, halting_distribution, net)]. *)
Definition ActFunc : Type :=
  Tensor → UnitActFn → Z → string → M (Tensor * Tensor * Tensor * Tensor * Tensor).

Record ActModule := mkActModule {
  spatially_adaptive_computation_time : ActFunc;
  adaptive_computation_early_stopping : ActFunc;
  adaptive_computation_time_wrapper : ActFunc
}.

(** [partial(unit_act, block, sact=sact)] *)
Definition partial_unit_act (block : Block) (sact : bool) : UnitActFn :=
  λ inputs unit_idx skip_halting_proba residual_mask,
    unit_act block inputs unit_idx skip_halting_proba sact residual_mask.

Definition len {A} (l : list A) : Z := Z.of_nat (length l).

Definition stack_blocks (act : ActModule) (net : Tensor) (blocks : list Block)
    (use_act act_early_stopping sact : bool) (end_points : option (gmap string Value))
  : M (Tensor * gmap string Value) :=
  let end_points := default ∅ end_points in
  let end_points :=
    <["flops" := default (VTensor (TInt 0)) (end_points !! "flops")]> end_points in
  let end_points := <["block_scopes" := VStrings (scope <$> blocks)]> end_points in
  let end_points :=
    <["block_num_units" := VInts ((λ block, len (args block)) <$> blocks)]> end_points in
  for_in blocks (net, end_points) (λ '(net, end_points) block,
    '(flops, net, end_points) ←
      (if use_act
       then
         let act_func :=
           if sact then spatially_adaptive_computation_time act
           else if act_early_stopping then adaptive_computation_early_stopping act
           else adaptive_computation_time_wrapper act in
         '(ponder_cost, num_units, flops, halting_distribution, net) ←
           act_func net (partial_unit_act block sact) (len (args block)) (scope block);
         let end_points :=
           <[scope block +:+ "/ponder_cost" := VTensor ponder_cost]> end_points in
         let end_points :=
           <[scope block +:+ "/num_units" := VTensor num_units]> end_points in
         let end_points :=
           <[scope block +:+ "/halting_distribution" := VTensor halting_distribution]>
             end_points in
         mret (flops, net, end_points)
       else
         variable_scope (scope block) (
           let flops := TInt 0 in
           '(net, flops) ← for_in (range (len (args block))) (net, flops)
             (λ '(net, flops) unit_idx,
               '(net, _, current_flops) ← unit_act block net unit_idx true false None;
               flops ← tf_add flops current_flops;
               mret (net, flops));
           mret (flops, net, end_points)));
    let end_points := <[scope block +:+ "/flops" := VTensor flops]> end_points in
    total ← dict_get end_points "flops" ≫= as_tensor;
    total ← tf_add total flops;
    let end_points := <["flops" := VTensor total]> end_points in
    let end_points := <[scope block := VTensor net]> end_points in
    mret (net, end_points)).

(** ** Heat maps *)

Definition metric_name_ok (metric_name : string) : bool :=
  bool_decide (metric_name = "ponder_cost") || bool_decide (metric_name = "num_units").

(** [sum(l)] on a list of Python integers *)
Definition py_sum (l : list Z) : Z := foldl Z.add 0 l.

(** [alpha / max_value], a float over an integer *)
Definition py_truediv (a : Q) (b : Z) : M Q :=
  if b =? 0 then raise ZeroDivisionError else mret (a / inject_Z b)%Q.

Definition sact_image_heatmap (end_points : gmap string Value) (metric_name : string)
    (num_images : option Z) (alpha : Q) (border : Z) (normalize_images : bool)
  : M Tensor :=
  _ ← assert (metric_name_ok metric_name);
  images ← dict_get end_points "inputs" ≫= as_tensor;
  '(images, num_images) ←
    match num_images with
    | Some n => images ← emit (TTake images (TInt n) 4); mret (images, TInt n)
    | None => sh ← tf_shape images; n ← emit (TGetItem sh 0); mret (images, n)
    end;
  images ←
    (if normalize_images
     then
       lo ← tf_reduce_min images (Some [1; 2; 3]%nat) true;
       images ← tf_sub images lo;
       hi ← tf_reduce_max images (Some [1; 2; 3]%nat) true;
       tf_div images hi
     else mret images);
  sh ← tf_shape images;
  resolution ← emit (TGetSlice sh 1 3);
  block_num_units ← dict_get end_points "block_num_units" ≫= as_ints;
  let max_value := py_sum block_num_units in
  let max_value :=
    if bool_decide (metric_name = "ponder_cost")
    then max_value + len block_num_units else max_value in
  let heatmaps := [] in
  block_scopes ← dict_get end_points "block_scopes" ≫= as_strings;
  heatmaps ← for_in block_scopes heatmaps (λ heatmaps scope,
    h ← dict_get end_points (scope +:+ "/" +:+ metric_name) ≫= as_tensor;
    h ← tf_to_float h;
    h ← emit (TTake h num_images 3);
    h ← tf_expand_dims h 3;
    h ← tf_resize_nearest_neighbor h resolution;
    r0 ← emit (TGetItem resolution 0);
    r1 ← emit (TGetItem resolution 1);
    dimensions ← tf_stack [num_images; r0; r1; TInt 2];
    z ← tf_zeros dimensions;
    h ← tf_concat [h; z] 3;
    mret (heatmaps ++ [h]));
  a ← tf_mul images (TFloat (1 - alpha));
  s ← tf_add_n heatmaps;
  c ← py_truediv alpha max_value;
  b ← tf_mul s (TFloat c);
  im_heatmap ← tf_add a b;
  r0 ← emit (TGetItem resolution 0);
  dimensions ← tf_stack [num_images; r0; TInt border; TInt 3];
  z ← tf_zeros dimensions;
  tf_concat [images; z; im_heatmap] 2.

Definition sact_map (end_points : gmap string Value) (metric_name : string) : M Tensor :=
  _ ← assert (metric_name_ok metric_name);
  inputs ← dict_get end_points "inputs" ≫= as_tensor;
  resolution ←
    match shape_of inputs with
    | Some sh => mret (TIntList (Z.of_nat <$> drop 1 (take 3 sh)))
    | None => sh ← tf_shape inputs; emit (TGetSlice sh 1 3)
    end;
  let heatmaps := [] in
  block_scopes ← dict_get end_points "block_scopes" ≫= as_strings;
  heatmaps ← for_in block_scopes heatmaps (λ heatmaps scope,
    h ← dict_get end_points (scope +:+ "/" +:+ metric_name) ≫= as_tensor;
    h ← tf_to_float h;
    h ← tf_expand_dims h 3;
    h ← tf_resize_nearest_neighbor h resolution;
    mret (heatmaps ++ [h]));
  tf_add_n heatmaps.

(** ** Model variables and checkpoints *)

(** A model variable is known by the name of its op ([var.op.name]), which
    is unique in a graph. *)
Record ModelVariable := mkModelVariable { op_name : string }.

(** What [slim.assign_from_checkpoint_fn(model_path, var_list)] returns: the
    function that restores the variables [var_list] from the checkpoint
    [model_path]. *)
Record CheckpointFn := mkCheckpointFn { model_path : string; var_list : list ModelVariable }.

(** [slim.assign_from_checkpoint_fn(model_path, var_list)]: an empty list of
    variables is refused ("var_list cannot be empty"). *)
Definition assign_from_checkpoint_fn (model_path : string) (var_list : list ModelVariable)
  : Res CheckpointFn :=
  match var_list with
  | [] => Raise ValueError
  | _ :: _ => Ok (mkCheckpointFn model_path var_list)
  end.

(** A result or an exception, in a computation. *)
Definition of_res {A} (r : Res A) : M A :=
  match r with
  | Ok a => mret a
  | Raise e => raise e
  end.

(** ** Export *)

(** [a % b] and [a // b] on Python integers *)
Definition py_mod (a b : Z) : M Z :=
  if b =? 0 then raise ZeroDivisionError else mret (a mod b).

Definition py_floordiv (a b : Z) : M Z :=
  if b =? 0 then raise ZeroDivisionError else mret (a / b).

(** [output_file.create_dataset(key, sh, compression='lzf')]; a negative
    dimension is refused. *)
Definition create_dataset (key : string) (sh : list Z) : M (list Z) :=
  if forallb (Z.leb 0) sh
  then _ ← do_io (H5CreateDataset key sh); mret sh
  else raise ValueError.

(** [sh[0] = v] on a Python list *)
Definition py_set_first {A} (sh : list A) (v : A) : M (list A) :=
  match sh with
  | [] => raise IndexError
  | _ :: sh' => mret (v :: sh')
  end.

(** The number of rows that the slice [lo:hi] selects among [n] rows: a
    negative bound counts from the end, and both are clipped to the rows
    there are. *)
Definition py_slice_len (n lo hi : Z) : Z :=
  let clip j := if j <? 0 then Z.max (j + n) 0 else Z.min j n in
  Z.max (clip hi - clip lo) 0.

(** The test that h5py makes before it writes an array of shape [source] to
    a selection of shape [count], both given from the last dimension to the
    first: each dimension of the array is that of the selection, or 1 (the
    array is then repeated along it); dimensions that the selection has not
    are 1. *)
Fixpoint h5_broadcast (source count : list Z) : bool :=
  match source, count with
  | [], _ => true
  | t :: source', c :: count' => ((t =? 1) || (t =? c)) && h5_broadcast source' count'
  | _ :: _, [] => forallb (λ t, t <=? 1) source
  end.

(** [dataset[lo:hi, ...] = value] for a dataset of shape [dataset]; [value]
    is what the session returned for a tensor and has its static shape, and
    [batch] is the number of the batch it comes from.  A value that h5py
    cannot broadcast to the rows selected is refused. *)
Definition h5_write (key : string) (dataset : list Z) (lo hi batch : Z) (value : Tensor)
  : M () :=
  sh ← get_shape_as_list value;
  match dataset with
  | [] => raise TypeError
  | n :: dims =>
      if h5_broadcast (reverse (Z.of_nat <$> sh)) (reverse (py_slice_len n lo hi :: dims))
      then do_io (H5Write key lo hi batch)
      else raise TypeError
  end.

(** [model_variables] is the collection that [slim.get_model_variables()]
    reads.  The session is taken to open, to restore the checkpoint and to
    evaluate the tensors without an error of its own. *)
Definition export_to_h5 (model_variables : list ModelVariable)
    (checkpoint_path export_path : string) (images : Tensor)
    (end_points : gmap string Value) (num_samples batch_size : Z) (sact : bool)
  : M () :=
  _ ← do_io (H5Open export_path);
  block_scopes ← dict_get end_points "block_scopes" ≫= as_strings;
  _ ← do_io (H5Attr "block_scopes" block_scopes);
  let keys_to_tensors : gmap string Tensor := ∅ in
  keys_to_tensors ← for_in block_scopes keys_to_tensors (λ keys_to_tensors block_scope,
    for_in [block_scope +:+ "/ponder_cost";
            block_scope +:+ "/num_units";
            block_scope +:+ "/halting_distribution";
            block_scope +:+ "/flops"] keys_to_tensors (λ keys_to_tensors k,
      t ← dict_get end_points k ≫= as_tensor;
      mret (<[k := t]> keys_to_tensors)));
  let keys_to_tensors := <["images" := images]> keys_to_tensors in
  flops ← dict_get end_points "flops" ≫= as_tensor;
  let keys_to_tensors := <["flops" := flops]> keys_to_tensors in
  keys_to_tensors ←
    (if sact
     then
       m ← sact_map end_points "ponder_cost";
       let keys_to_tensors := <["ponder_cost_map" := m]> keys_to_tensors in
       m ← sact_map end_points "num_units";
       mret (<["num_units_map" := m]> keys_to_tensors)
     else mret keys_to_tensors);
  let keys_to_datasets : gmap string (list Z) := ∅ in
  keys_to_datasets ← for_in (map_to_list keys_to_tensors) keys_to_datasets
    (λ keys_to_datasets '(key, tensor),
      sh ← get_shape_as_list tensor;
      sh ← py_set_first (Z.of_nat <$> sh) num_samples;
      _ ← do_io (PrintShape key sh);
      dataset ← create_dataset key sh;
      mret (<[key := dataset]> keys_to_datasets));
  let variables_to_restore := model_variables in
  init_fn ← of_res (assign_from_checkpoint_fn checkpoint_path variables_to_restore);
  _ ← do_io (AssignFromCheckpointFn checkpoint_path);
  _ ← do_io SupervisorCreated;
  r ← py_mod num_samples batch_size;
  _ ← assert (r =? 0);
  num_batches ← py_floordiv num_samples batch_size;
  _ ← do_io SessionOpened;
  _ ← do_io InitFn;
  _ ← do_io StartQueueRunners;
  for_in (range num_batches) () (λ _ i,
    _ ← do_io (LogInfo (i + 1) num_batches);
    _ ← do_io (SessionRun i (map_to_list keys_to_tensors).*1);
    let end_points_out := keys_to_tensors in
    for_in (map_to_list keys_to_datasets) () (λ _ '(key, dataset),
      value ← dict_get end_points_out key;
      h5_write key dataset (i * batch_size) ((i + 1) * batch_size) i value)).

(** * The vocabulary of the statements *)

(** ** Values *)

(** A valuation gives the value of a tensor at the position looked at (for a
    scalar, its value) and the list of all its elements.  It is arbitrary: it
    stands for whatever the floating-point evaluation of a node returns. *)
Record Valuation := mkValuation {
  value_at : Tensor → R;
  elements : Tensor → list R
}.

Definition Rsum (l : list R) : R := fold_right Rplus 0%R l.

Definition Rmean (l : list R) : R := (Rsum l / INR (length l))%R.

Definition Rsigmoid (x : R) : R := (1 / (1 + exp (- x)))%R.

(** The value of a node built from scalars and element-wise operations; a
    mean over all the axes averages the elements of its argument. *)
Fixpoint eval (ρ : Valuation) (t : Tensor) : R :=
  match t with
  | TInt z => IZR z
  | TFloat q => Q2R q
  | TUnary Sqrt x => sqrt (eval ρ x)
  | TUnary Sigmoid x => Rsigmoid (eval ρ x)
  | TUnary ToFloat x => eval ρ x
  | TBinary Add a b => (eval ρ a + eval ρ b)%R
  | TBinary Sub a b => (eval ρ a - eval ρ b)%R
  | TBinary Mul a b => (eval ρ a * eval ρ b)%R
  | TBinary Div a b => (eval ρ a / eval ρ b)%R
  | TBinary Maximum a b => Rmax (eval ρ a) (eval ρ b)
  | TReduce Mean x None _ => Rmean (elements ρ x)
  | _ => value_at ρ t
  end.

(** ** Nodes of the estimators *)

(** The nodes created directly under a [halting_proba] variable scope: the
    nodes of the two estimators. *)
Definition halting_nodes (g : list (list string * Tensor)) : list (list string * Tensor) :=
  filter (λ n, head n.1 = Some "halting_proba") g.

(** The nodes [ts], created in this order under the scopes [sc]. *)
Definition under (sc : list string) (ts : list Tensor) : list (list string * Tensor) :=
  pair sc <$> ts.

(** The estimator [unit_act] calls on the output of a unit. *)
Definition estimator (sact : bool) (outputs : Tensor) : M (Tensor * Tensor) :=
  if sact then get_halting_proba_conv outputs None else get_halting_proba outputs.

(** The nodes of the global estimator on [outputs], in the order of their
    creation: the pooled activation, its normalisation, the two results of
    the convolution and the squeezed probability. *)
Definition global_estimator_nodes (outputs : Tensor) : list Tensor :=
  let pooled := TReduce Mean outputs (Some [1; 2]%nat) true in
  let normed := TBatchNorm pooled "global_bn" in
  let conv out :=
    TConv2d out normed 1 1 (Some SigmoidFn) None (Some INIT_BIAS) None "global_conv" in
  [pooled; normed; conv ConvOutputs; conv ConvFlops; TSqueeze (conv ConvOutputs) [1; 2]%nat].

(** The nodes of the convolutional estimator, in the order of their creation. *)
Definition conv_estimator_nodes (outputs : Tensor) (residual_mask : option Tensor)
  : list Tensor :=
  let local_feature := TBatchNorm outputs "local_bn" in
  let local_conv out :=
    TConv2d out local_feature 1 SACT_KERNEL_SIZE None None (Some INIT_BIAS)
      residual_mask "local_conv" in
  let pooled := TReduce Mean outputs (Some [1; 2]%nat) true in
  let global_feature := TBatchNorm pooled "global_bn" in
  let global_conv out :=
    TConv2d out global_feature 1 1 None None None None "global_conv" in
  let flops := TBinary Add (TInt 0) (local_conv ConvFlops) in
  let halting_logit := TBinary Add (local_conv ConvOutputs) (global_conv ConvOutputs) in
  [local_feature; local_conv ConvOutputs; local_conv ConvFlops; flops;
   pooled; global_feature; global_conv ConvOutputs; global_conv ConvFlops;
   TBinary Add flops (global_conv ConvFlops); halting_logit;
   TUnary Sigmoid halting_logit].

(** ** The export, in two phases *)

(** The first phase of [export_to_h5], up to the creation of the supervisor:
    it opens the file, collects the tensors to evaluate and creates one
    dataset per tensor. *)
Definition export_prepare (model_variables : list ModelVariable)
    (checkpoint_path export_path : string) (images : Tensor)
    (end_points : gmap string Value) (num_samples : Z) (sact : bool)
  : M (gmap string Tensor * gmap string (list Z)) :=
  _ ← do_io (H5Open export_path);
  block_scopes ← dict_get end_points "block_scopes" ≫= as_strings;
  _ ← do_io (H5Attr "block_scopes" block_scopes);
  let keys_to_tensors : gmap string Tensor := ∅ in
  keys_to_tensors ← for_in block_scopes keys_to_tensors (λ keys_to_tensors block_scope,
    for_in [block_scope +:+ "/ponder_cost";
            block_scope +:+ "/num_units";
            block_scope +:+ "/halting_distribution";
            block_scope +:+ "/flops"] keys_to_tensors (λ keys_to_tensors k,
      t ← dict_get end_points k ≫= as_tensor;
      mret (<[k := t]> keys_to_tensors)));
  let keys_to_tensors := <["images" := images]> keys_to_tensors in
  flops ← dict_get end_points "flops" ≫= as_tensor;
  let keys_to_tensors := <["flops" := flops]> keys_to_tensors in
  keys_to_tensors ←
    (if sact
     then
       m ← sact_map end_points "ponder_cost";
       let keys_to_tensors := <["ponder_cost_map" := m]> keys_to_tensors in
       m ← sact_map end_points "num_units";
       mret (<["num_units_map" := m]> keys_to_tensors)
     else mret keys_to_tensors);
  let keys_to_datasets : gmap string (list Z) := ∅ in
  keys_to_datasets ← for_in (map_to_list keys_to_tensors) keys_to_datasets
    (λ keys_to_datasets '(key, tensor),
      sh ← get_shape_as_list tensor;
      sh ← py_set_first (Z.of_nat <$> sh) num_samples;
      _ ← do_io (PrintShape key sh);
      dataset ← create_dataset key sh;
      mret (<[key := dataset]> keys_to_datasets));
  let variables_to_restore := model_variables in
  init_fn ← of_res (assign_from_checkpoint_fn checkpoint_path variables_to_restore);
  _ ← do_io (AssignFromCheckpointFn checkpoint_path);
  _ ← do_io SupervisorCreated;
  mret (keys_to_tensors, keys_to_datasets).

(** The second phase: the check of the batch size and the session. *)
Definition export_batches (keys_to_tensors : gmap string Tensor)
    (keys_to_datasets : gmap string (list Z)) (num_samples batch_size : Z) : M () :=
  r ← py_mod num_samples batch_size;
  _ ← assert (r =? 0);
  num_batches ← py_floordiv num_samples batch_size;
  _ ← do_io SessionOpened;
  _ ← do_io InitFn;
  _ ← do_io StartQueueRunners;
  for_in (range num_batches) () (λ _ i,
    _ ← do_io (LogInfo (i + 1) num_batches);
    _ ← do_io (SessionRun i (map_to_list keys_to_tensors).*1);
    let end_points_out := keys_to_tensors in
    for_in (map_to_list keys_to_datasets) () (λ _ '(key, dataset),
      value ← dict_get end_points_out key;
      h5_write key dataset (i * batch_size) ((i + 1) * batch_size) i value)).


(** All the writes, and all that is done with a session. *)
Definition is_write (e : IOEvent) : bool :=
  match e with H5Write _ _ _ _ => true | _ => false end.

Definition is_session (e : IOEvent) : bool :=
  match e with
  | SessionOpened | InitFn | StartQueueRunners | LogInfo _ _ | SessionRun _ _ => true
  | _ => false
  end.





(** A computation is quiet when it writes no record and does nothing with a
    session, whether it returns or raises. *)
Definition quiet {A} (m : M A) : Prop :=
  ∀ w, ∃ evs, io (m w).1 = io w ++ evs ∧
              Forall (λ e, is_write e = false ∧ is_session e = false) evs.

(** The world after the events [evs]. *)
Definition add_io (evs : list IOEvent) (w : World) : World :=
  mkWorld (scopes w) (graph w) (losses w) (summaries w) (io w ++ evs).



(** ** Keys of the end points *)

Fixpoint has_slash (s : string) : bool :=
  match s with
  | EmptyString => false
  | String c s' => bool_decide (c = "/"%char) || has_slash s'
  end.

(** The keys that [stack_blocks] sets whatever the blocks are. *)
Definition reserved_keys : list string := ["flops"; "block_scopes"; "block_num_units"].

(** Block scopes as the networks of the repository name them (["block1"],
    ["block2"], ...): distinct, without [/], and none is a reserved key. *)
Definition plain_scopes (blocks : list Block) : Prop :=
  NoDup (scope <$> blocks) ∧
  ∀ b, b ∈ blocks → has_slash (scope b) = false ∧ scope b ∉ reserved_keys.

(** ** What [stack_blocks] records for one block *)

(** [end_points['flops'] += flops] *)
Definition add_total (end_points : gmap string Value) (flops : Tensor)
  : gmap string Value :=
  match end_points !! "flops" with
  | Some (VTensor total) => <["flops" := VTensor (TBinary Add total flops)]> end_points
  | _ => end_points
  end.

(** The three assignments at the end of the loop body. *)
Definition record_flops (end_points : gmap string Value) (block : Block)
    (flops net : Tensor) : gmap string Value :=
  <[scope block := VTensor net]>
    (add_total (<[scope block +:+ "/flops" := VTensor flops]> end_points) flops).

(** The assignments of a block run by a controller that returned [r]. *)
Definition record_act (end_points : gmap string Value) (block : Block)
    (r : Tensor * Tensor * Tensor * Tensor * Tensor) : gmap string Value :=
  let '(ponder_cost, num_units, flops, halting_distribution, net) := r in
  record_flops
    (<[scope block +:+ "/halting_distribution" := VTensor halting_distribution]>
       (<[scope block +:+ "/num_units" := VTensor num_units]>
          (<[scope block +:+ "/ponder_cost" := VTensor ponder_cost]> end_points)))
    block flops net.

(** The keys that the loop body sets for a block. *)
Definition flops_keys (block : Block) : list string :=
  [scope block +:+ "/flops"; "flops"; scope block].

Definition act_keys (block : Block) : list string :=
  [scope block +:+ "/ponder_cost"; scope block +:+ "/num_units";
   scope block +:+ "/halting_distribution"] ++ flops_keys block.

(** ** The loop of [stack_blocks] *)

(** The controller that [stack_blocks] picks. *)
Definition select_act_func (act : ActModule) (act_early_stopping sact : bool) : ActFunc :=
  if sact then spatially_adaptive_computation_time act
  else if act_early_stopping then adaptive_computation_early_stopping act
  else adaptive_computation_time_wrapper act.

(** The body of the loop over the blocks. *)
Definition stack_body (act : ActModule) (use_act act_early_stopping sact : bool)
  : Tensor * gmap string Value → Block → M (Tensor * gmap string Value) :=
  λ '(net, end_points) block,
    '(flops, net, end_points) ←
      (if use_act
       then
         let act_func :=
           if sact then spatially_adaptive_computation_time act
           else if act_early_stopping then adaptive_computation_early_stopping act
           else adaptive_computation_time_wrapper act in
         '(ponder_cost, num_units, flops, halting_distribution, net) ←
           act_func net (partial_unit_act block sact) (len (args block)) (scope block);
         let end_points :=
           <[scope block +:+ "/ponder_cost" := VTensor ponder_cost]> end_points in
         let end_points :=
           <[scope block +:+ "/num_units" := VTensor num_units]> end_points in
         let end_points :=
           <[scope block +:+ "/halting_distribution" := VTensor halting_distribution]>
             end_points in
         mret (flops, net, end_points)
       else
         variable_scope (scope block) (
           let flops := TInt 0 in
           '(net, flops) ← for_in (range (len (args block))) (net, flops)
             (λ '(net, flops) unit_idx,
               '(net, _, current_flops) ← unit_act block net unit_idx true false None;
               flops ← tf_add flops current_flops;
               mret (net, flops));
           mret (flops, net, end_points)));
    let end_points := <[scope block +:+ "/flops" := VTensor flops]> end_points in
    total ← dict_get end_points "flops" ≫= as_tensor;
    total ← tf_add total flops;
    let end_points := <["flops" := VTensor total]> end_points in
    let end_points := <[scope block := VTensor net]> end_points in
    mret (net, end_points).

(** The end points before the loop. *)
Definition initial_end_points (blocks : list Block)
    (end_points : option (gmap string Value)) : gmap string Value :=
  let end_points := default ∅ end_points in
  <["block_num_units" := VInts ((λ block, len (args block)) <$> blocks)]>
    (<["block_scopes" := VStrings (scope <$> blocks)]>
       (<["flops" := default (VTensor (TInt 0)) (end_points !! "flops")]> end_points)).

(** The world after the node [t] has been added. *)
Definition add_node (t : Tensor) (w : World) : World :=
  mkWorld (scopes w) (graph w ++ [(scopes w, t)]) (losses w) (summaries w) (io w).

Definition result_flops (r : Tensor * Tensor * Tensor * Tensor * Tensor) : Tensor :=
  r.1.1.2.

Definition result_net (r : Tensor * Tensor * Tensor * Tensor * Tensor) : Tensor := r.2.

(** ** Blocks run by a controller *)

(** The controller is the caller's: it is taken to return on the blocks it
    is given. *)
Definition act_returns (f : ActFunc) (sact : bool) (blocks : list Block) : Prop :=
  ∀ b net w, b ∈ blocks →
    ∃ w' r, f net (partial_unit_act b sact) (len (args b)) (scope b) w = (w', Ok r).

(** [threaded f sact net blocks rs]: the results [rs] are those of the
    controller [f] on the blocks, in order, the first on the input [net] and
    each of the others on the output of the block before it. *)
Inductive threaded (f : ActFunc) (sact : bool)
  : Tensor → list Block → list (Tensor * Tensor * Tensor * Tensor * Tensor) → Prop :=
| threaded_nil net : threaded f sact net [] []
| threaded_cons net b blocks r rs w w' :
    f net (partial_unit_act b sact) (len (args b)) (scope b) w = (w', Ok r) →
    threaded f sact (result_net r) blocks rs →
    threaded f sact net (b :: blocks) (r :: rs).

(** The output of the last block, or the input when there is no block. *)
Definition final_net (net : Tensor)
    (rs : list (Tensor * Tensor * Tensor * Tensor * Tensor)) : Tensor :=
  foldl (λ _ r, result_net r) net rs.

Definition record_all (ep : gmap string Value)
    (brs : list (Block * (Tensor * Tensor * Tensor * Tensor * Tensor)))
  : gmap string Value :=
  foldl (λ ep br, record_act ep br.1 br.2) ep brs.

(** ** Blocks run without a controller *)

(** The units [rest] of a block run one after the other, each on the whole
    output of the one before and without a mask: the output of the last unit
    and the running total of the FLOPs. *)
Fixpoint run_units (b : Block) (rest : list (list Z)) (net flops : Tensor)
  : Tensor * Tensor :=
  match rest with
  | [] => (net, flops)
  | a :: rest' =>
      let r := unit_fn b net a None in
      run_units b rest' r.1 (TBinary Add flops r.2)
  end.


(** The nodes that these units add to the graph: under the scope of each
    unit its two results, and under the scope of the block the addition to
    the total. *)
Fixpoint unit_nodes (sc : list string) (b : Block) (unit_idx : Z)
    (rest : list (list Z)) (net flops : Tensor) : list (list string * Tensor) :=
  match rest with
  | [] => []
  | a :: rest' =>
      let r := unit_fn b net a None in
      under (("unit_" +:+ string_of_Z (unit_idx + 1)) :: sc) [r.1; r.2] ++
      [(sc, TBinary Add flops r.2)] ++
      unit_nodes sc b (unit_idx + 1) rest' r.1 (TBinary Add flops r.2)
  end.

(** All the blocks in order, each on the output of the one before. *)
Fixpoint static_net (blocks : list Block) (net : Tensor) : Tensor :=
  match blocks with
  | [] => net
  | b :: blocks' => static_net blocks' (run_units b (args b) net (TInt 0)).1
  end.

Definition block_flops (b : Block) (net : Tensor) : Tensor :=
  (run_units b (args b) net (TInt 0)).2.

Fixpoint static_nodes (sc : list string) (blocks : list Block) (net total : Tensor)
  : list (list string * Tensor) :=
  match blocks with
  | [] => []
  | b :: blocks' =>
      unit_nodes (scope b :: sc) b 0 (args b) net (TInt 0) ++
      [(sc, TBinary Add total (block_flops b net))] ++
      static_nodes sc blocks' (run_units b (args b) net (TInt 0)).1
        (TBinary Add total (block_flops b net))
  end.

Fixpoint record_static (ep : gmap string Value) (blocks : list Block) (net : Tensor)
  : gmap string Value :=
  match blocks with
  | [] => ep
  | b :: blocks' =>
      let r := run_units b (args b) net (TInt 0) in
      record_static (record_flops ep b r.2 r.1) blocks' r.1
  end.

(** ** The heat map over the images *)

(** The images kept, and the number of images as the slices and the shapes
    of the zero blocks use it. *)
Definition kept_images (images : Tensor) (num_images : option Z) : Tensor :=
  match num_images with
  | Some n => TTake images (TInt n) 4
  | None => images
  end.

Definition image_count (images : Tensor) (num_images : option Z) : Tensor :=
  match num_images with
  | Some n => TInt n
  | None => TGetItem (TShape images) 0
  end.

(** Each image shifted by its minimum and divided by the maximum of the
    shifted image. *)
Definition normalized (x : Tensor) : Tensor :=
  let shifted := TBinary Sub x (TReduce Min x (Some [1; 2; 3]%nat) true) in
  TBinary Div shifted (TReduce Max shifted (Some [1; 2; 3]%nat) true).

Definition shown_images (images : Tensor) (num_images : option Z)
    (normalize_images : bool) : Tensor :=
  if normalize_images then normalized (kept_images images num_images)
  else kept_images images num_images.

(** The heat map of one block: the metric of the block resized to the
    resolution of the images by nearest neighbour, in the red channel, with
    two channels of zeros. *)
Definition block_heatmap (resolution count h : Tensor) : Tensor :=
  TConcat
    [TResizeNearestNeighbor (TExpandDims (TTake (TUnary ToFloat h) count 3) 3) resolution;
     TZeros (TStack [count; TGetItem resolution 0; TGetItem resolution 1; TInt 2])]
    3.

Definition heatmap_max_value (metric_name : string) (block_num_units : list Z) : Z :=
  if bool_decide (metric_name = "ponder_cost")
  then py_sum block_num_units + len block_num_units
  else py_sum block_num_units.

(** The tensor that [sact_image_heatmap] returns: the images, a block of
    zeros [border] wide, and the images under the sum of the heat maps,
    side by side along the width. *)
Definition image_heatmap (images : Tensor) (num_images : option Z) (alpha : Q)
    (border : Z) (normalize_images : bool) (max_value : Z) (metrics : list Tensor)
  : Tensor :=
  let shown := shown_images images num_images normalize_images in
  let count := image_count images num_images in
  let resolution := TGetSlice (TShape shown) 1 3 in
  let heatmaps := block_heatmap resolution count <$> metrics in
  let im_heatmap :=
    TBinary Add (TBinary Mul shown (TFloat (1 - alpha)))
      (TBinary Mul (TAddN heatmaps) (TFloat (alpha / inject_Z max_value))) in
  TConcat
    [shown;
     TZeros (TStack [count; TGetItem resolution 0; TInt border; TInt 3]);
     im_heatmap]
    2.

(** ** Shapes of the heat map *)

(** The number of images shown. *)
Definition shown_count (batch : nat) (num_images : option Z) : nat :=
  match num_images with
  | Some n => Z.to_nat n
  | None => batch
  end.

Definition num_images_ok (batch : nat) (num_images : option Z) : Prop :=
  match num_images with
  | Some n => 0 ≤ n ≤ Z.of_nat batch
  | None => True
  end.

(** ** A small network, to run the statements on *)

(** A unit that keeps the shape of its input, with a FLOP count per image. *)
Definition sample_unit_fn (inputs : Tensor) (a : list Z) (residual_mask : option Tensor)
  : Tensor * Tensor :=
  (TBatchNorm inputs "unit", TPlaceholder "unit_flops" [3%nat]).

Definition sample_block1 : Block :=
  mkBlock "block1" sample_unit_fn [[256; 64; 1]; [256; 64; 1]; [256; 64; 2]].

Definition sample_block2 : Block :=
  mkBlock "block2" sample_unit_fn [[512; 128; 1]; [512; 128; 2]].

(** A stand-in for the controllers of [act]: it runs every unit, asks each
    for its halting probability and halts at the last one. *)
Definition sample_act_func : ActFunc := λ net unit n sc,
  variable_scope sc (
    '(net, flops) ← for_in (range n) (net, TInt 0) (λ '(net, flops) unit_idx,
      '(net, _, current_flops) ← unit net unit_idx false None;
      flops ← tf_add flops current_flops;
      mret (net, flops));
    mret (TPlaceholder (sc +:+ "/ponder_cost") [3; 56; 56]%nat,
          TPlaceholder (sc +:+ "/num_units") [3; 56; 56]%nat,
          flops,
          TPlaceholder (sc +:+ "/halting_distribution") [3; 56; 56; 3]%nat,
          net)).

Definition sample_act : ActModule :=
  mkActModule sample_act_func sample_act_func sample_act_func.

Definition sample_images : Tensor := TPlaceholder "images" [3; 224; 224; 3]%nat.

(** The end points of a spatially adaptive network of two blocks. *)
Definition sample_end_points : gmap string Value :=
  list_to_map
    [("inputs", VTensor sample_images);
     ("flops", VTensor (TPlaceholder "flops" [3%nat]));
     ("block_scopes", VStrings ["block1"; "block2"]);
     ("block_num_units", VInts [3; 2]);
     ("block1/ponder_cost", VTensor (TPlaceholder "block1/ponder_cost" [3; 56; 56]%nat));
     ("block1/num_units", VTensor (TPlaceholder "block1/num_units" [3; 56; 56]%nat));
     ("block1/halting_distribution",
      VTensor (TPlaceholder "block1/halting_distribution" [3; 56; 56; 3]%nat));
     ("block1/flops", VTensor (TPlaceholder "block1/flops" [3%nat]));
     ("block2/ponder_cost", VTensor (TPlaceholder "block2/ponder_cost" [3; 28; 28]%nat));
     ("block2/num_units", VTensor (TPlaceholder "block2/num_units" [3; 28; 28]%nat));
     ("block2/halting_distribution",
      VTensor (TPlaceholder "block2/halting_distribution" [3; 28; 28; 2]%nat));
     ("block2/flops", VTensor (TPlaceholder "block2/flops" [3%nat]))].

Definition sample_blocks : list Block := [sample_block1; sample_block2].

(** The activation of a unit of the first block. *)
Definition sample_outputs : Tensor := TPlaceholder "outputs" [3; 56; 56; 256]%nat.

(** The metric of a block of the sample end points. *)
Definition sample_metric (metric_name scope : string) : Tensor :=
  match sample_end_points !! (scope +:+ "/" +:+ metric_name) with
  | Some (VTensor t) => t
  | _ => TInt 0
  end.

(** Whether the mapping returned by a run of [stack_blocks] has the key [k];
    [None] when the run raises. *)
Definition returns_key (run : World * Res (Tensor * gmap string Value)) (k : string)
  : option bool :=
  match run.2 with
  | Ok (_, ep) => Some (bool_decide (is_Some (ep !! k)))
  | Raise _ => None
  end.

(** The integer value of a FLOP count built from integers and additions,
    every other node counting for [unit]. *)
Fixpoint count_flops (unit : Z) (t : Tensor) : Z :=
  match t with
  | TInt z => z
  | TBinary Add a b => count_flops unit a + count_flops unit b
  | _ => unit
  end.

(** By how much the ['flops'] entry returned by a run of [stack_blocks] on
    the two sample blocks exceeds the sum of the [S/flops] entries of the
    blocks; [None] when the run raises or an entry is missing. *)
Definition flops_beyond_blocks (run : World * Res (Tensor * gmap string Value))
  : option Z :=
  match run.2 with
  | Ok (_, ep) =>
      match ep !! "flops", ep !! "block1/flops", ep !! "block2/flops" with
      | Some (VTensor total), Some (VTensor f1), Some (VTensor f2) =>
          Some (count_flops 1 total - (count_flops 1 f1 + count_flops 1 f2))
      | _, _, _ => None
      end
  | Raise _ => None
  end.

(** The model variables of a unit and of its estimator. *)
Definition sample_model_variables : list ModelVariable :=
  [mkModelVariable "block1/unit_1/conv1/weights";
   mkModelVariable "block1/unit_1/halting_proba/global_conv/weights"].

(** Whether the ['block_scopes'] entry of the mapping returned by a run of
    [stack_blocks] is a list of names; [None] when the run raises. *)
Definition returns_scope_list (run : World * Res (Tensor * gmap string Value))
  : option bool :=
  match run.2 with
  | Ok (_, ep) =>
      Some match ep !! "block_scopes" with
           | Some (VStrings _) => true
           | _ => false
           end
  | Raise _ => None
  end.

(** What the first phase of the export of six samples returns for the
    sample end points: the world, the tensors and the datasets. *)
Definition sample_prepared : World * Res (gmap string Tensor * gmap string (list Z)) :=
  Eval vm_compute in
    export_prepare sample_model_variables "ckpt" "out.h5" sample_images sample_end_points 6
      true empty_world.

(** ** Strings of integers *)

(** [s.split(sep)] for a separator of one character: the pieces between the
    separators, of which there is always one at least. *)
Fixpoint str_split (sep : ascii) (s : string) : list string :=
  match s with
  | EmptyString => [EmptyString]
  | String c s' =>
      if Ascii.eqb c sep then EmptyString :: str_split sep s'
      else match str_split sep s' with
           | piece :: pieces => String c piece :: pieces
           | [] => [String c EmptyString]
           end
  end.

(** The white space of the C locale: the space and the characters 9 to 13. *)
Definition is_space (c : ascii) : bool :=
  let n := nat_of_ascii c in
  (n =? 32)%nat || ((9 <=? n)%nat && (n <=? 13)%nat).

Definition digit_value (c : ascii) : option Z :=
  let n := Z.of_nat (nat_of_ascii c) in
  if (48 <=? n) && (n <=? 57) then Some (n - 48) else None.

Fixpoint skip_spaces (s : string) : string :=
  match s with
  | EmptyString => EmptyString
  | String c s' => if is_space c then skip_spaces s' else s
  end.

(** Reads the digits at the head of [s]: their number, the value of
    [acc] followed by them in base ten, and what is left of [s]. *)
Fixpoint read_digits (acc : Z) (s : string) : nat * Z * string :=
  match s with
  | EmptyString => (0%nat, acc, EmptyString)
  | String c s' =>
      match digit_value c with
      | Some d => let '(n, v, rest) := read_digits (10 * acc + d) s' in (S n, v, rest)
      | None => (0%nat, acc, s)
      end
  end.

(** [int(x)] on a byte string, as Python 2 reads it in base ten: white
    space, an optional sign, white space, one digit at least, white space,
    and nothing else.  The integers of Python are unbounded. *)
Definition py_int (x : string) : Res Z :=
  let s := skip_spaces x in
  let '(negative, s) :=
    match s with
    | String "-" s' => (true, s')
    | String "+" s' => (false, s')
    | _ => (false, s)
    end in
  let '(n, v, rest) := read_digits 0 (skip_spaces s) in
  match n, skip_spaces rest with
  | S _, EmptyString => Ok (if negative then - v else v)
  | _, _ => Raise ValueError
  end.

(** [[f(x) for x in l]] where [f] can raise: the first exception ends it. *)
Fixpoint py_list_map {A B} (f : A → Res B) (l : list A) : Res (list B) :=
  match l with
  | [] => Ok []
  | x :: l' =>
      match f x with
      | Ok y => match py_list_map f l' with
                | Ok ys => Ok (y :: ys)
                | Raise e => Raise e
                end
      | Raise e => Raise e
      end
  end.

Definition split_and_int (s : string) : Res (list Z) :=
  py_list_map py_int (str_split "_" s).

(** [sep.join(l)] *)
Definition str_join (sep : string) (l : list string) : string := String.concat sep l.

(** The number of occurrences of the character [c] in [s]. *)
Fixpoint count_char (c : ascii) (s : string) : nat :=
  match s with
  | EmptyString => 0%nat
  | String d s' => ((if Ascii.eqb d c then 1 else 0) + count_char c s')%nat
  end.

(** The value of a decimal numeral, digit by digit from [acc]. *)
Fixpoint uint_value (acc : Z) (u : Decimal.uint) : Z :=
  match u with
  | Decimal.Nil => acc
  | Decimal.D0 u' => uint_value (10 * acc + 0) u'
  | Decimal.D1 u' => uint_value (10 * acc + 1) u'
  | Decimal.D2 u' => uint_value (10 * acc + 2) u'
  | Decimal.D3 u' => uint_value (10 * acc + 3) u'
  | Decimal.D4 u' => uint_value (10 * acc + 4) u'
  | Decimal.D5 u' => uint_value (10 * acc + 5) u'
  | Decimal.D6 u' => uint_value (10 * acc + 6) u'
  | Decimal.D7 u' => uint_value (10 * acc + 7) u'
  | Decimal.D8 u' => uint_value (10 * acc + 8) u'
  | Decimal.D9 u' => uint_value (10 * acc + 9) u'
  end.

(** A string that does not go on with a digit. *)
Definition no_digit_ahead (s : string) : Prop :=
  match s with
  | EmptyString => True
  | String c _ => digit_value c = None
  end.

(** ** Fine-tuning *)

(** [sub in s] on strings *)
Fixpoint str_contains (sub s : string) : bool :=
  String.prefix sub s ||
  match s with
  | EmptyString => false
  | String _ s' => str_contains sub s'
  end.

Definition variables_to_str (variables : list ModelVariable) : string :=
  str_join ", " (op_name <$> variables).

(** The three lines that [get_finetuning_settings] logs, with the values
    they are formatted from. *)
Inductive LogLine :=
| WarningFinetuningFrom (finetune_path : string)
| InfoRestoringVariables (names : string)
| InfoTrainingWith (lr_coeff : Q) (names : string).

(** [model_variables] is the collection that [slim.get_model_variables()]
    reads; the lines logged are returned with the result or the exception.
    The multipliers are keyed by the variables, here by their names; all are
    [lr_coeff]. *)
Definition get_finetuning_settings (model_variables : list ModelVariable)
    (finetune_path : option string) (lr_coeff : Q)
  : list LogLine * Res (option CheckpointFn * option (gmap string Q)) :=
  match finetune_path with
  | None | Some EmptyString => ([], Ok (None, None))
  | Some finetune_path =>
      let variables := model_variables in
      let variables_to_restore :=
        List.filter (λ var, negb (str_contains "/halting_proba/" (op_name var))) variables in
      let variables_to_train_fast :=
        List.filter (λ var, str_contains "/halting_proba/" (op_name var)) variables in
      ([WarningFinetuningFrom finetune_path;
        InfoRestoringVariables (variables_to_str variables_to_restore);
        InfoTrainingWith lr_coeff (variables_to_str variables_to_train_fast)],
       match assign_from_checkpoint_fn finetune_path variables_to_restore with
       | Raise e => Raise e
       | Ok init_fn =>
           let gradient_multipliers : gmap string Q :=
             list_to_map ((λ var, (op_name var, lr_coeff)) <$> variables_to_train_fast) in
           Ok (Some init_fn, Some gradient_multipliers)
       end)
  end.

(** The names that [get_finetuning_settings] looks for: those with
    [/halting_proba/] somewhere inside. *)
Definition is_halting_name (name : string) : Prop :=
  ∃ before after, name = before +:+ "/halting_proba/" +:+ after.

(** ** Metrics *)

(** A value of a metric map: a tensor, or the pair (value, update op) that
    [slim.metrics.streaming_mean] returns for it.  The nodes that
    [streaming_mean] creates are its own and are not recorded. *)
Inductive Metric :=
| MetricTensor (t : Tensor)
| StreamingMean (t : Tensor).

(** [d.update(other)]: the entries of [other] replace those of [d]. *)
Definition dict_update {V} (d other : gmap string V) : gmap string V := other ∪ d.

(** [{k: slim.metrics.streaming_mean(v) for k, v in metric_map.iteritems()}]
    when [mean_metric], and [metric_map] itself otherwise. *)
Definition as_metrics (mean_metric : bool) (metric_map : gmap string Tensor)
  : gmap string Metric :=
  if mean_metric then StreamingMean <$> metric_map else MetricTensor <$> metric_map.

Definition act_metric_map (end_points : gmap string Value) (mean_metric : bool)
  : M (gmap string Metric) :=
  let metric_map : gmap string Tensor := ∅ in
  block_scopes ← dict_get end_points "block_scopes" ≫= as_strings;
  metric_map ← for_in block_scopes metric_map (λ metric_map block_scope,
    let name := block_scope +:+ "/ponder_cost" in
    ponder_cost ← dict_get end_points name ≫= as_tensor;
    ponder_map ← moments_metric_map ponder_cost name "_" false;
    let metric_map := dict_update metric_map ponder_map in
    let name := block_scope +:+ "/num_units" in
    num_units ← dict_get end_points name ≫= as_tensor;
    num_units ← tf_to_float num_units;
    num_units_map ← moments_metric_map num_units name "_" false;
    let metric_map := dict_update metric_map num_units_map in
    let name := block_scope +:+ "/num_units_executed" in
    executed ← tf_reduce_max num_units None false;
    mret (<[name := executed]> metric_map));
  mret (as_metrics mean_metric metric_map).

Definition flops_metric_map (end_points : gmap string Value) (mean_metric : bool)
    (total_name : string) : M (gmap string Metric) :=
  let metric_map : gmap string Tensor := ∅ in
  total_flops ← dict_get end_points "flops" ≫= as_tensor;
  total_flops ← tf_to_float total_flops;
  flops_map ← moments_metric_map total_flops total_name "/" true;
  let metric_map := dict_update metric_map flops_map in
  block_scopes ← dict_get end_points "block_scopes" ≫= as_strings;
  metric_map ← for_in block_scopes metric_map (λ metric_map block_scope,
    let name := block_scope +:+ "/flops" in
    flops ← dict_get end_points name ≫= as_tensor;
    flops ← tf_to_float flops;
    flops_map ← moments_metric_map flops name "_" true;
    mret (dict_update metric_map flops_map));
  mret (as_metrics mean_metric metric_map).

(** ** Image summaries *)

(** [tf.summary.image(name, tensor)]; the summaries of both kinds are kept
    in [summaries], under their names. *)
Definition summary_image (name : string) (tensor : Tensor) : M () := λ w,
  (mkWorld (scopes w) (graph w) (losses w) (summaries w ++ [(name, tensor)]) (io w), Ok ()).

Definition add_heatmaps_image_summary (end_points : gmap string Value)
    (num_images : option Z) (alpha : Q) (border : Z) : M () :=
  heatmap ← sact_image_heatmap end_points "ponder_cost" num_images alpha border true;
  _ ← summary_image "heatmaps/ponder_cost" heatmap;
  heatmap ← sact_image_heatmap end_points "num_units" num_images alpha border true;
  summary_image "heatmaps/num_units" heatmap.

(** ** The vocabulary of the statements on the metrics *)

(** The world after the nodes [ts] have been created under the scopes in
    force and the summaries [ss] added. *)
Definition grow (ts : list Tensor) (ss : list (string * Tensor)) (w : World) : World :=
  mkWorld (scopes w) (graph w ++ under (scopes w) ts) (losses w) (summaries w ++ ss) (io w).

(** All the axes of [x], as [range(len(x.get_shape().as_list()))] lists them. *)
Definition all_axes (x : Tensor) : list nat := seq 0 (length (default [] (shape_of x))).

Definition moments_shift (x : Tensor) (do_shift : bool) : option Tensor :=
  if do_shift then Some (TReduce Mean x None false) else None.

(** The two metrics of [moments_metric_map]: the mean of [x] over all its
    axes, and the square root of its variance kept above 0. *)
Definition moments_mean (x : Tensor) (do_shift : bool) : Tensor :=
  TMoments MomentsMean x (all_axes x) (moments_shift x do_shift).

Definition moments_variance (x : Tensor) (do_shift : bool) : Tensor :=
  TMoments MomentsVariance x (all_axes x) (moments_shift x do_shift).

Definition moments_std (x : Tensor) (do_shift : bool) : Tensor :=
  TUnary Sqrt (TBinary Maximum (TFloat 0) (moments_variance x do_shift)).

(** The nodes that [moments_metric_map] creates, in order. *)
Definition moments_nodes (x : Tensor) (do_shift : bool) : list Tensor :=
  (if do_shift then [TReduce Mean x None false] else []) ++
  [moments_mean x do_shift; moments_variance x do_shift;
   TBinary Maximum (TFloat 0) (moments_variance x do_shift); moments_std x do_shift].

Definition moments_map (x : Tensor) (name delimiter : string) (do_shift : bool)
  : gmap string Tensor :=
  <[name +:+ delimiter +:+ "std" := moments_std x do_shift]>
    (<[name +:+ delimiter +:+ "mean" := moments_mean x do_shift]> ∅).

(** What the body of the loop of [act_metric_map] does for the scope [s],
    whose ponder cost is [pc] and whose number of units is [nu]: the map it
    leaves, the nodes it creates and the summaries it adds. *)
Definition act_scope_metrics (metric_map : gmap string Tensor) (s : string)
    (pc nu : Tensor) : gmap string Tensor :=
  let num_units := TUnary ToFloat nu in
  <[s +:+ "/num_units_executed" := TReduce Max num_units None false]>
    (dict_update
       (dict_update metric_map (moments_map pc (s +:+ "/ponder_cost") "_" false))
       (moments_map num_units (s +:+ "/num_units") "_" false)).

Definition act_scope_nodes (pc nu : Tensor) : list Tensor :=
  let num_units := TUnary ToFloat nu in
  moments_nodes pc false ++ [num_units] ++ moments_nodes num_units false ++
  [TReduce Max num_units None false].

Definition act_scope_summaries (s : string) (pc nu : Tensor) : list (string * Tensor) :=
  [(s +:+ "/ponder_cost", pc); (s +:+ "/num_units", TUnary ToFloat nu)].

(** The five metrics of a scope, under their keys. *)
Definition act_scope_entries (s : string) (pc nu : Tensor) : list (string * Tensor) :=
  let num_units := TUnary ToFloat nu in
  [(s +:+ "/ponder_cost_mean", moments_mean pc false);
   (s +:+ "/ponder_cost_std", moments_std pc false);
   (s +:+ "/num_units_mean", moments_mean num_units false);
   (s +:+ "/num_units_std", moments_std num_units false);
   (s +:+ "/num_units_executed", TReduce Max num_units None false)].

(** The same for [flops_metric_map]: the two metrics of the total, and the
    two metrics of a scope whose FLOPs are [fl]. *)
Definition flops_total_entries (total_name : string) (total : Tensor)
  : list (string * Tensor) :=
  let total_flops := TUnary ToFloat total in
  [(total_name +:+ "/mean", moments_mean total_flops true);
   (total_name +:+ "/std", moments_std total_flops true)].

Definition flops_scope_entries (s : string) (fl : Tensor) : list (string * Tensor) :=
  let flops := TUnary ToFloat fl in
  [(s +:+ "/flops_mean", moments_mean flops true);
   (s +:+ "/flops_std", moments_std flops true)].

Definition flops_scope_nodes (fl : Tensor) : list Tensor :=
  [TUnary ToFloat fl] ++ moments_nodes (TUnary ToFloat fl) true.

(** The metric that [as_metrics] makes of a tensor. *)
Definition as_metric (mean_metric : bool) (t : Tensor) : Metric :=
  if mean_metric then StreamingMean t else MetricTensor t.

(** The last [n] characters of a string, and whether two strings differ
    over the length of the shorter one, counted from their ends. *)
Definition str_tail (n : nat) (s : string) : list ascii :=
  let l := list_ascii_of_string s in drop (length l - n) l.

Definition tails_differ (t1 t2 : string) : bool :=
  let n := Nat.min (String.length t1) (String.length t2) in
  bool_decide (str_tail n t1 ≠ str_tail n t2).

(** The map that a loop leaves when each scope adds its entries [E s] to
    the map, replacing those already there. *)
Definition collect_entries (E : string → list (string * Tensor))
    (metric_map : gmap string Tensor) (block_scopes : list string) : gmap string Tensor :=
  foldl (λ m s, list_to_map (reverse (E s)) ∪ m) metric_map block_scopes.

(** End points that hold the ponder cost [pc s] and the number of units
    [nu s] of every scope [s], both of a known shape: those of an adaptive
    network. *)
Definition act_end_points (end_points : gmap string Value) (block_scopes : list string)
    (pc nu : string → Tensor) : Prop :=
  end_points !! "block_scopes" = Some (VStrings block_scopes) ∧
  ∀ s, s ∈ block_scopes →
    end_points !! (s +:+ "/ponder_cost") = Some (VTensor (pc s)) ∧
    end_points !! (s +:+ "/num_units") = Some (VTensor (nu s)) ∧
    is_Some (shape_of (pc s)) ∧ is_Some (shape_of (nu s)).

(** End points that hold the total of the FLOPs and the FLOPs [fl s] of
    every scope [s], all of a known shape. *)
Definition flops_end_points (end_points : gmap string Value) (block_scopes : list string)
    (total : Tensor) (fl : string → Tensor) : Prop :=
  end_points !! "flops" = Some (VTensor total) ∧ is_Some (shape_of total) ∧
  end_points !! "block_scopes" = Some (VStrings block_scopes) ∧
  ∀ s, s ∈ block_scopes →
    end_points !! (s +:+ "/flops") = Some (VTensor (fl s)) ∧ is_Some (shape_of (fl s)).

(** The world after [stack_blocks] has run the blocks without a controller. *)
Definition static_world (blocks : list Block) (net total : Tensor) (w : World) : World :=
  mkWorld (scopes w) (graph w ++ static_nodes (scopes w) blocks net total)
    (losses w) (summaries w) (io w).

(** The mapping that [stack_blocks] returns for them. *)
Definition static_end_points (blocks : list Block) (net : Tensor)
    (end_points : option (gmap string Value)) : gmap string Value :=
  record_static (initial_end_points blocks end_points) blocks net.

(** ** Stacking in several calls *)

(** What the loop body of [stack_blocks] does with a block before it touches
    the ['flops'] entries: it runs the block and returns its FLOPs, its
    output and the entries that the controller, if any, contributes. *)
Definition run_block (act : ActModule) (use_act act_early_stopping sact : bool)
    (net : Tensor) (block : Block) : M (Tensor * Tensor * list (string * Value)) :=
  if use_act
  then
    '(ponder_cost, num_units, flops, halting_distribution, net) ←
      select_act_func act act_early_stopping sact net (partial_unit_act block sact)
        (len (args block)) (scope block);
    mret (flops, net,
          [(scope block +:+ "/ponder_cost", VTensor ponder_cost);
           (scope block +:+ "/num_units", VTensor num_units);
           (scope block +:+ "/halting_distribution", VTensor halting_distribution)])
  else
    variable_scope (scope block) (
      '(net, flops) ← for_in (range (len (args block))) (net, TInt 0)
        (λ '(net, flops) unit_idx,
          '(net, _, current_flops) ← unit_act block net unit_idx true false None;
          flops ← tf_add flops current_flops;
          mret (net, flops));
      mret (flops, net, [])).

(** The assignments [end_points[k] = v], in order. *)
Definition set_entries (entries : list (string * Value)) (end_points : gmap string Value)
  : gmap string Value :=
  foldl (λ ep kv, <[kv.1 := kv.2]> ep) end_points entries.

(** The end of the loop body: the FLOPs of the block, the total and the
    output of the block. *)
Definition record_block (block : Block) (flops net : Tensor)
    (end_points : gmap string Value) : M (Tensor * gmap string Value) :=
  let end_points := <[scope block +:+ "/flops" := VTensor flops]> end_points in
  total ← dict_get end_points "flops" ≫= as_tensor;
  total ← tf_add total flops;
  let end_points := <["flops" := VTensor total]> end_points in
  let end_points := <[scope block := VTensor net]> end_points in
  mret (net, end_points).

(** Two mappings that hold the same values, except perhaps under
    ['block_scopes'] and ['block_num_units']. *)
Definition same_but_block_lists (ep ep' : gmap string Value) : Prop :=
  ∀ k, k ≠ "block_scopes" → k ≠ "block_num_units" → ep !! k = ep' !! k.

(** Two runs that end in the same world with the same outcome: the same
    exception, or the same tensor and the same mapping but for the lists of
    the blocks. *)
Definition same_outcome (r r' : World * Res (Tensor * gmap string Value)) : Prop :=
  r.1 = r'.1 ∧
  match r.2, r'.2 with
  | Ok (net, ep), Ok (net', ep') => net = net' ∧ same_but_block_lists ep ep'
  | Raise e, Raise e' => e = e'
  | _, _ => False
  end.

(** ** Computations that only build the graph *)

(** A computation only adds nodes when, whether it returns or raises, it
    leaves the variable scope, the losses, the summaries and the file and
    session as they were, and the graph with new nodes at its end. *)
Definition only_adds_nodes {A} (m : M A) : Prop :=
  ∀ w, ∃ nodes,
    (m w).1 = mkWorld (scopes w) (graph w ++ nodes) (losses w) (summaries w) (io w).

(** A controller only adds nodes when it does so for every function of a
    unit that only adds nodes. *)
Definition act_only_adds_nodes (f : ActFunc) : Prop :=
  ∀ net (unit : UnitActFn) n sc,
    (∀ inputs unit_idx skip mask, only_adds_nodes (unit inputs unit_idx skip mask)) →
    only_adds_nodes (f net unit n sc).

(** ** Indices of units *)

(** The position that a Python list gives to the index [i]: a negative
    index counts from the end, and an index beyond either end is refused. *)
Definition py_index (n i : Z) : option nat :=
  if (0 <=? i) && (i <? n) then Some (Z.to_nat i)
  else if (- n <=? i) && (i <? 0) then Some (Z.to_nat (i + n))
  else None.

(** ** The map of a metric *)

(** The map of one block at the resolution of the images: the metric as
    floats, with a channel axis, resized by nearest neighbour. *)
Definition block_map (resolution h : Tensor) : Tensor :=
  TResizeNearestNeighbor (TExpandDims (TUnary ToFloat h) 3) resolution.

(** The resolution that [sact_map] reads off the static shape of the inputs. *)
Definition static_resolution (sh : list nat) : Tensor :=
  TIntList (Z.of_nat <$> drop 1 (take 3 sh)).

(** The three parts of [sample_prepared]: the world after the first phase
    of the export of the sample end points, the tensors and the datasets. *)
Definition sample_prepared_world : World := Eval vm_compute in sample_prepared.1.

Definition sample_tensors : gmap string Tensor :=
  Eval vm_compute in match sample_prepared.2 with Ok p => p.1 | Raise _ => ∅ end.

Definition sample_datasets : gmap string (list Z) :=
  Eval vm_compute in match sample_prepared.2 with Ok p => p.2 | Raise _ => ∅ end.

(** ** The datasets of the export *)

(** The four end points of a block that the export writes. *)
Definition export_keys (block_scope : string) : list string :=
  [block_scope +:+ "/ponder_cost";
   block_scope +:+ "/num_units";
   block_scope +:+ "/halting_distribution";
   block_scope +:+ "/flops"].

(** ** The total of the FLOPs without a controller *)



(** * Proofs *)

(** ** Running computations *)

(** Runs the monad and the primitive actions by value, so that each world is
    reduced to its five fields before the next action reads it. *)
Ltac run_m :=
  cbv beta iota zeta delta
    [mbind M_bind mret M_ret raise assert emit add_loss summary_histogram do_io
     set_scopes variable_scope scopes graph losses summaries io fst snd
     tf_reduce_mean tf_reduce_min tf_reduce_max tf_sqrt tf_sigmoid tf_to_float
     tf_maximum tf_add tf_sub tf_mul tf_div tf_squeeze tf_expand_dims tf_shape
     tf_stack tf_zeros tf_concat tf_add_n tf_resize_nearest_neighbor slim_batch_norm
     tf_nn_moments flopsometer_conv2d as_tensor as_strings as_ints].

Lemma bind_run {A B} (m : M A) (f : A → M B) w w' a :
  m w = (w', Ok a) → (m ≫= f) w = f a w'.
Proof. intros H. unfold mbind, M_bind. now rewrite H. Qed.

Lemma bind_run_snd {A B} (m : M A) (f : A → M B) w a :
  (m w).2 = Ok a → (m ≫= f) w = f a (m w).1.
Proof. unfold mbind, M_bind. destruct (m w) as [w' r]. cbn. now intros ->. Qed.

Lemma bind_raise {A B} (m : M A) (f : A → M B) w w' e :
  m w = (w', Raise e) → (m ≫= f) w = (w', Raise e).
Proof. intros H. unfold mbind, M_bind. now rewrite H. Qed.

Lemma py_getitem_lookup {A} (l : list A) (i : Z) (x : A) w :
  0 ≤ i → l !! Z.to_nat i = Some x → py_getitem l i w = (w, Ok x).
Proof.
  intros Hi Hx. unfold py_getitem.
  pose proof (lookup_lt_Some _ _ _ Hx) as Hlt.
  destruct (Z.ltb_spec i 0); [lia|].
  destruct (Z.leb_spec 0 i); [|lia].
  destruct (Z.ltb_spec i (Z.of_nat (length l))); [|lia].
  simpl. now rewrite Hx.
Qed.

(** ** [unit_act] and the estimators *)

Lemma unit_scope_not_halting z : "unit_" +:+ string_of_Z z ≠ "halting_proba".
Proof. discriminate. Qed.

Lemma halting_nodes_app g1 g2 :
  halting_nodes (g1 ++ g2) = halting_nodes g1 ++ halting_nodes g2.
Proof. apply filter_app. Qed.

(** What [unit_act] does on a unit that is not asked for a halting
    probability: the unit is called and nothing else. *)
Lemma unit_act_plain block inputs unit_idx skip sact mask a w :
  0 ≤ unit_idx → args block !! Z.to_nat unit_idx = Some a →
  negb skip && (unit_idx <? len (args block) - 1) = false →
  let r := unit_fn block inputs a mask in
  unit_act block inputs unit_idx skip sact mask w =
    (mkWorld (scopes w)
       (graph w ++ under (("unit_" +:+ string_of_Z (unit_idx + 1)) :: scopes w) [r.1; r.2])
       (losses w) (summaries w) (io w),
     Ok (r.1, None, r.2)).
Proof.
  intros Hi Ha Hc r. unfold unit_act, variable_scope.
  rewrite (bind_run _ _ _ _ a (py_getitem_lookup _ _ _ _ Hi Ha)).
  unfold call_unit_fn. fold r. unfold len in Hc. rewrite Hc.
  destruct r as [o f]. run_m. rewrite <- app_assoc. reflexivity.
Qed.

(** What [unit_act] does on an earlier unit when the halting probability is
    not skipped: the unit is called, then the estimator on its output, under
    the scope of the unit. *)
Lemma unit_act_estimated block inputs unit_idx sact mask a w :
  0 ≤ unit_idx < len (args block) - 1 → args block !! Z.to_nat unit_idx = Some a →
  let r := unit_fn block inputs a mask in
  let sc := ("unit_" +:+ string_of_Z (unit_idx + 1)) :: scopes w in
  let w1 := mkWorld sc (graph w ++ under sc [r.1; r.2]) (losses w) (summaries w) (io w) in
  ∃ w2 halting_proba current_flops,
    estimator sact r.1 w1 = (w2, Ok (halting_proba, current_flops)) ∧
    unit_act block inputs unit_idx false sact mask w =
      (mkWorld (scopes w) (graph w2 ++ [(sc, TBinary Add r.2 current_flops)])
         (losses w) (summaries w) (io w),
       Ok (r.1, Some halting_proba, TBinary Add r.2 current_flops)).
Proof.
  intros [Hi Hlt] Ha r sc w1. unfold unit_act, variable_scope.
  rewrite (bind_run _ _ _ _ a (py_getitem_lookup _ _ _ _ Hi Ha)).
  unfold call_unit_fn. fold r. unfold len in Hlt.
  destruct (Z.ltb_spec unit_idx (Z.of_nat (length (args block)) - 1)); [|lia].
  destruct r as [o f] eqn:Hr. subst w1.
  destruct sact; unfold estimator, get_halting_proba, get_halting_proba_conv,
    flopsometer_conv2d, tf_add, tf_sigmoid, tf_squeeze, tf_reduce_mean, slim_batch_norm;
    run_m; eexists _, _, _; (split; [reflexivity|]); cbn;
    rewrite <- ?app_assoc; reflexivity.
Qed.

Lemma get_halting_proba_run outputs w :
  ∃ halting_proba flops,
    get_halting_proba outputs w =
      (mkWorld (scopes w)
         (graph w ++ under ("halting_proba" :: scopes w) (global_estimator_nodes outputs))
         (losses w) (summaries w) (io w),
       Ok (halting_proba, flops)).
Proof.
  unfold get_halting_proba. run_m. rewrite <- !app_assoc. eauto.
Qed.

Lemma get_halting_proba_conv_run outputs mask w :
  ∃ halting_proba flops,
    get_halting_proba_conv outputs mask w =
      (mkWorld (scopes w)
         (graph w ++ under ("halting_proba" :: scopes w)
                       (conv_estimator_nodes outputs mask))
         (losses w) (summaries w) (io w),
       Ok (halting_proba, flops)).
Proof.
  unfold get_halting_proba_conv. run_m. rewrite <- !app_assoc. eauto.
Qed.

Lemma estimator_run sact outputs w :
  ∃ nodes halting_proba flops,
    nodes ≠ [] ∧
    estimator sact outputs w =
      (mkWorld (scopes w) (graph w ++ under ("halting_proba" :: scopes w) nodes)
         (losses w) (summaries w) (io w),
       Ok (halting_proba, flops)).
Proof.
  destruct sact; cbn [estimator].
  - destruct (get_halting_proba_conv_run outputs None w) as (hp & f & H).
    eexists _, hp, f. split; [|exact H]. discriminate.
  - destruct (get_halting_proba_run outputs w) as (hp & f & H).
    eexists _, hp, f. split; [|exact H]. discriminate.
Qed.

Lemma halting_nodes_under_halting sc ts :
  halting_nodes (under ("halting_proba" :: sc) ts) = under ("halting_proba" :: sc) ts.
Proof.
  unfold halting_nodes, under. induction ts as [|t ts IH]; [reflexivity|].
  rewrite fmap_cons, filter_cons_True by reflexivity. now rewrite IH.
Qed.

Lemma halting_nodes_under_unit z sc ts :
  halting_nodes (under (("unit_" +:+ string_of_Z z) :: sc) ts) = [].
Proof.
  unfold halting_nodes, under. induction ts as [|t ts IH]; [reflexivity|].
  rewrite fmap_cons, filter_cons_False; [exact IH|]. cbn. intros [=].
Qed.

(** C1. On the last unit of a block, [unit_act] calls the unit and nothing
    else: the halting probability it returns is [None] and no node of an
    estimator joins the graph, whatever [sact] and [skip_halting_proba] are.
    On an earlier unit, with [skip_halting_proba = False], the estimator runs
    on the output of the unit and its probability is returned. *)
Theorem unit_act_last_unit_has_no_halting_proba
    block inputs sact mask w (a_last : list Z) :
  last (args block) = Some a_last →
  (∀ skip,
     let run := unit_act block inputs (len (args block) - 1) skip sact mask w in
     let r := unit_fn block inputs a_last mask in
     run.2 = Ok (r.1, None, r.2) ∧
     graph run.1 =
       graph w ++ under (("unit_" +:+ string_of_Z (len (args block))) :: scopes w) [r.1; r.2] ∧
     halting_nodes (graph run.1) = halting_nodes (graph w)) ∧
  (∀ unit_idx a,
     0 ≤ unit_idx < len (args block) - 1 → args block !! Z.to_nat unit_idx = Some a →
     let run := unit_act block inputs unit_idx false sact mask w in
     let r := unit_fn block inputs a mask in
     ∃ w1 w2 halting_proba current_flops,
       estimator sact r.1 w1 = (w2, Ok (halting_proba, current_flops)) ∧
       run.2 = Ok (r.1, Some halting_proba, TBinary Add r.2 current_flops) ∧
       (length (halting_nodes (graph w)) < length (halting_nodes (graph run.1)))%nat).
Proof.
  intros Hlast. split.
  - intros skip run r.
    assert (Hn : (0 < length (args block))%nat).
    { destruct (args block); [discriminate|cbn; lia]. }
    assert (Ha : args block !! Z.to_nat (len (args block) - 1) = Some a_last).
    { rewrite last_lookup in Hlast. rewrite <- Hlast. f_equal. unfold len. lia. }
    assert (Hc : negb skip && (len (args block) - 1 <? len (args block) - 1) = false).
    { rewrite Z.ltb_irrefl. apply andb_false_r. }
    assert (H0 : 0 ≤ len (args block) - 1) by (unfold len; lia).
    pose proof (unit_act_plain block inputs _ skip sact mask a_last w H0 Ha Hc) as H.
    cbn zeta in H. fold r in H. subst run.
    replace (len (args block) - 1 + 1) with (len (args block)) in H by lia.
    rewrite H. cbn [fst snd graph]. split; [reflexivity|]. split; [reflexivity|].
    rewrite halting_nodes_app, halting_nodes_under_unit. apply app_nil_r.
  - intros unit_idx a Hi Ha run r.
    destruct (unit_act_estimated block inputs unit_idx sact mask a w Hi Ha)
      as (w2 & hp & cf & He & Hrun).
    cbn zeta in He, Hrun. fold r in He, Hrun.
    match type of He with estimator _ _ ?w1 = _ =>
      destruct (estimator_run sact r.1 w1) as (nodes & hp' & cf' & Hne & He')
    end.
    rewrite He' in He. injection He as <- -> ->.
    eexists _, _, hp, cf. split; [exact He'|]. subst run. rewrite Hrun.
    cbn [fst snd graph scopes]. split; [reflexivity|].
    match goal with |- context [?g ++ [(?sc, ?t)]] =>
      change [(sc, t)] with (under sc [t])
    end.
    rewrite !halting_nodes_app, !halting_nodes_under_unit, halting_nodes_under_halting.
    rewrite !length_app. unfold under at 1. rewrite length_fmap.
    destruct nodes; [done|]. cbn. lia.
Qed.

Lemma Rsigmoid_bounds x : (0 < Rsigmoid x < 1)%R.
Proof.
  unfold Rsigmoid. pose proof (exp_pos (- x)) as He.
  assert (Hd : (1 < 1 + exp (- x))%R) by lra.
  split.
  - apply Rdiv_lt_0_compat; lra.
  - apply (Rmult_lt_reg_r (1 + exp (- x))); [lra|].
    unfold Rdiv. rewrite Rmult_assoc, Rinv_l by lra. lra.
Qed.

(** C2. The global estimator pools the activation over its two spatial axes
    down to 1x1, normalises the result, and applies a convolution of kernel
    size 1 with one output channel, a sigmoid activation and a bias
    initialised to -3; it returns the (squeezed) output of that convolution
    together with the FLOP count of that convolution. *)
Theorem get_halting_proba_is_pool_norm_conv outputs w :
  let pooled := TReduce Mean outputs (Some [1; 2]%nat) true in
  let normed := TBatchNorm pooled "global_bn" in
  let conv out :=
    TConv2d out normed 1 1 (Some SigmoidFn) None (Some (-3)%Q) None "global_conv" in
  let halting_proba := TSqueeze (conv ConvOutputs) [1; 2]%nat in
  let run := get_halting_proba outputs w in
  run.2 = Ok (halting_proba, conv ConvFlops) ∧
  graph run.1 =
    graph w ++ under ("halting_proba" :: scopes w)
                 [pooled; normed; conv ConvOutputs; conv ConvFlops; halting_proba] ∧
  (scopes run.1, losses run.1, summaries run.1, io run.1) =
    (scopes w, losses w, summaries w, io w) ∧
  (∀ b h wd c, shape_of outputs = Some [b; h; wd; c] →
     shape_of pooled = Some [b; 1; 1; c]%nat ∧
     shape_of halting_proba = Some [b; 1]%nat).
Proof.
  intros pooled normed conv halting_proba run. subst run.
  unfold get_halting_proba, flopsometer_conv2d, tf_squeeze, tf_reduce_mean,
    slim_batch_norm. run_m. rewrite <- !app_assoc.
  repeat split; try reflexivity.
  all: cbn; rewrite H; reflexivity.
Qed.

(** C3. The convolutional estimator adds a local logit, a convolution of
    kernel size 3 over the batch-normalised activation with a bias initialised
    to -3 and the residual mask as its output mask, and a global logit, a
    bias-free convolution of kernel size 1 over the batch-normalised spatial
    mean of the activation; the sum broadcasts the global logit over the
    spatial dimensions and goes through a sigmoid.  With [sact = True],
    [unit_act] calls it on the output of the unit. *)
Theorem get_halting_proba_conv_is_local_plus_global outputs residual_mask w :
  let local_feature := TBatchNorm outputs "local_bn" in
  let local_conv out :=
    TConv2d out local_feature 1 3 None None (Some (-3)%Q) residual_mask "local_conv" in
  let pooled := TReduce Mean outputs (Some [1; 2]%nat) true in
  let global_feature := TBatchNorm pooled "global_bn" in
  let global_conv out :=
    TConv2d out global_feature 1 1 None None None None "global_conv" in
  let halting_logit := TBinary Add (local_conv ConvOutputs) (global_conv ConvOutputs) in
  let halting_proba := TUnary Sigmoid halting_logit in
  let flops :=
    TBinary Add (TBinary Add (TInt 0) (local_conv ConvFlops)) (global_conv ConvFlops) in
  let run := get_halting_proba_conv outputs residual_mask w in
  (run.2 = Ok (halting_proba, flops) ∧
   graph run.1 =
     graph w ++ under ("halting_proba" :: scopes w)
       [local_feature; local_conv ConvOutputs; local_conv ConvFlops;
        TBinary Add (TInt 0) (local_conv ConvFlops);
        pooled; global_feature; global_conv ConvOutputs; global_conv ConvFlops;
        flops; halting_logit; halting_proba]) ∧
  (∀ ρ, eval ρ halting_proba =
          Rsigmoid (value_at ρ (local_conv ConvOutputs) + value_at ρ (global_conv ConvOutputs)) ∧
        (0 < eval ρ halting_proba < 1)%R) ∧
  (∀ b h wd c, shape_of outputs = Some [b; h; wd; c] →
     shape_of (local_conv ConvOutputs) = Some [b; h; wd; 1]%nat ∧
     shape_of (global_conv ConvOutputs) = Some [b; 1; 1; 1]%nat ∧
     shape_of halting_proba = Some [b; h; wd; 1]%nat) ∧
  (∀ block inputs unit_idx mask a,
     0 ≤ unit_idx < len (args block) - 1 → args block !! Z.to_nat unit_idx = Some a →
     let r := unit_fn block inputs a mask in
     ∃ w1 w2 p f,
       get_halting_proba_conv r.1 None w1 = (w2, Ok (p, f)) ∧
       (unit_act block inputs unit_idx false true mask w).2 =
         Ok (r.1, Some p, TBinary Add r.2 f)).
Proof.
  intros local_feature local_conv pooled global_feature global_conv halting_logit
    halting_proba flops run. subst run. split; [|split; [|split]].
  - unfold get_halting_proba_conv, flopsometer_conv2d, tf_add, tf_sigmoid,
      tf_reduce_mean, slim_batch_norm. run_m. rewrite <- !app_assoc.
    split; reflexivity.
  - intros ρ. split; [reflexivity|]. cbn. apply Rsigmoid_bounds.
  - intros b h wd c H. cbn. rewrite H. cbn.
    unfold broadcast, broadcast_dim. cbn. rewrite !Nat.eqb_refl. cbn.
    repeat split; try reflexivity.
    destruct (wd =? 1)%nat eqn:E1, (h =? 1)%nat eqn:E2; cbn;
      rewrite ?Nat.eqb_eq in *; subst; reflexivity.
  - intros block inputs unit_idx mask a Hi Ha r.
    destruct (unit_act_estimated block inputs unit_idx true mask a w Hi Ha)
      as (w2 & hp & cf & He & Hrun).
    cbn zeta in He, Hrun. fold r in He, Hrun. cbn [estimator] in He.
    eexists _, w2, hp, cf. split; [exact He|]. rewrite Hrun. reflexivity.
Qed.

(** ** Ponder costs, moments and metric names *)

Lemma get_tensor (d : gmap string Value) k t w :
  d !! k = Some (VTensor t) → (dict_get d k ≫= as_tensor) w = (w, Ok t).
Proof. intros H. unfold dict_get. now rewrite H. Qed.

Lemma get_strings (d : gmap string Value) k l w :
  d !! k = Some (VStrings l) → (dict_get d k ≫= as_strings) w = (w, Ok l).
Proof. intros H. unfold dict_get. now rewrite H. Qed.

Lemma get_ints (d : gmap string Value) k l w :
  d !! k = Some (VInts l) → (dict_get d k ≫= as_ints) w = (w, Ok l).
Proof. intros H. unfold dict_get. now rewrite H. Qed.

(** The loop of [add_all_ponder_costs]: each scope adds the mean of its
    ponder cost to the running total, and the loss collection is not touched. *)
Lemma ponder_cost_loop end_points (ponder : string → Tensor) block_scopes :
  (∀ s, s ∈ block_scopes →
        end_points !! (s +:+ "/ponder_cost") = Some (VTensor (ponder s))) →
  ∀ acc w, ∃ w' total,
    for_in block_scopes acc (λ total_ponder_cost scope,
      ponder_cost ← dict_get end_points (scope +:+ "/ponder_cost") ≫= as_tensor;
      m ← tf_reduce_mean ponder_cost None false;
      tf_add total_ponder_cost m) w = (w', Ok total) ∧
    losses w' = losses w ∧
    ∀ ρ, eval ρ total =
         (eval ρ acc + Rsum ((λ s, Rmean (elements ρ (ponder s))) <$> block_scopes))%R.
Proof.
  induction block_scopes as [|s l IH]; intros Hp acc w.
  - exists w, acc. cbn. repeat split. intros ρ. lra.
  - assert (Hs : end_points !! (s +:+ "/ponder_cost") = Some (VTensor (ponder s))).
    { apply Hp. left. }
    set (m := TReduce Mean (ponder s) None false).
    set (w1 := mkWorld (scopes w)
                 ((graph w ++ [(scopes w, m)]) ++ [(scopes w, TBinary Add acc m)])
                 (losses w) (summaries w) (io w)).
    destruct (IH (λ s' Hin, Hp s' (list_elem_of_further _ _ _ Hin)) (TBinary Add acc m) w1)
      as (w' & total & Hrun & Hl & Hv).
    exists w', total. split; [|split].
    + cbn [for_in]. erewrite bind_run; [exact Hrun|].
      erewrite bind_run by (apply get_tensor, Hs). reflexivity.
    + exact Hl.
    + intros ρ. rewrite Hv. subst m. cbn [eval]. rewrite fmap_cons.
      unfold Rsum. cbn [fold_right]. lra.
Qed.

(** C6. On the end points of an adaptive network, [add_all_ponder_costs] adds
    exactly one value to the loss collection: [weights] times the sum, over
    the scopes of ['block_scopes'], of the mean of the ponder cost of the
    scope. *)
Theorem add_all_ponder_costs_adds_weighted_sum_of_means
    (end_points : gmap string Value) weights w block_scopes (ponder : string → Tensor) :
  end_points !! "block_scopes" = Some (VStrings block_scopes) →
  (∀ s, s ∈ block_scopes →
        end_points !! (s +:+ "/ponder_cost") = Some (VTensor (ponder s))) →
  ∃ w' loss,
    add_all_ponder_costs end_points weights w = (w', Ok ()) ∧
    losses w' = losses w ++ [loss] ∧
    ∀ ρ, eval ρ loss =
         (eval ρ weights *
          Rsum ((λ s, Rmean (elements ρ (ponder s))) <$> block_scopes))%R.
Proof.
  intros Hb Hp. unfold add_all_ponder_costs.
  destruct (ponder_cost_loop end_points ponder block_scopes Hp (TFloat 0) w)
    as (w1 & total & Hrun & Hl & Hv).
  exists (mkWorld (scopes w1) (graph w1 ++ [(scopes w1, TBinary Mul total weights)])
            (losses w1 ++ [TBinary Mul total weights]) (summaries w1) (io w1)),
    (TBinary Mul total weights).
  split; [|split].
  - erewrite bind_run by (apply get_strings, Hb).
    erewrite bind_run by exact Hrun. reflexivity.
  - cbn. now rewrite Hl.
  - intros ρ. cbn [eval]. rewrite Hv. cbn [eval]. unfold Q2R. cbn. lra.
Qed.

(** C10. The value under ['{name}_std'] is the square root of the maximum of
    0 and the variance: whatever the variance evaluates to, a negative number
    included, the square root is taken of a number that is not negative and
    the standard deviation is not negative. *)
Theorem moments_metric_map_std_is_sqrt_of_clamped_variance
    x name (do_shift : bool) w sh :
  shape_of x = Some sh →
  let shift := if do_shift then Some (TReduce Mean x None false) else None in
  let var := TMoments MomentsVariance x (seq 0 (length sh)) shift in
  let std := TUnary Sqrt (TBinary Maximum (TFloat 0) var) in
  ∃ w' (metric_map : gmap string Tensor),
    moments_metric_map x name "_" do_shift w = (w', Ok metric_map) ∧
    metric_map !! (name +:+ "_std") = Some std ∧
    ∀ ρ, eval ρ std = sqrt (Rmax 0 (value_at ρ var)) ∧
         (0 <= Rmax 0 (value_at ρ var))%R ∧
         (0 <= eval ρ std)%R.
Proof.
  intros Hsh shift var std. subst shift var std.
  unfold moments_metric_map, get_shape_as_list. rewrite Hsh.
  destruct do_shift; run_m; eexists _, _; (split; [reflexivity|]);
    (split; [apply lookup_insert_eq|]); intros ρ; cbn [eval];
    replace (Q2R 0) with 0%R by (unfold Q2R; cbn; lra);
    (split; [reflexivity|]); (split; [apply Rmax_l|apply sqrt_pos]).
Qed.

(** C8. With a metric name other than ['ponder_cost'] and ['num_units'], both
    [sact_image_heatmap] and [sact_map] raise [AssertionError] at once: the
    outcome is the same for every end-points mapping, an empty one included,
    so no end point is read, and the world is left as it was, so no node is
    created. *)
Theorem invalid_metric_name_fails_first metric_name :
  metric_name ≠ "ponder_cost" → metric_name ≠ "num_units" →
  ∀ end_points num_images alpha border normalize_images w,
    sact_image_heatmap end_points metric_name num_images alpha border normalize_images w
      = (w, Raise AssertionError) ∧
    sact_map end_points metric_name w = (w, Raise AssertionError).
Proof.
  intros H1 H2 end_points num_images alpha border normalize_images w.
  assert (Hok : metric_name_ok metric_name = false).
  { unfold metric_name_ok. now rewrite !bool_decide_eq_false_2. }
  unfold sact_image_heatmap, sact_map. rewrite Hok. split; reflexivity.
Qed.

(** ** The export, in two phases *)

Lemma export_to_h5_phases mv cp ep images end_points num_samples batch_size sact w :
  export_to_h5 mv cp ep images end_points num_samples batch_size sact w =
  (export_prepare mv cp ep images end_points num_samples sact ≫= λ p,
     export_batches p.1 p.2 num_samples batch_size) w.
Proof.
  unfold export_to_h5, export_prepare, export_batches.
  unfold mbind, M_bind.
  repeat match goal with
         | |- context [match ?m ?w with _ => _ end] =>
             destruct (m w) as [? [?|?]]; cbn [fst snd]; try reflexivity
         end.
Qed.

Lemma quiet_same {A} (m : M A) : (∀ w, io (m w).1 = io w) → quiet m.
Proof. intros H w. exists []. rewrite H, app_nil_r. split; [done|constructor]. Qed.

Lemma quiet_ret {A} (a : A) : quiet (mret a).
Proof. now apply quiet_same. Qed.

Lemma quiet_raise {A} e : quiet (raise e : M A).
Proof. now apply quiet_same. Qed.

Lemma quiet_bind {A B} (m : M A) (f : A → M B) :
  quiet m → (∀ a, quiet (f a)) → quiet (m ≫= f).
Proof.
  intros Hm Hf w. destruct (Hm w) as (evs & Hio & Hq).
  unfold mbind, M_bind. destruct (m w) as [w1 [a|e]]; cbn in *.
  - destruct (Hf a w1) as (evs' & Hio' & Hq').
    exists (evs ++ evs'). rewrite Hio', Hio, app_assoc. split; [done|].
    now apply Forall_app.
  - now exists evs.
Qed.

Lemma quiet_for_in {A B} (l : list B) (body : A → B → M A) :
  (∀ acc x, quiet (body acc x)) → ∀ acc, quiet (for_in l acc body).
Proof.
  intros Hb. induction l as [|x l IH]; intros acc; cbn.
  - apply quiet_ret.
  - apply quiet_bind; [apply Hb|apply IH].
Qed.

Lemma quiet_emit t : quiet (emit t).
Proof. now apply quiet_same. Qed.

Lemma quiet_do_io e : is_write e = false → is_session e = false → quiet (do_io e).
Proof. intros H1 H2 w. exists [e]. split; [done|]. now repeat constructor. Qed.

Lemma quiet_dict_get {V} (d : gmap string V) k : quiet (dict_get d k).
Proof. unfold dict_get. destruct (d !! k); [apply quiet_ret|apply quiet_raise]. Qed.

Lemma quiet_as_tensor v : quiet (as_tensor v).
Proof. destruct v; first [apply quiet_ret|apply quiet_raise]. Qed.

Lemma quiet_as_strings v : quiet (as_strings v).
Proof. destruct v; first [apply quiet_ret|apply quiet_raise]. Qed.

Lemma quiet_assert c : quiet (assert c).
Proof. destruct c; [apply quiet_ret|apply quiet_raise]. Qed.

Lemma quiet_of_res {A} (r : Res A) : quiet (of_res r).
Proof. destruct r; [apply quiet_ret|apply quiet_raise]. Qed.

Create HintDb quiet.

#[local] Hint Resolve quiet_ret quiet_raise quiet_emit quiet_dict_get quiet_as_tensor
  quiet_as_strings quiet_assert quiet_of_res : quiet.

Ltac quiet_step :=
  first [ solve [auto with quiet]
        | apply quiet_do_io; reflexivity
        | apply quiet_for_in; intros ? ?
        | apply quiet_bind; [|intros ?] ].

Lemma quiet_sact_map end_points metric_name : quiet (sact_map end_points metric_name).
Proof.
  unfold sact_map, tf_to_float, tf_expand_dims, tf_resize_nearest_neighbor, tf_add_n,
    tf_shape.
  repeat quiet_step. destruct (shape_of _); repeat quiet_step.
Qed.

#[local] Hint Resolve quiet_sact_map : quiet.






(** ** Writing a batch *)












Lemma bind_inv {A B} (m : M A) (f : A → M B) w w' b :
  (m ≫= f) w = (w', Ok b) → ∃ w0 a, m w = (w0, Ok a) ∧ f a w0 = (w', Ok b).
Proof.
  unfold mbind, M_bind. destruct (m w) as [w0 [a|e]]; [eauto|discriminate].
Qed.

(** The loop that creates the datasets: one dataset per tensor, its first
    dimension set to [num_samples]. *)
Lemma dataset_loop_inv num_samples (l : list (string * Tensor)) :
  ∀ acc w w' (kd : gmap string (list Z)),
    for_in l acc (λ keys_to_datasets '(key, tensor),
      sh ← get_shape_as_list tensor;
      sh ← py_set_first (Z.of_nat <$> sh) num_samples;
      _ ← do_io (PrintShape key sh);
      dataset ← create_dataset key sh;
      mret (<[key := dataset]> keys_to_datasets)) w = (w', Ok kd) →
    (∀ key, key ∈ dom kd ↔ key ∈ dom acc ∨ key ∈ l.*1) ∧
    (∀ key sh, kd !! key = Some sh →
               acc !! key = Some sh ∨ head sh = Some num_samples).
Proof.
  induction l as [|[key tensor] l IH]; intros acc w w' kd Hrun; cbn [for_in] in Hrun.
  - injection Hrun as <- <-. split; [|auto]. intros key. cbn.
    rewrite elem_of_nil. tauto.
  - apply bind_inv in Hrun as (w0 & acc' & Hbody & Hrest).
    apply bind_inv in Hbody as (w1 & sh & _ & Hbody).
    apply bind_inv in Hbody as (w2 & sh' & Hset & Hbody).
    apply bind_inv in Hbody as (w3 & [] & _ & Hbody).
    apply bind_inv in Hbody as (w4 & ds & Hds & Hret).
    injection Hret as <- <-.
    assert (Hhead : head ds = Some num_samples).
    { unfold py_set_first in Hset. destruct (Z.of_nat <$> sh); [discriminate|].
      injection Hset as <- <-. unfold create_dataset in Hds.
      destruct (forallb _ _); [|discriminate].
      apply bind_inv in Hds as (? & ? & _ & Hret). now injection Hret as <- <-. }
    destruct (IH _ _ _ _ Hrest) as [Hdom Hsh]. split.
    + intros k. rewrite Hdom, dom_insert, elem_of_union, elem_of_singleton. cbn.
      rewrite elem_of_cons. intuition congruence.
    + intros k s Hk. destruct (Hsh k s Hk) as [Hacc|]; [|auto].
      destruct (decide (key = k)) as [->|Hne].
      * rewrite lookup_insert_eq in Hacc. injection Hacc as <-. auto.
      * rewrite lookup_insert_ne in Hacc by done. auto.
Qed.

Lemma export_prepare_datasets mv cp ep images end_points num_samples sact w w1 kt kd :
  export_prepare mv cp ep images end_points num_samples sact w = (w1, Ok (kt, kd)) →
  dom kd = dom kt ∧ ∀ key sh, kd !! key = Some sh → head sh = Some num_samples.
Proof.
  unfold export_prepare. intros H.
  repeat (apply bind_inv in H as (? & ? & ? & H)).
  injection H as <- <- <-.
  match goal with
  | Hl : for_in (map_to_list ?m) ∅ _ _ = (_, Ok ?d) |- _ =>
      destruct (dataset_loop_inv _ _ _ _ _ _ Hl) as [Hdom Hsh]
  end.
  split.
  - apply set_eq. intros key. rewrite Hdom, dom_empty.
    rewrite elem_of_dom. split.
    + intros [Hin|Hin]; [now apply elem_of_empty in Hin|].
      apply list_elem_of_fmap in Hin as ([k t] & -> & Hin).
      apply elem_of_map_to_list in Hin. eauto.
    + intros [t Ht]. right. apply list_elem_of_fmap. exists (key, t).
      split; [done|]. now apply elem_of_map_to_list.
  - intros key sh Hk. destruct (Hsh key sh Hk) as [Hacc|]; [|done].
    now rewrite lookup_empty in Hacc.
Qed.

(** ** Keys of the end points *)

Lemma has_slash_key s t : has_slash (s +:+ String "/" t) = true.
Proof.
  induction s as [|c s IH]; simpl.
  - reflexivity.
  - rewrite IH. apply orb_true_r.
Qed.

Lemma key_not_plain s t k : has_slash k = false → s +:+ String "/" t ≠ k.
Proof. intros Hk <-. now rewrite has_slash_key in Hk. Qed.

Lemma plain_not_key s t k : has_slash k = false → k ≠ s +:+ String "/" t.
Proof. intros Hk ->. now rewrite has_slash_key in Hk. Qed.

Lemma key_inj s1 s2 t1 t2 :
  has_slash s1 = false → has_slash s2 = false →
  s1 +:+ String "/" t1 = s2 +:+ String "/" t2 → s1 = s2 ∧ t1 = t2.
Proof.
  revert s2. induction s1 as [|c s1 IH]; intros [|d s2] H1 H2 Heq; simpl in *.
  - now injection Heq as ->.
  - injection Heq as <- _. now rewrite bool_decide_eq_true_2 in H2.
  - injection Heq as -> _. now rewrite bool_decide_eq_true_2 in H1.
  - injection Heq as -> Heq.
    apply orb_false_elim in H1 as [_ H1]. apply orb_false_elim in H2 as [_ H2].
    destruct (IH s2 H1 H2 Heq) as [-> ->]. done.
Qed.

(** ** What [stack_blocks] records for one block *)

Lemma add_total_other ep flops k : k ≠ "flops" → add_total ep flops !! k = ep !! k.
Proof.
  intros Hk. unfold add_total. destruct (ep !! "flops") as [[t| |]|]; try done.
  now rewrite lookup_insert_ne.
Qed.

Lemma record_flops_other ep b flops net k :
  k ∉ flops_keys b → record_flops ep b flops net !! k = ep !! k.
Proof.
  intros Hk. unfold flops_keys in Hk. rewrite !not_elem_of_cons in Hk.
  destruct Hk as (H1 & H2 & H3 & _). unfold record_flops.
  rewrite lookup_insert_ne by done. rewrite add_total_other by done.
  now rewrite lookup_insert_ne.
Qed.

Lemma record_act_other ep b r k :
  k ∉ act_keys b → record_act ep b r !! k = ep !! k.
Proof.
  intros Hk. unfold act_keys in Hk. rewrite not_elem_of_app in Hk.
  destruct Hk as [Hk Hf]. rewrite !not_elem_of_cons in Hk.
  destruct Hk as (H1 & H2 & H3 & _). destruct r as [[[[pc nu] fl] hd] net].
  unfold record_act. rewrite record_flops_other by done.
  now rewrite !lookup_insert_ne.
Qed.

Lemma record_flops_total ep b flops net total :
  scope b ≠ "flops" → ep !! "flops" = Some (VTensor total) →
  record_flops ep b flops net !! "flops" = Some (VTensor (TBinary Add total flops)).
Proof.
  intros Hs He. unfold record_flops, add_total.
  rewrite lookup_insert_ne by done.
  rewrite lookup_insert_ne by (apply key_not_plain; reflexivity).
  rewrite He. apply lookup_insert_eq.
Qed.

Lemma record_flops_flops ep b flops net :
  has_slash (scope b) = false →
  record_flops ep b flops net !! (scope b +:+ "/flops") = Some (VTensor flops).
Proof.
  intros Hs. unfold record_flops.
  rewrite lookup_insert_ne by (intros H; symmetry in H; revert H; now apply key_not_plain).
  rewrite add_total_other by (apply key_not_plain; reflexivity).
  apply lookup_insert_eq.
Qed.


(** ** The loop of [stack_blocks] *)

Lemma stack_blocks_loop act net blocks use_act act_early_stopping sact end_points :
  stack_blocks act net blocks use_act act_early_stopping sact end_points =
  for_in blocks (net, initial_end_points blocks end_points)
    (stack_body act use_act act_early_stopping sact).
Proof. reflexivity. Qed.

(** The end of the loop body: the three assignments, and the node of the
    addition to the total. *)
Lemma record_flops_run (ep : gmap string Value) b flops net total w :
  ep !! "flops" = Some (VTensor total) →
  (let end_points := <[scope b +:+ "/flops" := VTensor flops]> ep in
   total ← dict_get end_points "flops" ≫= as_tensor;
   total ← tf_add total flops;
   let end_points := <["flops" := VTensor total]> end_points in
   let end_points := <[scope b := VTensor net]> end_points in
   mret (net, end_points)) w =
  (add_node (TBinary Add total flops) w, Ok (net, record_flops ep b flops net)).
Proof.
  intros He. cbn zeta.
  assert (He' : <[scope b +:+ "/flops" := VTensor flops]> ep !! "flops"
                = Some (VTensor total)).
  { rewrite lookup_insert_ne by (apply key_not_plain; reflexivity). exact He. }
  erewrite bind_run by (apply get_tensor, He').
  erewrite bind_run by reflexivity.
  unfold record_flops, add_total. rewrite He'. reflexivity.
Qed.

Lemma act_body_run act aes sact net (ep : gmap string Value) b total w w1 r :
  select_act_func act aes sact net (partial_unit_act b sact) (len (args b)) (scope b) w
    = (w1, Ok r) →
  ep !! "flops" = Some (VTensor total) →
  stack_body act true aes sact (net, ep) b w =
    (add_node (TBinary Add total (result_flops r)) w1,
     Ok (result_net r, record_act ep b r)).
Proof.
  intros Hact He. destruct r as [[[[pc nu] fl] hd] net'].
  unfold stack_body. unfold select_act_func in Hact.
  erewrite bind_run; [|erewrite bind_run by exact Hact; reflexivity].
  cbn beta iota. rewrite record_flops_run with (total := total).
  - reflexivity.
  - rewrite !lookup_insert_ne by (apply key_not_plain; reflexivity). exact He.
Qed.

(** ** Blocks run by a controller *)

Lemma threaded_length f sact net blocks rs :
  threaded f sact net blocks rs → length rs = length blocks.
Proof. induction 1; cbn; congruence. Qed.

Lemma record_act_total ep b r total :
  scope b ≠ "flops" → ep !! "flops" = Some (VTensor total) →
  record_act ep b r !! "flops" = Some (VTensor (TBinary Add total (result_flops r))).
Proof.
  intros Hs He. destruct r as [[[[pc nu] fl] hd] net]. unfold record_act.
  apply record_flops_total; [done|].
  rewrite !lookup_insert_ne by (apply key_not_plain; reflexivity). exact He.
Qed.


Lemma record_all_other ep blocks rs k :
  (∀ b, b ∈ blocks → k ∉ act_keys b) →
  record_all ep (zip blocks rs) !! k = ep !! k.
Proof.
  revert ep rs. induction blocks as [|b blocks IH]; intros ep [|r rs] Hk; try done.
  cbn. unfold record_all in IH. rewrite IH.
  - apply record_act_other. apply Hk. left.
  - intros b' Hin. apply Hk. now right.
Qed.

Lemma record_all_total ep blocks rs total :
  (∀ b, b ∈ blocks → scope b ≠ "flops") → length rs = length blocks →
  ep !! "flops" = Some (VTensor total) →
  ∃ total', record_all ep (zip blocks rs) !! "flops" = Some (VTensor total') ∧
            ∀ ρ, eval ρ total' =
                 (eval ρ total + Rsum ((λ r, eval ρ (result_flops r)) <$> rs))%R.
Proof.
  revert ep rs total. induction blocks as [|b blocks IH];
    intros ep [|r rs] total Hs Hlen He; try discriminate.
  - exists total. split; [done|]. intros ρ. cbn. lra.
  - cbn in Hlen. injection Hlen as Hlen.
    destruct (IH (record_act ep b r) rs (TBinary Add total (result_flops r))
                (λ b' Hin, Hs b' (list_elem_of_further _ _ _ Hin)) Hlen)
      as (total' & Ht & Hv).
    { apply record_act_total; [apply Hs; left|done]. }
    exists total'. split; [exact Ht|]. intros ρ. rewrite Hv.
    rewrite fmap_cons. unfold Rsum. cbn [eval fold_right]. lra.
Qed.

(** The keys of a block with a plain scope are not keys of another block. *)
Lemma act_keys_disjoint b b' t :
  has_slash (scope b) = false → has_slash (scope b') = false →
  scope b ≠ scope b' → scope b +:+ String "/" t ∉ act_keys b'.
Proof.
  intros H1 H2 Hne. unfold act_keys, flops_keys. cbn [app].
  rewrite !not_elem_of_cons. repeat split.
  1-4: intros Heq; apply key_inj in Heq as [? _]; done.
  - apply key_not_plain. reflexivity.
  - now apply key_not_plain.
  - apply not_elem_of_nil.
Qed.

Lemma plain_scopes_cons b blocks :
  plain_scopes (b :: blocks) →
  plain_scopes blocks ∧ has_slash (scope b) = false ∧ (scope b ∉ reserved_keys) ∧
  (∀ b', b' ∈ blocks → has_slash (scope b') = false ∧ scope b ≠ scope b').
Proof.
  intros [Hnd Hall]. rewrite fmap_cons in Hnd. apply NoDup_cons in Hnd as [Hb Hnd].
  assert (Hin0 : b ∈ b :: blocks) by left.
  destruct (Hall b Hin0) as [Hs Hr].
  split; [split; [done|]|split; [done|split; [done|]]].
  - intros b' Hin. apply Hall. now right.
  - intros b' Hin. split; [apply Hall; now right|].
    intros Heq. apply Hb. rewrite Heq. now apply list_elem_of_fmap_2.
Qed.

Lemma record_act_entries ep b pc nu fl hd net :
  has_slash (scope b) = false →
  let ep' := record_act ep b (pc, nu, fl, hd, net) in
  ep' !! (scope b +:+ "/ponder_cost") = Some (VTensor pc) ∧
  ep' !! (scope b +:+ "/num_units") = Some (VTensor nu) ∧
  ep' !! (scope b +:+ "/halting_distribution") = Some (VTensor hd) ∧
  ep' !! (scope b +:+ "/flops") = Some (VTensor fl).
Proof.
  intros Hs ep'. subst ep'. unfold record_act.
  assert (Hk : ∀ t, t ≠ "flops" → scope b +:+ String "/" t ∉ flops_keys b).
  { intros t Ht. unfold flops_keys. rewrite !not_elem_of_cons. repeat split.
    - intros Heq. apply key_inj in Heq as [_ ?]; done.
    - apply key_not_plain. reflexivity.
    - now apply key_not_plain.
    - apply not_elem_of_nil. }
  assert (Hne : ∀ t1 t2, t1 ≠ t2 → scope b +:+ String "/" t1 ≠ scope b +:+ String "/" t2).
  { intros t1 t2 Ht Heq. apply key_inj in Heq as [_ ?]; done. }
  repeat split.
  - rewrite record_flops_other by (apply Hk; discriminate).
    rewrite !lookup_insert_ne by (apply Hne; discriminate). apply lookup_insert_eq.
  - rewrite record_flops_other by (apply Hk; discriminate).
    rewrite lookup_insert_ne by (apply Hne; discriminate). apply lookup_insert_eq.
  - rewrite record_flops_other by (apply Hk; discriminate). apply lookup_insert_eq.
  - now apply record_flops_flops.
Qed.

Lemma record_all_entries ep blocks rs i b pc nu fl hd net :
  plain_scopes blocks →
  blocks !! i = Some b → rs !! i = Some (pc, nu, fl, hd, net) →
  let ep' := record_all ep (zip blocks rs) in
  ep' !! (scope b +:+ "/ponder_cost") = Some (VTensor pc) ∧
  ep' !! (scope b +:+ "/num_units") = Some (VTensor nu) ∧
  ep' !! (scope b +:+ "/halting_distribution") = Some (VTensor hd) ∧
  ep' !! (scope b +:+ "/flops") = Some (VTensor fl).
Proof.
  revert ep rs i. induction blocks as [|b0 blocks IH]; intros ep rs i Hp Hb Hr; [done|].
  destruct rs as [|r0 rs]; [done|].
  apply plain_scopes_cons in Hp as (Hp & Hs0 & _ & Hothers).
  destruct i as [|i]; cbn in Hb, Hr.
  - injection Hb as ->. injection Hr as ->. cbn zeta. cbn [zip zip_with record_all foldl].
    fold (record_all (record_act ep b (pc, nu, fl, hd, net)) (zip blocks rs)).
    rewrite !record_all_other
      by (intros b' Hin; destruct (Hothers b' Hin); now apply act_keys_disjoint).
    now apply record_act_entries.
  - cbn zeta. cbn [zip zip_with record_all foldl]. now apply (IH _ rs i).
Qed.

Lemma reserved_not_act_key k b :
  k ∈ reserved_keys → scope b ∉ reserved_keys → k ≠ "flops" → k ∉ act_keys b.
Proof.
  intros Hk Hb Hf. unfold act_keys, flops_keys. cbn [app].
  assert (Hp : has_slash k = false).
  { unfold reserved_keys in Hk. rewrite !elem_of_cons in Hk.
    destruct Hk as [->|[->|[->|Hk]]]; [reflexivity..|]. now apply elem_of_nil in Hk. }
  rewrite !not_elem_of_cons. repeat split.
  1-4: intros Heq; symmetry in Heq; revert Heq; now apply key_not_plain.
  - done.
  - intros ->. done.
  - apply not_elem_of_nil.
Qed.

(** The keys of the mapping do not depend on the names of the blocks being
    apart: what follows holds for every list of blocks. *)
Lemma add_total_is_Some ep flops k : is_Some (add_total ep flops !! k) ↔ is_Some (ep !! k).
Proof.
  unfold add_total. destruct (ep !! "flops") as [[t| |]|] eqn:He; try done.
  rewrite lookup_insert_is_Some'. split; [|auto].
  intros [<-|H]; [rewrite He; eauto|done].
Qed.

Lemma record_act_is_Some ep b r k :
  is_Some (ep !! "flops") →
  is_Some (record_act ep b r !! k) ↔ is_Some (ep !! k) ∨ k ∈ act_keys b.
Proof.
  intros Hf. destruct r as [[[[pc nu] fl] hd] net]. unfold record_act, record_flops.
  rewrite lookup_insert_is_Some', add_total_is_Some, !lookup_insert_is_Some'.
  unfold act_keys, flops_keys. cbn [app]. rewrite !elem_of_cons, elem_of_nil.
  split.
  - intros [<-|[<-|[<-|[<-|[<-|H]]]]]; auto 10.
  - intros [H|[->|[->|[->|[->|[->|[->|[]]]]]]]]; auto 10.
Qed.

Lemma record_act_keeps_flops ep b r :
  (∃ total, ep !! "flops" = Some (VTensor total)) →
  ∃ total, record_act ep b r !! "flops" = Some (VTensor total).
Proof.
  intros [total He]. destruct r as [[[[pc nu] fl] hd] net]. unfold record_act, record_flops.
  destruct (decide (scope b = "flops")) as [Heq|Hne].
  - rewrite Heq, lookup_insert_eq. eauto.
  - rewrite lookup_insert_ne by done. unfold add_total.
    rewrite !lookup_insert_ne by (apply key_not_plain; reflexivity).
    rewrite He, lookup_insert_eq. eauto.
Qed.

Lemma act_loop_any act aes sact blocks :
  act_returns (select_act_func act aes sact) sact blocks →
  ∀ net (ep : gmap string Value) w,
    (∃ total, ep !! "flops" = Some (VTensor total)) →
    ∃ w' rs,
      for_in blocks (net, ep) (stack_body act true aes sact) w =
        (w', Ok (final_net net rs, record_all ep (zip blocks rs))) ∧
      threaded (select_act_func act aes sact) sact net blocks rs.
Proof.
  induction blocks as [|b blocks IH]; intros Hret net ep w He.
  - exists w, []. split; [reflexivity|constructor].
  - destruct He as [total He].
    assert (Hin0 : b ∈ b :: blocks) by left.
    destruct (Hret b net w Hin0) as (w1 & r & Hact).
    destruct (IH (λ b' net' w' Hin, Hret b' net' w' (list_elem_of_further _ _ _ Hin))
                (result_net r) (record_act ep b r)
                (add_node (TBinary Add total (result_flops r)) w1)
                (record_act_keeps_flops ep b r (ex_intro _ total He)))
      as (w' & rs & Hrun & Hth).
    exists w', (r :: rs). split.
    + cbn [for_in]. erewrite bind_run by (eapply act_body_run; eassumption).
      exact Hrun.
    + econstructor; eassumption.
Qed.

Lemma record_all_is_Some ep blocks rs k :
  length rs = length blocks →
  (∃ total, ep !! "flops" = Some (VTensor total)) →
  is_Some (record_all ep (zip blocks rs) !! k) ↔
  is_Some (ep !! k) ∨ ∃ b, b ∈ blocks ∧ k ∈ act_keys b.
Proof.
  revert ep rs. induction blocks as [|b blocks IH]; intros ep [|r rs] Hlen He;
    try discriminate.
  - cbn. split; [auto|]. intros [H|(b & Hb & _)]; [done|now apply elem_of_nil in Hb].
  - cbn [zip zip_with record_all foldl].
    fold (record_all (record_act ep b r) (zip blocks rs)).
    rewrite IH; [|cbn in Hlen; lia|now apply record_act_keeps_flops].
    rewrite record_act_is_Some by (destruct He as [t ->]; eauto).
    split.
    + intros [[H|H]|(b' & Hb' & H)]; [now left| |].
      * right. exists b. split; [left|done].
      * right. exists b'. split; [now right|done].
    + intros [H|(b' & Hb' & H)]; [now left; left|].
      apply elem_of_cons in Hb' as [->|Hb']; [left; now right|right; eauto].
Qed.

Lemma inputs_act_key b : "inputs" ∈ act_keys b ↔ scope b = "inputs".
Proof.
  unfold act_keys, flops_keys. cbn [app]. rewrite !elem_of_cons, elem_of_nil. split.
  - intros [H|[H|[H|[H|[H|[H|[]]]]]]]; try discriminate; [..|done];
      exfalso; revert H; apply plain_not_key; reflexivity.
  - intros ->. auto 10.
Qed.

(** C5, as the code has it.  With the controller enabled and whatever the
    blocks are, the mapping that [stack_blocks] returns has the keys of the
    mapping it was given, the three keys ['flops'], ['block_scopes'] and
    ['block_num_units'] and, for every block scope [S], the keys [S],
    [S/ponder_cost], [S/num_units], [S/halting_distribution] and [S/flops],
    and no other.  It sets no ['inputs'] key of its own: ['inputs'] is in the
    result exactly when the caller's mapping had it or a block is itself
    scoped ['inputs']; a key that is none of those above is as the caller gave
    it.  When no block is scoped with one of the three keys, ['block_scopes']
    and ['block_num_units'] list the scopes and the unit counts of the blocks
    in order and ['flops'] holds the ['flops'] entry of the mapping it was
    given (0 when there is none) plus the sum of the FLOPs of the blocks.
    When the scopes are moreover distinct and hold no [/], the four keys of a
    block hold what the controller returned for it.  The controller runs on
    the blocks in order, each on the output of the one before. *)
Theorem stack_blocks_act_end_points act net blocks aes sact ep0 f0 w :
  act_returns (select_act_func act aes sact) sact blocks →
  default (VTensor (TInt 0)) (default ∅ ep0 !! "flops") = VTensor f0 →
  ∃ w' rs (ep : gmap string Value),
    stack_blocks act net blocks true aes sact ep0 w = (w', Ok (final_net net rs, ep)) ∧
    threaded (select_act_func act aes sact) sact net blocks rs ∧
    (∀ k, is_Some (ep !! k) ↔
          is_Some (default ∅ ep0 !! k) ∨ k ∈ reserved_keys ∨
          ∃ b, b ∈ blocks ∧ k ∈ act_keys b) ∧
    (is_Some (ep !! "inputs") ↔
       is_Some (default ∅ ep0 !! "inputs") ∨ ∃ b, b ∈ blocks ∧ scope b = "inputs") ∧
    (∀ k, k ∉ reserved_keys → (∀ b, b ∈ blocks → k ∉ act_keys b) →
          ep !! k = default ∅ ep0 !! k) ∧
    ((∀ b, b ∈ blocks → scope b ∉ reserved_keys) →
       ep !! "block_scopes" = Some (VStrings (scope <$> blocks)) ∧
       ep !! "block_num_units" = Some (VInts ((λ b, len (args b)) <$> blocks)) ∧
       ∃ total,
         ep !! "flops" = Some (VTensor total) ∧
         ∀ ρ, eval ρ total =
              (eval ρ f0 + Rsum ((λ r, eval ρ (result_flops r)) <$> rs))%R) ∧
    (plain_scopes blocks →
       ∀ i b ponder_cost num_units flops halting_distribution out,
         blocks !! i = Some b →
         rs !! i = Some (ponder_cost, num_units, flops, halting_distribution, out) →
         ep !! (scope b +:+ "/ponder_cost") = Some (VTensor ponder_cost) ∧
         ep !! (scope b +:+ "/num_units") = Some (VTensor num_units) ∧
         ep !! (scope b +:+ "/halting_distribution") = Some (VTensor halting_distribution) ∧
         ep !! (scope b +:+ "/flops") = Some (VTensor flops)).
Proof.
  intros Hret Hf0. rewrite stack_blocks_loop.
  assert (Hinit : initial_end_points blocks ep0 !! "flops" = Some (VTensor f0)).
  { unfold initial_end_points. rewrite !lookup_insert_ne by done.
    rewrite lookup_insert_eq. now rewrite Hf0. }
  destruct (act_loop_any act aes sact blocks Hret net _ w (ex_intro _ f0 Hinit))
    as (w' & rs & Hrun & Hth).
  pose proof (threaded_length _ _ _ _ _ Hth) as Hlen.
  assert (Hkeys : ∀ k,
            is_Some (record_all (initial_end_points blocks ep0) (zip blocks rs) !! k) ↔
            is_Some (default ∅ ep0 !! k) ∨ k ∈ reserved_keys ∨
            ∃ b, b ∈ blocks ∧ k ∈ act_keys b).
  { intros k. rewrite record_all_is_Some by eauto.
    unfold initial_end_points. rewrite !lookup_insert_is_Some'.
    unfold reserved_keys. rewrite !elem_of_cons, elem_of_nil.
    split.
    - intros [[<-|[<-|[<-|H]]]|H]; auto 10.
    - intros [H|[[->|[->|[->|[]]]]|H]]; auto 10. }
  exists w', rs, (record_all (initial_end_points blocks ep0) (zip blocks rs)).
  split; [exact Hrun|]. split; [exact Hth|]. split; [exact Hkeys|].
  split; [|split; [|split]].
  - rewrite Hkeys. split.
    + intros [H|[H|(b & Hb & H)]]; [now left| |].
      * exfalso. unfold reserved_keys in H. rewrite !elem_of_cons, elem_of_nil in H.
        destruct H as [H|[H|[H|[]]]]; discriminate H.
      * right. exists b. split; [done|]. now apply inputs_act_key.
    + intros [H|(b & Hb & H)]; [now left|].
      right. right. exists b. split; [done|]. now apply inputs_act_key.
  - intros k Hk Hother. rewrite record_all_other by exact Hother.
    unfold reserved_keys in Hk. rewrite !not_elem_of_cons in Hk.
    destruct Hk as (H1 & H2 & H3 & _). unfold initial_end_points.
    now rewrite !lookup_insert_ne.
  - intros Hnames.
    assert (Hnf : ∀ b, b ∈ blocks → scope b ≠ "flops").
    { intros b Hin Heq. apply (Hnames b Hin). rewrite Heq. left. }
    assert (Hres : ∀ k, k ∈ reserved_keys → k ≠ "flops" →
              record_all (initial_end_points blocks ep0) (zip blocks rs) !! k
              = initial_end_points blocks ep0 !! k).
    { intros k Hk Hkf. apply record_all_other. intros b Hin.
      apply reserved_not_act_key; [done|now apply Hnames|done]. }
    split; [|split].
    + rewrite Hres; [|right; left|done]. unfold initial_end_points.
      rewrite lookup_insert_ne by done. apply lookup_insert_eq.
    + rewrite Hres; [|right; right; left|done]. unfold initial_end_points.
      apply lookup_insert_eq.
    + exact (record_all_total _ blocks rs f0 Hnf Hlen Hinit).
  - intros Hplain i b pc nu fl hd out Hb Hr.
    exact (record_all_entries _ blocks rs i b pc nu fl hd out Hplain Hb Hr).
Qed.

(** ** Blocks run without a controller *)

Lemma units_loop b sc ls sm i0 :
  ∀ rest pre net flops g,
    args b = pre ++ rest →
    for_in (seqZ (len pre) (len rest)) (net, flops)
      (λ '(net, flops) unit_idx,
         '(net, _, current_flops) ← unit_act b net unit_idx true false None;
         flops ← tf_add flops current_flops;
         mret (net, flops))
      (mkWorld sc g ls sm i0) =
    (mkWorld sc (g ++ unit_nodes sc b (len pre) rest net flops) ls sm i0,
     Ok (run_units b rest net flops)).
Proof.
  induction rest as [|a rest IH]; intros pre net flops g Hargs.
  - cbn. now rewrite app_nil_r.
  - assert (Hseq : seqZ (len pre) (len (a :: rest))
                   = len pre :: seqZ (len pre + 1) (len rest)).
    { unfold len. rewrite seqZ_cons by (cbn; lia). cbn [length].
      f_equal. f_equal; lia. }
    rewrite Hseq. cbn [for_in].
    assert (Ha : args b !! Z.to_nat (len pre) = Some a).
    { rewrite Hargs. unfold len. rewrite Nat2Z.id. now apply list_lookup_middle. }
    assert (H0 : 0 ≤ len pre) by (unfold len; lia).
    pose proof (unit_act_plain b net (len pre) true false None a
                  (mkWorld sc g ls sm i0) H0 Ha eq_refl) as Hunit.
    cbn zeta in Hunit. cbn [scopes graph losses summaries io] in Hunit.
    erewrite bind_run; cycle 1.
    { erewrite bind_run by exact Hunit. cbn beta iota.
      erewrite bind_run by reflexivity. reflexivity. }
    cbn [scopes graph losses summaries io fst snd].
    specialize (IH (pre ++ [a]) (unit_fn b net a None).1
                  (TBinary Add flops (unit_fn b net a None).2)
                  ((g ++ under (("unit_" +:+ string_of_Z (len pre + 1)) :: sc)
                           [(unit_fn b net a None).1; (unit_fn b net a None).2])
                     ++ [(sc, TBinary Add flops (unit_fn b net a None).2)])).
    rewrite <- app_assoc in IH. specialize (IH Hargs).
    replace (len (pre ++ [a])) with (len pre + 1) in IH
      by (unfold len; rewrite length_app; cbn; lia).
    cbn [run_units unit_nodes]. cbn zeta.
    repeat rewrite <- app_assoc in IH. repeat rewrite <- app_assoc.
    exact IH.
Qed.

Lemma static_body_run act aes sact net (ep : gmap string Value) b total sc g ls sm i0 :
  ep !! "flops" = Some (VTensor total) →
  stack_body act false aes sact (net, ep) b (mkWorld sc g ls sm i0) =
    (mkWorld sc
       (g ++ unit_nodes (scope b :: sc) b 0 (args b) net (TInt 0) ++
          [(sc, TBinary Add total (block_flops b net))]) ls sm i0,
     Ok ((run_units b (args b) net (TInt 0)).1,
         record_flops ep b (block_flops b net) (run_units b (args b) net (TInt 0)).1)).
Proof.
  intros He. unfold stack_body.
  pose proof (units_loop b (scope b :: sc) ls sm i0 (args b) [] net (TInt 0) g eq_refl)
    as Hloop.
  change (seqZ (len []) (len (args b))) with (range (len (args b))) in Hloop.
  change (len []) with 0 in Hloop.
  destruct (run_units b (args b) net (TInt 0)) as [net' flops'] eqn:Hr.
  erewrite bind_run; cycle 1.
  { unfold variable_scope, set_scopes. cbn [scopes graph losses summaries io].
    erewrite bind_run by exact Hloop. reflexivity. }
  cbn beta iota. cbn [scopes graph losses summaries io].
  rewrite record_flops_run with (total := total) by exact He.
  unfold add_node, block_flops. rewrite Hr.
  cbn [scopes graph losses summaries io fst snd]. now rewrite <- app_assoc.
Qed.

Lemma static_loop act aes sact blocks ls sm i0 sc :
  (∀ b, b ∈ blocks → scope b ≠ "flops") →
  ∀ net (ep : gmap string Value) total g,
    ep !! "flops" = Some (VTensor total) →
    for_in blocks (net, ep) (stack_body act false aes sact) (mkWorld sc g ls sm i0) =
      (mkWorld sc (g ++ static_nodes sc blocks net total) ls sm i0,
       Ok (static_net blocks net, record_static ep blocks net)).
Proof.
  induction blocks as [|b blocks IH]; intros Hs net ep total g He.
  - cbn. now rewrite app_nil_r.
  - cbn [for_in]. erewrite bind_run by (eapply static_body_run; exact He).
    rewrite IH with (total := TBinary Add total (block_flops b net)).
    + cbn [static_nodes static_net record_static]. cbn zeta. unfold block_flops.
      now repeat rewrite <- app_assoc.
    + intros b' Hin. apply Hs. now right.
    + apply record_flops_total; [apply Hs; left|done].
Qed.









(** ** The heat map over the images *)

(** One step of a computation whose first action is determined. *)
Ltac run_step :=
  erewrite bind_run
    by first [ reflexivity
             | apply get_tensor; eassumption
             | apply get_ints; eassumption
             | apply get_strings; eassumption ];
  cbn beta iota zeta delta [scopes graph losses summaries io].

Lemma heatmap_loop (end_points : gmap string Value) metric_name resolution count
    (metric : string → Tensor) block_scopes :
  (∀ s, s ∈ block_scopes →
        end_points !! (s +:+ "/" +:+ metric_name) = Some (VTensor (metric s))) →
  ∀ acc w,
    (for_in block_scopes acc (λ heatmaps scope,
      h ← dict_get end_points (scope +:+ "/" +:+ metric_name) ≫= as_tensor;
      h ← tf_to_float h;
      h ← emit (TTake h count 3);
      h ← tf_expand_dims h 3;
      h ← tf_resize_nearest_neighbor h resolution;
      r0 ← emit (TGetItem resolution 0);
      r1 ← emit (TGetItem resolution 1);
      dimensions ← tf_stack [count; r0; r1; TInt 2];
      z ← tf_zeros dimensions;
      h ← tf_concat [h; z] 3;
      mret (heatmaps ++ [h])) w).2 =
    Ok (acc ++ (block_heatmap resolution count ∘ metric <$> block_scopes)).
Proof.
  induction block_scopes as [|s l IH]; intros Hm acc w.
  - cbn. now rewrite app_nil_r.
  - assert (Hs : end_points !! (s +:+ "/" +:+ metric_name) = Some (VTensor (metric s))).
    { apply Hm. left. }
    cbn [for_in]. erewrite bind_run; cycle 1.
    { erewrite bind_run by (apply get_tensor, Hs). run_m. reflexivity. }
    rewrite IH by (intros s' Hin; apply Hm; now right).
    now rewrite fmap_cons, <- app_assoc.
Qed.

Lemma sact_image_heatmap_run (end_points : gmap string Value) metric_name num_images
    alpha border normalize_images images block_num_units block_scopes
    (metric : string → Tensor) w :
  metric_name_ok metric_name = true →
  end_points !! "inputs" = Some (VTensor images) →
  end_points !! "block_num_units" = Some (VInts block_num_units) →
  end_points !! "block_scopes" = Some (VStrings block_scopes) →
  (∀ s, s ∈ block_scopes →
        end_points !! (s +:+ "/" +:+ metric_name) = Some (VTensor (metric s))) →
  heatmap_max_value metric_name block_num_units ≠ 0 →
  ∃ w',
    sact_image_heatmap end_points metric_name num_images alpha border normalize_images w =
      (w', Ok (image_heatmap images num_images alpha border normalize_images
                 (heatmap_max_value metric_name block_num_units)
                 (metric <$> block_scopes))).
Proof.
  intros Hok Hi Hu Hb Hm Hmax. unfold sact_image_heatmap. rewrite Hok.
  destruct num_images as [n|], normalize_images;
    repeat run_step;
    cbn zeta; fold (heatmap_max_value metric_name block_num_units);
    (erewrite bind_run_snd by (eapply heatmap_loop; exact Hm)); cbn [app];
    repeat run_step;
    unfold py_truediv;
    (destruct (Z.eqb_spec (heatmap_max_value metric_name block_num_units) 0); [done|]);
    repeat run_step;
    eexists; unfold image_heatmap, shown_images, kept_images, image_count, normalized;
    rewrite <- list_fmap_compose; run_m; reflexivity.
Qed.

(** ** Shapes of the heat map *)

Arguments broadcast : simpl never.

Lemma broadcast_dim_refl a : broadcast_dim a a = Some a.
Proof. unfold broadcast_dim. now rewrite Nat.eqb_refl. Qed.

Lemma broadcast_dim_1 a : broadcast_dim a 1 = Some a.
Proof.
  unfold broadcast_dim. destruct (Nat.eqb_spec a 1) as [->|]; [done|].
  now rewrite Nat.eqb_refl.
Qed.

Lemma broadcast_refl_4 n h w c : broadcast [n; h; w; c] [n; h; w; c] = Some [n; h; w; c].
Proof. unfold broadcast. cbn. now rewrite !broadcast_dim_refl. Qed.

Lemma broadcast_per_image n h w c :
  broadcast [n; h; w; c] [n; 1; 1; 1]%nat = Some [n; h; w; c].
Proof. unfold broadcast. cbn. now rewrite !broadcast_dim_1, broadcast_dim_refl. Qed.

Lemma broadcast_scalar n h w c : broadcast [n; h; w; c] [] = Some [n; h; w; c].
Proof. reflexivity. Qed.

Lemma nat_of_Z_of_nat n : nat_of_Z (Z.of_nat n) = Some n.
Proof.
  unfold nat_of_Z. destruct (Z.leb_spec 0 (Z.of_nat n)); [|lia]. now rewrite Nat2Z.id.
Qed.

Lemma shape_kept_images images num_images batch h w c :
  shape_of images = Some [batch; h; w; c] → num_images_ok batch num_images →
  shape_of (kept_images images num_images) = Some [shown_count batch num_images; h; w; c].
Proof.
  intros Hs Hn. destruct num_images as [n|]; cbn in *; rewrite Hs; [|done]. cbn.
  unfold nat_of_Z. destruct (Z.leb_spec 0 n); [|lia]. cbn.
  f_equal. f_equal. lia.
Qed.

Lemma ints_image_count images num_images batch h w c :
  shape_of images = Some [batch; h; w; c] → num_images_ok batch num_images →
  ints_of (image_count images num_images) = Some [Z.of_nat (shown_count batch num_images)].
Proof.
  intros Hs Hn. destruct num_images as [n|]; cbn in *.
  - f_equal. f_equal. lia.
  - now rewrite Hs.
Qed.

Lemma shape_normalized x n h w c :
  shape_of x = Some [n; h; w; c] → shape_of (normalized x) = Some [n; h; w; c].
Proof.
  intros Hs. unfold normalized. cbn. rewrite Hs. cbn.
  rewrite broadcast_per_image. cbn. apply broadcast_per_image.
Qed.

Lemma shape_shown_images images num_images normalize_images batch h w c :
  shape_of images = Some [batch; h; w; c] → num_images_ok batch num_images →
  shape_of (shown_images images num_images normalize_images)
    = Some [shown_count batch num_images; h; w; c].
Proof.
  intros Hs Hn. pose proof (shape_kept_images _ _ _ _ _ _ Hs Hn) as Hk.
  unfold shown_images. destruct normalize_images; [|done]. now apply shape_normalized.
Qed.

Lemma ints_resolution x n h w c :
  shape_of x = Some [n; h; w; c] →
  ints_of (TGetSlice (TShape x) 1 3) = Some [Z.of_nat h; Z.of_nat w].
Proof. intros Hs. cbn. now rewrite Hs. Qed.

Lemma shape_block_heatmap resolution count m h w n bs hs ws :
  ints_of resolution = Some [Z.of_nat h; Z.of_nat w] →
  ints_of count = Some [Z.of_nat n] →
  shape_of m = Some [bs; hs; ws] → (n ≤ bs)%nat →
  shape_of (block_heatmap resolution count m) = Some [n; h; w; 3]%nat.
Proof.
  intros Hr Hc Hm Hle. unfold block_heatmap. cbn. rewrite Hm, Hc, Hr. cbn.
  repeat (rewrite nat_of_Z_of_nat; cbn).
  replace (n `min` bs)%nat with n by lia.
  rewrite decide_True by reflexivity. reflexivity.
Qed.

Lemma shape_add_n (l : list Tensor) s :
  l ≠ [] → (∀ t, t ∈ l → shape_of t = Some s) → shape_of (TAddN l) = Some s.
Proof.
  intros Hne Hall. cbn.
  assert (Hm : mapM shape_of l = Some (replicate (length l) s)).
  { clear Hne. induction l as [|t l IH]; [done|]. cbn.
    rewrite (Hall t) by left. cbn. rewrite IH by (intros t' Hin; apply Hall; now right).
    done. }
  rewrite Hm. cbn. clear Hm Hall.
  destruct l as [|t l]; [done|]. clear Hne. cbn [length replicate].
  induction l as [|t' l IH]; [done|]. cbn [length replicate same_shapes] in *.
  rewrite IH. cbn. now rewrite decide_True.
Qed.

Lemma shape_zero_border resolution count n h w border :
  ints_of count = Some [Z.of_nat n] →
  ints_of resolution = Some [Z.of_nat h; Z.of_nat w] →
  0 ≤ border →
  shape_of (TZeros (TStack [count; TGetItem resolution 0; TInt border; TInt 3]))
    = Some [n; h; Z.to_nat border; 3%nat].
Proof.
  intros Hc Hr Hb. cbn. rewrite Hc, Hr. cbn. rewrite !nat_of_Z_of_nat. cbn.
  unfold nat_of_Z at 1. destruct (Z.leb_spec 0 border); [|lia]. reflexivity.
Qed.

Lemma shape_overlay shown total x y n h w :
  shape_of shown = Some [n; h; w; 3%nat] →
  shape_of total = Some [n; h; w; 3%nat] →
  shape_of (TBinary Add (TBinary Mul shown (TFloat x)) (TBinary Mul total (TFloat y)))
    = Some [n; h; w; 3%nat].
Proof. intros H1 H2. cbn. rewrite H1, H2. cbn. apply broadcast_refl_4. Qed.

Lemma shape_side_by_side a z o n h w b :
  shape_of a = Some [n; h; w; 3%nat] →
  shape_of z = Some [n; h; b; 3%nat] →
  shape_of o = Some [n; h; w; 3%nat] →
  shape_of (TConcat [a; z; o] 2) = Some [n; h; (w * 2 + b)%nat; 3%nat].
Proof.
  intros Ha Hz Ho. cbn. rewrite Ha, Hz, Ho. cbn.
  rewrite decide_True by reflexivity. cbn. rewrite decide_True by reflexivity.
  replace (w + (b + w))%nat with (w * 2 + b)%nat by lia. reflexivity.
Qed.

Lemma shape_image_heatmap images num_images alpha border normalize_images max_value
    (metrics : list Tensor) batch h w :
  shape_of images = Some [batch; h; w; 3%nat] →
  num_images_ok batch num_images →
  0 ≤ border →
  metrics ≠ [] →
  (∀ m, m ∈ metrics →
        ∃ bs hs ws, shape_of m = Some [bs; hs; ws] ∧
                    (shown_count batch num_images ≤ bs)%nat) →
  let n := shown_count batch num_images in
  let shown := shown_images images num_images normalize_images in
  ∃ dims overlay,
    image_heatmap images num_images alpha border normalize_images max_value metrics
      = TConcat [shown; TZeros dims; overlay] 2 ∧
    shape_of shown = Some [n; h; w; 3%nat] ∧
    shape_of (TZeros dims) = Some [n; h; Z.to_nat border; 3%nat] ∧
    shape_of overlay = Some [n; h; w; 3%nat] ∧
    shape_of (TConcat [shown; TZeros dims; overlay] 2)
      = Some [n; h; (w * 2 + Z.to_nat border)%nat; 3%nat].
Proof.
  intros Hs Hn Hb Hne Hm n shown.
  pose proof (shape_shown_images images num_images normalize_images _ _ _ _ Hs Hn)
    as Hshown. fold n shown in Hshown.
  pose proof (ints_image_count images num_images _ _ _ _ Hs Hn) as Hcount. fold n in Hcount.
  pose proof (ints_resolution shown _ _ _ _ Hshown) as Hres.
  pose proof (shape_zero_border _ _ _ _ _ border Hcount Hres Hb) as Hz.
  assert (Hsum : shape_of (TAddN (block_heatmap (TGetSlice (TShape shown) 1 3)
                                    (image_count images num_images) <$> metrics))
                 = Some [n; h; w; 3%nat]).
  { apply shape_add_n.
    - destruct metrics; [done|discriminate].
    - intros t Ht. apply list_elem_of_fmap in Ht as (m & -> & Hin).
      destruct (Hm m Hin) as (bs & hs & ws & Hsm & Hle).
      now apply (shape_block_heatmap _ _ m h w n bs hs ws). }
  pose proof (shape_overlay shown _ (1 - alpha) (alpha / inject_Z max_value) _ _ _
                Hshown Hsum) as Hover.
  eexists _, _. split; [reflexivity|].
  split; [exact Hshown|]. split; [exact Hz|]. split; [exact Hover|].
  now apply shape_side_by_side.
Qed.

(** C7. On the end points of a spatially adaptive network whose inputs are
    images of height [h] and width [w], and for [num_images] of them (all of
    them when [num_images] is [None]), [sact_image_heatmap] returns, for the
    metric ['ponder_cost'] or ['num_units'], a tensor of shape
    (num_images, h, 2 w + border, 3): the images, normalised when asked, a
    block of zeros [border] wide, and the images under the sum of the heat
    maps of the blocks, each resized to the images by nearest neighbour, side
    by side along the width. *)
Theorem sact_image_heatmap_shape (end_points : gmap string Value) metric_name num_images
    alpha border normalize_images images block_num_units block_scopes
    (metric : string → Tensor) batch h wd w :
  metric_name = "ponder_cost" ∨ metric_name = "num_units" →
  end_points !! "inputs" = Some (VTensor images) →
  shape_of images = Some [batch; h; wd; 3%nat] →
  num_images_ok batch num_images →
  0 ≤ border →
  end_points !! "block_num_units" = Some (VInts block_num_units) →
  heatmap_max_value metric_name block_num_units ≠ 0 →
  end_points !! "block_scopes" = Some (VStrings block_scopes) →
  block_scopes ≠ [] →
  (∀ s, s ∈ block_scopes →
        end_points !! (s +:+ "/" +:+ metric_name) = Some (VTensor (metric s)) ∧
        ∃ bs hs ws, shape_of (metric s) = Some [bs; hs; ws] ∧
                    (shown_count batch num_images ≤ bs)%nat) →
  let n := shown_count batch num_images in
  let shown := shown_images images num_images normalize_images in
  let resolution := TGetSlice (TShape shown) 1 3 in
  let count := image_count images num_images in
  let heatmaps := block_heatmap resolution count ∘ metric <$> block_scopes in
  let overlay :=
    TBinary Add (TBinary Mul shown (TFloat (1 - alpha)))
      (TBinary Mul (TAddN heatmaps)
         (TFloat (alpha / inject_Z (heatmap_max_value metric_name block_num_units)))) in
  let zeros := TZeros (TStack [count; TGetItem resolution 0; TInt border; TInt 3]) in
  ∃ w',
    sact_image_heatmap end_points metric_name num_images alpha border normalize_images w
      = (w', Ok (TConcat [shown; zeros; overlay] 2)) ∧
    shape_of shown = Some [n; h; wd; 3%nat] ∧
    shape_of zeros = Some [n; h; Z.to_nat border; 3%nat] ∧
    shape_of overlay = Some [n; h; wd; 3%nat] ∧
    shape_of (TConcat [shown; zeros; overlay] 2)
      = Some [n; h; (wd * 2 + Z.to_nat border)%nat; 3%nat].
Proof.
  intros Hname Hi Hs Hn Hb Hu Hmax Hsc Hne Hm n shown resolution count heatmaps
    overlay zeros.
  assert (Hok : metric_name_ok metric_name = true).
  { unfold metric_name_ok. destruct Hname as [-> | ->]; reflexivity. }
  destruct (sact_image_heatmap_run end_points metric_name num_images alpha border
              normalize_images images block_num_units block_scopes metric w
              Hok Hi Hu Hsc (λ s Hin, proj1 (Hm s Hin)) Hmax) as (w' & Hrun).
  destruct (shape_image_heatmap images num_images alpha border normalize_images
              (heatmap_max_value metric_name block_num_units) (metric <$> block_scopes)
              batch h wd Hs Hn Hb)
    as (dims & overlay' & Heq & H1 & H2 & H3 & H4).
  { destruct block_scopes; [done|discriminate]. }
  { intros m Hin. apply list_elem_of_fmap in Hin as (s & -> & Hin).
    exact (proj2 (Hm s Hin)). }
  unfold image_heatmap in Heq. rewrite <- list_fmap_compose in Heq.
  fold shown resolution count heatmaps overlay zeros in Heq.
  injection Heq as <- <-.
  unfold image_heatmap in Hrun. rewrite <- list_fmap_compose in Hrun.
  exists w'. split; [exact Hrun|]. repeat split; assumption.
Qed.

(** ** The statements on the small network *)

Lemma sample_plain_scopes : plain_scopes sample_blocks.
Proof.
  split.
  - apply (bool_decide_unpack _). vm_compute. exact I.
  - intros b Hb. unfold sample_blocks in Hb. rewrite !elem_of_cons in Hb.
    destruct Hb as [->|[->|Hb]]; [| |now apply elem_of_nil in Hb];
      (split; [reflexivity|]); apply (bool_decide_unpack _); vm_compute; exact I.
Qed.

Lemma sample_act_returns aes sact :
  act_returns (select_act_func sample_act aes sact) sact sample_blocks.
Proof.
  intros b net w Hb. unfold sample_blocks in Hb. rewrite !elem_of_cons in Hb.
  assert (Hf : select_act_func sample_act aes sact = sample_act_func).
  { unfold select_act_func. now destruct sact, aes. }
  rewrite Hf.
  destruct Hb as [->|[->|Hb]]; [| |now apply elem_of_nil in Hb];
    destruct sact; eexists _, _; vm_compute; reflexivity.
Qed.

Lemma sample_scopes_cases (P : string → Prop) :
  P "block1" → P "block2" → ∀ s, s ∈ ["block1"; "block2"] → P s.
Proof.
  intros H1 H2 s Hs. rewrite !elem_of_cons in Hs.
  destruct Hs as [->|[->|Hs]]; [done|done|now apply elem_of_nil in Hs].
Qed.

Lemma unit_act_last_unit_has_no_halting_proba_witness :
  (unit_act sample_block1 sample_images 2 false true None empty_world).2
    = Ok (TBatchNorm sample_images "unit", None, TPlaceholder "unit_flops" [3%nat]) ∧
  ∃ halting_proba flops,
    (unit_act sample_block1 sample_images 0 false true None empty_world).2
      = Ok (TBatchNorm sample_images "unit", Some halting_proba, flops).
Proof.
  destruct (unit_act_last_unit_has_no_halting_proba sample_block1 sample_images true None
              empty_world [256; 64; 2] eq_refl) as [Hlast Hearlier].
  split.
  - exact (proj1 (Hlast false)).
  - assert (Hi : 0 ≤ 0 < len (args sample_block1) - 1) by (vm_compute; split; congruence).
    destruct (Hearlier 0 [256; 64; 1] Hi eq_refl) as (w1 & w2 & hp & cf & _ & Hr & _).
    exists hp, (TBinary Add (TPlaceholder "unit_flops" [3%nat]) cf). exact Hr.
Defined.

Lemma get_halting_proba_is_pool_norm_conv_witness :
  ∃ halting_proba flops,
    (get_halting_proba sample_outputs empty_world).2 = Ok (halting_proba, flops) ∧
    shape_of halting_proba = Some [3; 1]%nat.
Proof.
  destruct (get_halting_proba_is_pool_norm_conv sample_outputs empty_world)
    as (Hr & _ & _ & Hs).
  eexists _, _. split; [exact Hr|]. exact (proj2 (Hs 3 56 56 256 eq_refl))%nat.
Defined.

Lemma get_halting_proba_conv_is_local_plus_global_witness :
  ∃ halting_proba flops,
    (get_halting_proba_conv sample_outputs None empty_world).2 = Ok (halting_proba, flops) ∧
    shape_of halting_proba = Some [3; 56; 56; 1]%nat.
Proof.
  destruct (get_halting_proba_conv_is_local_plus_global sample_outputs None empty_world)
    as ((Hr & _) & _ & Hs & _).
  eexists _, _. split; [exact Hr|].
  exact (proj2 (proj2 (Hs 3 56 56 256 eq_refl)))%nat.
Defined.


Lemma stack_blocks_act_end_points_witness :
  ∃ w' net (ep : gmap string Value),
    stack_blocks sample_act sample_images sample_blocks true false true None empty_world
      = (w', Ok (net, ep)) ∧
    ep !! "block_scopes" = Some (VStrings ["block1"; "block2"]) ∧
    ep !! "block_num_units" = Some (VInts [3; 2]) ∧
    is_Some (ep !! "block2/halting_distribution") ∧
    ep !! "inputs" = None.
Proof.
  destruct (stack_blocks_act_end_points sample_act sample_images sample_blocks false true
              None (TInt 0) empty_world (sample_act_returns false true) eq_refl)
    as (w' & rs & ep & Hrun & _ & Hkeys & _ & Hother & Hlists & _).
  exists w', (final_net sample_images rs), ep.
  assert (Hnames : ∀ b, b ∈ sample_blocks → scope b ∉ reserved_keys).
  { intros b Hb. now apply sample_plain_scopes. }
  destruct (Hlists Hnames) as (Hs & Hn & _).
  split; [exact Hrun|]. split; [exact Hs|]. split; [exact Hn|]. split.
  - apply Hkeys. right. right. exists sample_block2. split; [right; left|].
    apply (bool_decide_unpack _). vm_compute. exact I.
  - rewrite Hother; [reflexivity| |].
    + apply (bool_decide_unpack _). vm_compute. exact I.
    + intros b Hb. unfold sample_blocks in Hb. rewrite !elem_of_cons in Hb.
      destruct Hb as [->|[->|Hb]]; [| |now apply elem_of_nil in Hb];
        apply (bool_decide_unpack _); vm_compute; exact I.
Defined.


(** C5, as the claim states it, fails: the mapping that [stack_blocks]
    returns for the two sample blocks, run by a controller, has the keys of
    the blocks and no ['inputs'] key (nor has the mapping returned for no
    block at all, where no controller runs); and when the mapping it is given
    has a ['flops'] entry of 7, the ['flops'] entry it returns is 7 more than
    the sum of the FLOPs of the blocks.  Nor does it hold for every list of
    blocks that ['block_scopes'] lists the scopes: a block that is itself
    scoped ['block_scopes'] puts its output there. *)
Lemma stack_blocks_sets_no_inputs_key :
  let run :=
    stack_blocks sample_act sample_images sample_blocks true false true None empty_world in
  let run7 :=
    stack_blocks sample_act sample_images sample_blocks true false true
      (Some {["flops" := VTensor (TInt 7)]}) empty_world in
  returns_key run "block1/ponder_cost" = Some true ∧
  returns_key run "block2/halting_distribution" = Some true ∧
  returns_key run "flops" = Some true ∧
  returns_key run "inputs" = Some false ∧
  returns_key
    (stack_blocks sample_act sample_images [] true false true None empty_world) "inputs"
    = Some false ∧
  flops_beyond_blocks run = Some 0 ∧
  flops_beyond_blocks run7 = Some 7 ∧
  returns_scope_list run = Some true ∧
  returns_scope_list
    (stack_blocks sample_act sample_images
       [mkBlock "block_scopes" sample_unit_fn [[256; 64; 1]]] true false true None
       empty_world) = Some false.
Proof. repeat split; vm_compute; reflexivity. Qed.

Lemma add_all_ponder_costs_adds_weighted_sum_of_means_witness :
  ∃ loss,
    losses (add_all_ponder_costs sample_end_points (TFloat 1) empty_world).1 = [loss] ∧
    ∀ ρ, eval ρ loss =
         (1 * (Rmean (elements ρ (sample_metric "ponder_cost" "block1")) +
               (Rmean (elements ρ (sample_metric "ponder_cost" "block2")) + 0)))%R.
Proof.
  destruct (add_all_ponder_costs_adds_weighted_sum_of_means sample_end_points (TFloat 1)
              empty_world ["block1"; "block2"] (sample_metric "ponder_cost") eq_refl)
    as (w' & loss & Hrun & Hl & Hv).
  { apply sample_scopes_cases; reflexivity. }
  exists loss. rewrite Hrun. split; [exact Hl|].
  intros ρ. rewrite Hv. cbn [eval]. unfold Q2R, Rsum. cbn. lra.
Defined.

Lemma sact_image_heatmap_shape_witness :
  ∃ w' ret,
    sact_image_heatmap sample_end_points "ponder_cost" (Some 3) (3 # 4) 5 true empty_world
      = (w', Ok ret) ∧
    shape_of ret = Some [3; 224; 453; 3]%nat.
Proof.
  assert (Hm : ∀ s, s ∈ ["block1"; "block2"] →
             sample_end_points !! (s +:+ "/" +:+ "ponder_cost")
               = Some (VTensor (sample_metric "ponder_cost" s)) ∧
             ∃ bs hs ws, shape_of (sample_metric "ponder_cost" s) = Some [bs; hs; ws] ∧
                         (shown_count 3 (Some 3%Z) ≤ bs)%nat).
  { apply sample_scopes_cases; (split; [reflexivity|]).
    - exists 3%nat, 56%nat, 56%nat. split; [reflexivity|]. vm_compute. lia.
    - exists 3%nat, 28%nat, 28%nat. split; [reflexivity|]. vm_compute. lia. }
  assert (Hn : num_images_ok 3 (Some 3)) by (cbn; lia).
  assert (Hb : 0 ≤ 5) by lia.
  assert (Hmax : heatmap_max_value "ponder_cost" [3; 2] ≠ 0) by (vm_compute; congruence).
  assert (Hne : ["block1"; "block2"] ≠ []) by discriminate.
  destruct (sact_image_heatmap_shape sample_end_points "ponder_cost" (Some 3) (3 # 4) 5 true
              sample_images [3; 2] ["block1"; "block2"] (sample_metric "ponder_cost")
              3%nat 224%nat 224%nat empty_world
              (or_introl eq_refl) eq_refl eq_refl Hn Hb eq_refl Hmax eq_refl Hne Hm)
    as (w' & Hrun & _ & _ & _ & Hshape).
  eexists w', _. split; [exact Hrun|]. exact Hshape.
Defined.

Lemma invalid_metric_name_fails_first_witness :
  sact_image_heatmap sample_end_points "num_timesteps" (Some 3) (3 # 4) 5 true empty_world
    = (empty_world, Raise AssertionError) ∧
  sact_map sample_end_points "num_timesteps" empty_world
    = (empty_world, Raise AssertionError).
Proof.
  assert (H1 : "num_timesteps" ≠ "ponder_cost") by discriminate.
  assert (H2 : "num_timesteps" ≠ "num_units") by discriminate.
  exact (invalid_metric_name_fails_first "num_timesteps" H1 H2 sample_end_points (Some 3)
           (3 # 4) 5 true empty_world).
Defined.

Lemma moments_metric_map_std_is_sqrt_of_clamped_variance_witness :
  ∃ w' (metric_map : gmap string Tensor) std,
    moments_metric_map sample_outputs "x" "_" false empty_world = (w', Ok metric_map) ∧
    metric_map !! "x_std" = Some std ∧
    ∀ ρ, (0 <= eval ρ std)%R.
Proof.
  destruct (moments_metric_map_std_is_sqrt_of_clamped_variance sample_outputs "x" false
              empty_world [3; 56; 56; 256]%nat eq_refl)
    as (w' & metric_map & Hrun & Hstd & Hv).
  eexists w', metric_map, _. split; [exact Hrun|]. split; [exact Hstd|].
  intros ρ. exact (proj2 (proj2 (Hv ρ))).
Defined.

(** ** Strings of integers *)


Lemma uint_value_acc u p :
  Z.pos (Pos.of_uint_acc u p) = uint_value (Z.pos p) u.
Proof.
  revert p. induction u; intros p; cbn [Pos.of_uint_acc uint_value];
    try reflexivity; rewrite IHu; f_equal; lia.
Qed.

Lemma uint_value_of_uint u : Z.of_N (Pos.of_uint u) = uint_value 0 u.
Proof.
  induction u; cbn [Pos.of_uint uint_value]; try reflexivity;
    try (cbn [Z.of_N]; rewrite uint_value_acc; reflexivity).
  exact IHu.
Qed.

Lemma append_cons c a b : String c a +:+ b = String c (a +:+ b).
Proof. reflexivity. Qed.

Lemma read_digits_uint u acc rest :
  no_digit_ahead rest →
  read_digits acc (NilEmpty.string_of_uint u +:+ rest)
    = (Decimal.nb_digits u, uint_value acc u, rest).
Proof.
  intros Hrest. revert acc.
  induction u; intros acc; cbn [NilEmpty.string_of_uint Decimal.nb_digits uint_value];
    try (rewrite append_cons; cbn [read_digits];
         change (digit_value "0") with (Some 0);
         change (digit_value "1") with (Some 1);
         change (digit_value "2") with (Some 2);
         change (digit_value "3") with (Some 3);
         change (digit_value "4") with (Some 4);
         change (digit_value "5") with (Some 5);
         change (digit_value "6") with (Some 6);
         change (digit_value "7") with (Some 7);
         change (digit_value "8") with (Some 8);
         change (digit_value "9") with (Some 9);
         cbn beta iota; rewrite IHu; reflexivity).
  change (read_digits acc rest = (0%nat, acc, rest)).
  destruct rest as [|c rest]; [reflexivity|].
  cbn in Hrest. cbn [read_digits]. now rewrite Hrest.
Qed.

Lemma nb_digits_pos u : u ≠ Decimal.Nil → ∃ n, Decimal.nb_digits u = S n.
Proof. destruct u; [done|cbn; eauto..]. Qed.

(** The decimal writing of an integer: its sign and its digits. *)
Lemma string_of_Z_digits z :
  ∃ u, u ≠ Decimal.Nil ∧ uint_value 0 u = Z.abs z ∧
       string_of_Z z = (if z <? 0 then "-" else "") +:+ NilEmpty.string_of_uint u.
Proof.
  unfold string_of_Z. destruct z as [|p|p]; cbn [Z.to_int NilZero.string_of_int].
  - exists (Decimal.D0 Decimal.Nil). repeat split; done.
  - exists (Pos.to_uint p). split; [apply DecimalPos.Unsigned.to_uint_nonnil|]. split.
    + rewrite <- uint_value_of_uint, DecimalPos.Unsigned.of_to. reflexivity.
    + unfold NilZero.string_of_uint.
      pose proof (DecimalPos.Unsigned.to_uint_nonnil p). now destruct (Pos.to_uint p).
  - exists (Pos.to_uint p). split; [apply DecimalPos.Unsigned.to_uint_nonnil|]. split.
    + rewrite <- uint_value_of_uint, DecimalPos.Unsigned.of_to. reflexivity.
    + unfold NilZero.string_of_uint.
      pose proof (DecimalPos.Unsigned.to_uint_nonnil p). now destruct (Pos.to_uint p).
Qed.

Lemma skip_spaces_digits u rest :
  u ≠ Decimal.Nil →
  skip_spaces (NilEmpty.string_of_uint u +:+ rest) = NilEmpty.string_of_uint u +:+ rest.
Proof. destruct u; [done|reflexivity..]. Qed.

Lemma append_empty_r s : s +:+ "" = s.
Proof. induction s as [|c s IH]; [reflexivity|]. rewrite append_cons. now rewrite IH. Qed.

(** [int] reads back what ['%d'] writes. *)
Lemma py_int_string_of_Z z : py_int (string_of_Z z) = Ok z.
Proof.
  destruct (string_of_Z_digits z) as (u & Hu & Hv & ->).
  destruct (nb_digits_pos u Hu) as [n Hn].
  pose proof (read_digits_uint u 0 "" I) as Hr. rewrite append_empty_r in Hr.
  unfold py_int. destruct (Z.ltb_spec z 0).
  - change ("-" +:+ NilEmpty.string_of_uint u) with (String "-" (NilEmpty.string_of_uint u)).
    cbn [skip_spaces]. change (is_space "-") with false. cbn beta iota.
    pose proof (skip_spaces_digits u "" Hu) as Hs. rewrite append_empty_r in Hs.
    rewrite Hs, Hr, Hn. cbn. f_equal. lia.
  - change ("" +:+ NilEmpty.string_of_uint u) with (NilEmpty.string_of_uint u).
    pose proof (skip_spaces_digits u "" Hu) as Hs. rewrite append_empty_r in Hs.
    rewrite Hs.
    assert (Hsign : match NilEmpty.string_of_uint u with
                    | String "-" s' => (true, s')
                    | String "+" s' => (false, s')
                    | _ => (false, NilEmpty.string_of_uint u)
                    end = (false, NilEmpty.string_of_uint u)).
    { destruct u; reflexivity. }
    rewrite Hsign, Hs, Hr, Hn. cbn. f_equal. lia.
Qed.


Lemma str_split_plain sep s : count_char sep s = 0%nat → str_split sep s = [s].
Proof.
  induction s as [|c s IH]; [reflexivity|]. cbn [count_char str_split].
  destruct (Ascii.eqb c sep); [discriminate|]. intros H. now rewrite IH.
Qed.

Lemma str_split_nonempty sep s : str_split sep s ≠ [].
Proof.
  destruct s as [|c s]; [discriminate|]. cbn [str_split].
  destruct (Ascii.eqb c sep); [discriminate|]. now destruct (str_split sep s).
Qed.

(** Splitting distributes over a separator. *)
Lemma str_split_app sep a b :
  str_split sep (a +:+ String sep b) = str_split sep a ++ str_split sep b.
Proof.
  induction a as [|c a IH].
  - change ("" +:+ String sep b) with (String sep b). cbn [str_split].
    now rewrite Ascii.eqb_refl.
  - rewrite append_cons. cbn [str_split]. rewrite IH.
    destruct (Ascii.eqb c sep); [reflexivity|].
    pose proof (str_split_nonempty sep a). now destruct (str_split sep a).
Qed.

Lemma str_split_length sep s : length (str_split sep s) = S (count_char sep s).
Proof.
  induction s as [|c s IH]; [reflexivity|]. cbn [str_split count_char].
  destruct (Ascii.eqb c sep); cbn [length]; [now rewrite IH|].
  pose proof (str_split_nonempty sep s).
  destruct (str_split sep s); [done|]. cbn [length] in *. lia.
Qed.

(** Joining pieces that are free of the separator, and splitting again. *)
Lemma str_split_join sep (l : list string) :
  l ≠ [] → Forall (λ p, count_char sep p = 0%nat) l →
  str_split sep (str_join (String sep "") l) = l.
Proof.
  intros Hne Hall. induction Hall as [|p l Hp Hall IH]; [done|].
  destruct l as [|q l].
  - cbn. now apply str_split_plain.
  - change (str_join (String sep "") (p :: q :: l))
      with (p +:+ String sep "" +:+ str_join (String sep "") (q :: l)).
    rewrite append_cons. change ("" +:+ ?s) with s.
    rewrite str_split_app, str_split_plain by done. now rewrite IH.
Qed.

Lemma count_char_app c a b : count_char c (a +:+ b) = (count_char c a + count_char c b)%nat.
Proof.
  induction a as [|d a IH]; [reflexivity|]. rewrite append_cons. cbn [count_char].
  rewrite IH. lia.
Qed.

Lemma string_of_Z_no_underscore z : count_char "_" (string_of_Z z) = 0%nat.
Proof.
  destruct (string_of_Z_digits z) as (u & _ & _ & ->). rewrite count_char_app.
  assert (Hu : count_char "_" (NilEmpty.string_of_uint u) = 0%nat).
  { induction u; cbn; done. }
  rewrite Hu. now destruct (z <? 0).
Qed.

Lemma py_list_map_fmap {A B} (f : A → Res B) (g : B → A) (l : list B) :
  (∀ y, f (g y) = Ok y) → py_list_map f (g <$> l) = Ok l.
Proof.
  intros Hf. induction l as [|y l IH]; [reflexivity|].
  rewrite fmap_cons. cbn [py_list_map]. now rewrite Hf, IH.
Qed.

Lemma py_list_map_length {A B} (f : A → Res B) l r :
  py_list_map f l = Ok r → length r = length l.
Proof.
  revert r. induction l as [|x l IH]; intros r; cbn [py_list_map].
  - now intros [= <-].
  - destruct (f x); [|discriminate]. destruct (py_list_map f l) as [ys|]; [|discriminate].
    intros [= <-]. cbn. now rewrite (IH ys).
Qed.

(** An element that [f] refuses makes the whole comprehension raise, with
    the only exception that [f] has. *)
Lemma py_list_map_raise {A B} (f : A → Res B) l x e :
  x ∈ l → (∀ y e', f y = Raise e' → e' = e) → f x = Raise e →
  py_list_map f l = Raise e.
Proof.
  intros Hin Hf Hx. induction Hin as [x l|x y l Hin IH]; cbn [py_list_map].
  - now rewrite Hx.
  - destruct (f y) as [b|e'] eqn:Hy; [|now rewrite (Hf y e' Hy)].
    now rewrite IH.
Qed.

Lemma py_list_map_error {A B} (f : A → Res B) l e e0 :
  (∀ y e', f y = Raise e' → e' = e) → py_list_map f l = Raise e0 → e0 = e.
Proof.
  intros Hf. induction l as [|x l IH]; cbn [py_list_map]; [discriminate|].
  destruct (f x) as [b|e'] eqn:Hx.
  - destruct (py_list_map f l); [discriminate|]. intros [= <-]. now apply IH.
  - intros [= <-]. now apply (Hf x).
Qed.

Lemma py_int_error x e : py_int x = Raise e → e = ValueError.
Proof.
  unfold py_int.
  destruct (match skip_spaces x with
            | String "-" s' => (true, s')
            | String "+" s' => (false, s')
            | _ => (false, skip_spaces x)
            end) as [negative s].
  destruct (read_digits 0 (skip_spaces s)) as [[n v] rest].
  destruct n; [now intros [= <-]|].
  destruct (skip_spaces rest); [discriminate|now intros [= <-]].
Qed.

Lemma split_and_int_empty_piece s :
  "" ∈ str_split "_" s → split_and_int s = Raise ValueError.
Proof.
  intros Hin. unfold split_and_int.
  apply (py_list_map_raise py_int _ "" ValueError Hin); [|reflexivity].
  intros y e'. apply py_int_error.
Qed.

(** X1. [split_and_int] reads back a list of integers written in base ten
    and joined by ['_']: it is the inverse of ['_'.join('%d' % i for i in l)]
    on the lists that are not empty.  The empty list is not read back: its
    join is the empty string, which [split_and_int] refuses. *)
Theorem split_and_int_reads_back_joined_integers (l : list Z) :
  l ≠ [] →
  split_and_int (str_join "_" (string_of_Z <$> l)) = Ok l ∧
  split_and_int (str_join "_" (string_of_Z <$> [])) = Raise ValueError.
Proof.
  intros Hne. split; [|reflexivity].
  unfold split_and_int. rewrite str_split_join.
  - apply py_list_map_fmap, py_int_string_of_Z.
  - now destruct l.
  - apply Forall_fmap, Forall_forall. intros z _. apply string_of_Z_no_underscore.
Qed.

(** X2. [split_and_int] returns one integer per piece of its argument, that
    is one more than the argument has underscores, and raises nothing but
    [ValueError]; it raises it whenever a piece is empty: on the empty
    string, on a string that starts or ends with an underscore and on one
    with two underscores in a row. *)
Theorem split_and_int_pieces_and_errors (s : string) :
  (∀ l, split_and_int s = Ok l → length l = S (count_char "_" s)) ∧
  (∀ e, split_and_int s = Raise e → e = ValueError) ∧
  split_and_int "" = Raise ValueError ∧
  split_and_int ("_" +:+ s) = Raise ValueError ∧
  split_and_int (s +:+ "_") = Raise ValueError ∧
  (∀ s', split_and_int (s +:+ "__" +:+ s') = Raise ValueError).
Proof.
  split; [|split; [|split; [|split; [|split]]]].
  - intros l Hl. unfold split_and_int in Hl.
    rewrite (py_list_map_length _ _ _ Hl). apply str_split_length.
  - intros e. unfold split_and_int. apply py_list_map_error. intros y e'. apply py_int_error.
  - reflexivity.
  - apply split_and_int_empty_piece. left.
  - apply split_and_int_empty_piece. rewrite str_split_app.
    apply elem_of_app. right. left.
  - intros s'. apply split_and_int_empty_piece.
    change ("__" +:+ s') with (String "_" (String "_" s')).
    rewrite str_split_app. apply elem_of_app. right. cbn [str_split].
    rewrite Ascii.eqb_refl. left.
Qed.

Lemma split_and_int_reads_back_joined_integers_witness :
  split_and_int "50_101_-3" = Ok [50; 101; -3].
Proof.
  assert (Hne : [50; 101; -3] ≠ []) by discriminate.
  exact (proj1 (split_and_int_reads_back_joined_integers [50; 101; -3] Hne)).
Defined.

(** ** Fine-tuning *)

Lemma prefix_spec a s : String.prefix a s = true ↔ ∃ q, s = a +:+ q.
Proof.
  revert s. induction a as [|c a IH]; intros s.
  - destruct s; cbn; (split; [intros _; eexists; reflexivity|done]).
  - destruct s as [|d s]; cbn [String.prefix].
    + split; [done|]. intros [q Hq]. rewrite append_cons in Hq. discriminate.
    + destruct (ascii_dec c d) as [->|Hne].
      * rewrite IH. split; intros [q Hq]; exists q.
        -- rewrite append_cons. now rewrite Hq.
        -- rewrite append_cons in Hq. now injection Hq.
      * split; [done|]. intros [q Hq]. rewrite append_cons in Hq.
        injection Hq as Hc _. congruence.
Qed.

Lemma str_contains_spec sub s :
  str_contains sub s = true ↔ ∃ p q, s = p +:+ sub +:+ q.
Proof.
  induction s as [|c s IH]; cbn [str_contains]; rewrite orb_true_iff, prefix_spec.
  - split.
    + intros [[q Hq]|?]; [|done]. now exists "", q.
    + intros (p & q & Hpq). left. destruct p; [|rewrite append_cons in Hpq; discriminate].
      now exists q.
  - rewrite IH. split.
    + intros [[q Hq]|(p & q & Hpq)]; [now exists "", q|].
      exists (String c p), q. rewrite append_cons. now rewrite Hpq.
    + intros (p & q & Hpq). destruct p as [|d p].
      * left. now exists q.
      * right. rewrite append_cons in Hpq. injection Hpq as _ Hpq. now exists p, q.
Qed.

Lemma assign_from_checkpoint_fn_ok model_path var_list var :
  In var var_list →
  assign_from_checkpoint_fn model_path var_list = Ok (mkCheckpointFn model_path var_list).
Proof. destruct var_list; [done|reflexivity]. Qed.

(** X3. Without a path ([None] or the empty string) [get_finetuning_settings]
    returns [(None, None)] and logs nothing.  With a path it logs three lines
    and then needs a variable to restore: when every model variable has
    [/halting_proba/] in its name, or there is none, it raises [ValueError],
    as [slim.assign_from_checkpoint_fn] refuses an empty list.  Otherwise
    every model variable gets exactly one of two treatments: a variable whose
    name has [/halting_proba/] inside is not restored from the checkpoint and
    gets the multiplier [lr_coeff]; any other variable is restored and gets
    no multiplier.  Nothing but model variables is restored or multiplied. *)
Theorem get_finetuning_settings_splits_the_variables
    (model_variables : list ModelVariable) (finetune_path : string) (lr_coeff : Q) :
  finetune_path ≠ "" →
  let run := get_finetuning_settings model_variables (Some finetune_path) lr_coeff in
  get_finetuning_settings model_variables None lr_coeff = ([], Ok (None, None)) ∧
  get_finetuning_settings model_variables (Some "") lr_coeff = ([], Ok (None, None)) ∧
  ((∀ var, var ∈ model_variables → is_halting_name (op_name var)) →
   run = ([WarningFinetuningFrom finetune_path;
           InfoRestoringVariables "";
           InfoTrainingWith lr_coeff (variables_to_str model_variables)],
          Raise ValueError)) ∧
  (∀ var0, var0 ∈ model_variables → ¬ is_halting_name (op_name var0) →
   ∃ init_fn (gradient_multipliers : gmap string Q),
     run.2 = Ok (Some init_fn, Some gradient_multipliers) ∧
     length run.1 = 3%nat ∧
     model_path init_fn = finetune_path ∧
     (∀ var, var ∈ model_variables →
        (is_halting_name (op_name var) →
         (var ∉ var_list init_fn) ∧ gradient_multipliers !! op_name var = Some lr_coeff) ∧
        (¬ is_halting_name (op_name var) →
         var ∈ var_list init_fn ∧ gradient_multipliers !! op_name var = None)) ∧
     (∀ var, var ∈ var_list init_fn → var ∈ model_variables) ∧
     (∀ name, is_Some (gradient_multipliers !! name) →
        ∃ var, var ∈ model_variables ∧ op_name var = name)).
Proof.
  intros Hpath run. subst run. split; [reflexivity|]. split; [reflexivity|].
  destruct finetune_path as [|c path]; [done|]. cbn [get_finetuning_settings].
  set (restore := List.filter (λ var, negb (str_contains "/halting_proba/" (op_name var)))
                    model_variables).
  set (fast := List.filter (λ var, str_contains "/halting_proba/" (op_name var))
                 model_variables).
  split.
  - intros Hall.
    assert (Hr : restore = []).
    { destruct restore as [|var l] eqn:Hr; [done|]. exfalso.
      assert (Hin : In var restore) by (rewrite Hr; left; reflexivity).
      apply filter_In in Hin as [Hin Hn]. apply list_elem_of_In, Hall in Hin.
      apply str_contains_spec in Hin. now rewrite Hin in Hn. }
    assert (Hf : fast = model_variables).
    { subst fast. clear -Hall. induction model_variables as [|var l IH]; [done|].
      cbn [List.filter].
      assert (Hv : str_contains "/halting_proba/" (op_name var) = true).
      { apply str_contains_spec, Hall. left. }
      rewrite Hv. f_equal. apply IH. intros v Hin. apply Hall. now right. }
    rewrite Hr, Hf. reflexivity.
  - intros var0 Hin0 Hn0.
    assert (Hr : In var0 restore).
    { apply filter_In. split; [now apply list_elem_of_In|].
      unfold is_halting_name in Hn0. rewrite <- str_contains_spec in Hn0.
      now apply not_true_is_false in Hn0 as ->. }
    rewrite (assign_from_checkpoint_fn_ok _ _ _ Hr). cbn [snd fst length].
    eexists _, _. split; [reflexivity|]. split; [reflexivity|]. cbn [model_path var_list].
    split; [reflexivity|].
    assert (Hmult : ∀ name,
              is_Some ((list_to_map ((λ var, (op_name var, lr_coeff)) <$> fast)
                        : gmap string Q) !! name) →
              ∃ var, var ∈ model_variables ∧ op_name var = name ∧
                     str_contains "/halting_proba/" name = true).
    { intros name [x Hx]. apply elem_of_list_to_map_2 in Hx.
      apply list_elem_of_fmap in Hx as (var & [= -> ->] & Hin).
      apply list_elem_of_In, filter_In in Hin as [Hin Hc].
      exists var. split; [now apply list_elem_of_In|]. done. }
    split; [|split].
    + intros var Hin. split.
      * intros Hh. apply str_contains_spec in Hh. split.
        -- rewrite list_elem_of_In. subst restore. rewrite filter_In.
           intros [_ Hn]. now rewrite Hh in Hn.
        -- destruct (list_to_map _ !! op_name var) as [x|] eqn:Hx.
           ++ apply elem_of_list_to_map_2 in Hx.
              apply list_elem_of_fmap in Hx as (var' & [= _ ->] & _). reflexivity.
           ++ apply not_elem_of_list_to_map_2 in Hx. exfalso. apply Hx.
              rewrite <- list_fmap_compose. apply list_elem_of_fmap.
              exists var. split; [reflexivity|].
              apply list_elem_of_In, filter_In. split; [now apply list_elem_of_In|done].
      * intros Hh. unfold is_halting_name in Hh. rewrite <- str_contains_spec in Hh.
        apply not_true_is_false in Hh. split.
        -- apply list_elem_of_In. subst restore. apply filter_In.
           split; [now apply list_elem_of_In|]. now rewrite Hh.
        -- apply eq_None_not_Some. intros Hs. apply Hmult in Hs as (var' & _ & _ & Hc).
           congruence.
    + intros var Hin. subst restore. apply list_elem_of_In, filter_In in Hin as [Hin _].
      now apply list_elem_of_In.
    + intros name Hs. apply Hmult in Hs as (var & Hin & Hn & _). eauto.
Qed.

Lemma get_finetuning_settings_splits_the_variables_witness :
  (∃ init_fn (gradient_multipliers : gmap string Q),
     (get_finetuning_settings sample_model_variables (Some "model.ckpt") 10).2
       = Ok (Some init_fn, Some gradient_multipliers) ∧
     var_list init_fn = [mkModelVariable "block1/unit_1/conv1/weights"] ∧
     gradient_multipliers !! "block1/unit_1/halting_proba/global_conv/weights" = Some 10%Q) ∧
  (get_finetuning_settings
     [mkModelVariable "block1/unit_1/halting_proba/global_conv/weights"]
     (Some "model.ckpt") 10).2 = Raise ValueError ∧
  (get_finetuning_settings [] (Some "model.ckpt") 10).2 = Raise ValueError.
Proof.
  assert (Hpath : "model.ckpt" ≠ "") by discriminate.
  split; [|split].
  - destruct (get_finetuning_settings_splits_the_variables sample_model_variables
                "model.ckpt" 10 Hpath) as (_ & _ & _ & Hok).
    destruct (Hok (mkModelVariable "block1/unit_1/conv1/weights")) as
      (init_fn & gm & Hrun & _).
    { left. }
    { intros Hh. apply str_contains_spec in Hh. discriminate. }
    exists init_fn, gm. split; [exact Hrun|].
    injection Hrun as <- <-. split; reflexivity.
  - destruct (get_finetuning_settings_splits_the_variables
                [mkModelVariable "block1/unit_1/halting_proba/global_conv/weights"]
                "model.ckpt" 10 Hpath) as (_ & _ & Hraise & _).
    rewrite Hraise; [reflexivity|]. intros var Hin.
    apply list_elem_of_singleton in Hin as ->. apply str_contains_spec. reflexivity.
  - destruct (get_finetuning_settings_splits_the_variables [] "model.ckpt" 10 Hpath)
      as (_ & _ & Hraise & _).
    rewrite Hraise; [reflexivity|]. intros var Hin. now apply elem_of_nil in Hin.
Defined.

(** ** Metrics *)

Lemma grow_grow ts1 ss1 ts2 ss2 w :
  grow ts2 ss2 (grow ts1 ss1 w) = grow (ts1 ++ ts2) (ss1 ++ ss2) w.
Proof.
  unfold grow, under. cbn [scopes graph losses summaries io].
  now rewrite fmap_app, <- !app_assoc.
Qed.

Lemma grow_nil w : grow [] [] w = w.
Proof. unfold grow, under. cbn. now rewrite !app_nil_r. Qed.

Lemma emit_grow t w : emit t w = (grow [t] [] w, Ok t).
Proof. unfold emit, grow, under. cbn. now rewrite app_nil_r. Qed.

Lemma moments_metric_map_run x name delimiter do_shift w :
  is_Some (shape_of x) →
  moments_metric_map x name delimiter do_shift w =
    (grow (moments_nodes x do_shift) [(name, x)] w,
     Ok (moments_map x name delimiter do_shift)).
Proof.
  intros [sh Hsh]. unfold moments_metric_map, get_shape_as_list, moments_map,
    moments_nodes, moments_std, moments_variance, moments_mean, all_axes, moments_shift, grow.
  rewrite Hsh. cbn [default].
  destruct do_shift; run_m; unfold under; cbn [fmap list_fmap app];
    rewrite <- ?app_assoc; reflexivity.
Qed.

(** ** Keys told apart by their ends *)

Lemma list_ascii_app a b :
  list_ascii_of_string (a +:+ b) = list_ascii_of_string a ++ list_ascii_of_string b.
Proof.
  induction a as [|c a IH]; [reflexivity|]. rewrite append_cons. cbn. now rewrite IH.
Qed.

Lemma list_ascii_length s : length (list_ascii_of_string s) = String.length s.
Proof. induction s as [|c s IH]; cbn; congruence. Qed.

Lemma list_ascii_inj s1 s2 : list_ascii_of_string s1 = list_ascii_of_string s2 → s1 = s2.
Proof.
  intros H. rewrite <- (string_of_list_ascii_of_string s1), H.
  apply string_of_list_ascii_of_string.
Qed.

Lemma str_tail_app n s t : (n ≤ String.length t)%nat → str_tail n (s +:+ t) = str_tail n t.
Proof.
  intros Hn. unfold str_tail. rewrite list_ascii_app, length_app.
  rewrite <- list_ascii_length in Hn.
  rewrite drop_app_ge by lia. f_equal. lia.
Qed.

(** Two keys that end differently are different. *)
Lemma keys_differ s1 s2 t1 t2 : tails_differ t1 t2 = true → s1 +:+ t1 ≠ s2 +:+ t2.
Proof.
  unfold tails_differ. intros Hd Heq. apply bool_decide_eq_true_1 in Hd. apply Hd.
  rewrite <- (str_tail_app _ s1 t1), <- (str_tail_app _ s2 t2) by lia. now rewrite Heq.
Qed.

(** Two keys with the same end have the same start. *)
Lemma key_start_inj s1 s2 t : s1 +:+ t = s2 +:+ t → s1 = s2.
Proof.
  intros Heq. apply list_ascii_inj.
  apply (f_equal list_ascii_of_string) in Heq. rewrite !list_ascii_app in Heq.
  now apply app_inv_tail in Heq.
Qed.

Lemma append_assoc a b c : (a +:+ b) +:+ c = a +:+ b +:+ c.
Proof. induction a as [|d a IH]; [reflexivity|]. rewrite !append_cons. now rewrite IH. Qed.

(** Settles whether two keys [s +:+ t1] and [s' +:+ t2] with known ends can
    be equal: not when the ends differ, and only for [s = s'] when they are
    the same. *)
Ltac key_clash H :=
  first [ exfalso; revert H; apply keys_differ; reflexivity
        | apply key_start_inj in H; subst ].

Ltac split_elems :=
  repeat match goal with
         | H : _ ∈ _ :: _ |- _ => apply elem_of_cons in H as [H|H]
         | H : _ ∈ [] |- _ => now apply elem_of_nil in H
         | H : (_, _) = (_, _) |- _ => injection H as ? ?; subst
         end.

(** ** The metrics of [act_metric_map] *)

Lemma act_scope_metrics_entries metric_map s pc nu :
  act_scope_metrics metric_map s pc nu =
    list_to_map (reverse (act_scope_entries s pc nu)) ∪ metric_map.
Proof.
  unfold act_scope_metrics, dict_update, moments_map, act_scope_entries.
  cbn [reverse rev_append list_to_map foldr fst snd uncurry]. unfold reverse. cbn.
  rewrite !append_assoc.
  change ("/ponder_cost" +:+ "_" +:+ "std") with "/ponder_cost_std".
  change ("/ponder_cost" +:+ "_" +:+ "mean") with "/ponder_cost_mean".
  change ("/num_units" +:+ "_" +:+ "std") with "/num_units_std".
  change ("/num_units" +:+ "_" +:+ "mean") with "/num_units_mean".
  rewrite <- !insert_union_l, !(left_id ∅ (∪)). reflexivity.
Qed.

Lemma act_scope_entries_NoDup s pc nu : NoDup (act_scope_entries s pc nu).*1.
Proof.
  unfold act_scope_entries. cbn [fmap list_fmap fst].
  repeat (apply NoDup_cons; split;
          [rewrite ?not_elem_of_cons; repeat split;
           try (apply keys_differ; reflexivity); apply not_elem_of_nil|]).
  apply NoDup_nil_2.
Qed.

(** A key is of one scope only, and holds one metric there. *)
Lemma act_scope_entries_functional s s' pc nu pc' nu' k v v' :
  (k, v) ∈ act_scope_entries s pc nu → (k, v') ∈ act_scope_entries s' pc' nu' →
  s = s' ∧ ((pc, nu) = (pc', nu') → v = v').
Proof.
  unfold act_scope_entries. intros H1 H2. split_elems;
    match goal with H : _ +:+ _ = _ +:+ _ |- _ => key_clash H end;
    (split; [reflexivity|]); intros [= <- <-]; reflexivity.
Qed.

Lemma entries_lookup (entries : list (string * Tensor)) (m : gmap string Tensor) k v :
  NoDup entries.*1 →
  (list_to_map (reverse entries) ∪ m) !! k = Some v ↔
  (k, v) ∈ entries ∨ ((k ∉ entries.*1) ∧ m !! k = Some v).
Proof.
  intros Hnd.
  assert (Hnd' : NoDup (reverse entries).*1).
  { now rewrite fmap_reverse, reverse_Permutation. }
  rewrite lookup_union_Some_raw, <- elem_of_list_to_map by done.
  rewrite elem_of_reverse. rewrite <- not_elem_of_list_to_map, fmap_reverse.
  now rewrite elem_of_reverse.
Qed.

Section entries.

Variable E : string → list (string * Tensor).

Hypothesis E_NoDup : ∀ s, NoDup (E s).*1.

Hypothesis E_functional : ∀ s s' k v v', (k, v) ∈ E s → (k, v') ∈ E s' → v = v'.

(** What a loop that collects the entries of the scopes leaves under a key. *)
Lemma collect_entries_lookup block_scopes metric_map k v :
  collect_entries E metric_map block_scopes !! k = Some v ↔
  (∃ s, s ∈ block_scopes ∧ (k, v) ∈ E s) ∨
  ((∀ s, s ∈ block_scopes → k ∉ (E s).*1) ∧ metric_map !! k = Some v).
Proof.
  revert metric_map. induction block_scopes as [|s0 l IH]; intros metric_map.
  - cbn. split; [intros H; right; split; [intros s Hs; now apply elem_of_nil in Hs|done]|].
    intros [(s & Hs & _)|[_ H]]; [now apply elem_of_nil in Hs|done].
  - unfold collect_entries in *. cbn [foldl]. rewrite IH, entries_lookup by done. split.
    + intros [(s & Hs & Hkv)|[Hl [Hkv|[Hk Hm]]]].
      * left. exists s. split; [now right|done].
      * left. exists s0. split; [left|done].
      * right. split; [|done]. intros s Hs. apply elem_of_cons in Hs as [->|Hs]; auto.
    + intros [(s & Hs & Hkv)|[Hl Hm]].
      * destruct (decide (Exists (λ s', k ∈ (E s').*1) l)) as [Hex|Hno].
        -- apply Exists_exists in Hex as (s' & Hs' & Hk).
           apply list_elem_of_fmap in Hk as ([k' v'] & -> & Hkv').
           left. exists s'. split; [done|]. cbn in Hkv.
           now rewrite (E_functional _ _ _ _ _ Hkv Hkv').
        -- right. split.
           { intros s' Hs' Hk. apply Hno, Exists_exists. eauto. }
           apply elem_of_cons in Hs as [->|Hs]; [now left|].
           exfalso. apply Hno, Exists_exists. exists s. split; [done|].
           apply list_elem_of_fmap. now exists (k, v).
      * right. split; [intros s Hs; apply Hl; now right|].
        right. split; [apply Hl; left|done].
Qed.

End entries.

Lemma act_metrics_loop (end_points : gmap string Value) (pc nu : string → Tensor)
    block_scopes :
  (∀ s, s ∈ block_scopes →
     end_points !! (s +:+ "/ponder_cost") = Some (VTensor (pc s)) ∧
     end_points !! (s +:+ "/num_units") = Some (VTensor (nu s)) ∧
     is_Some (shape_of (pc s)) ∧ is_Some (shape_of (nu s))) →
  ∀ (metric_map : gmap string Tensor) w,
    for_in block_scopes metric_map (λ metric_map block_scope,
      let name := block_scope +:+ "/ponder_cost" in
      ponder_cost ← dict_get end_points name ≫= as_tensor;
      ponder_map ← moments_metric_map ponder_cost name "_" false;
      let metric_map := dict_update metric_map ponder_map in
      let name := block_scope +:+ "/num_units" in
      num_units ← dict_get end_points name ≫= as_tensor;
      num_units ← tf_to_float num_units;
      num_units_map ← moments_metric_map num_units name "_" false;
      let metric_map := dict_update metric_map num_units_map in
      let name := block_scope +:+ "/num_units_executed" in
      executed ← tf_reduce_max num_units None false;
      mret (<[name := executed]> metric_map)) w =
    (grow (block_scopes ≫= λ s, act_scope_nodes (pc s) (nu s))
          (block_scopes ≫= λ s, act_scope_summaries s (pc s) (nu s)) w,
     Ok (collect_entries (λ s, act_scope_entries s (pc s) (nu s)) metric_map block_scopes)).
Proof.
  induction block_scopes as [|s l IH]; intros Hep metric_map w.
  - cbn. now rewrite grow_nil.
  - destruct (Hep s) as (Hpc & Hnu & Hspc & Hsnu); [left|].
    cbn [for_in]. cbn zeta.
    erewrite bind_run; cycle 1.
    { erewrite bind_run by (apply get_tensor, Hpc).
      erewrite bind_run by (now apply moments_metric_map_run).
      erewrite bind_run by (apply get_tensor, Hnu).
      unfold tf_to_float. erewrite bind_run by apply emit_grow.
      erewrite bind_run by (now apply moments_metric_map_run).
      unfold tf_reduce_max. erewrite bind_run by apply emit_grow.
      rewrite !grow_grow. reflexivity. }
    rewrite IH by (intros s' Hs'; apply Hep; now right).
    rewrite grow_grow. unfold collect_entries. cbn [foldl mbind list_bind].
    rewrite <- act_scope_metrics_entries. reflexivity.
Qed.

(** ** Shapes of the metrics *)

Lemma mem_nat_seq j n : (j < n)%nat → mem_nat j (seq 0 n) = true.
Proof.
  intros Hj. unfold mem_nat. apply existsb_exists. exists j.
  split; [apply in_seq; lia|apply Nat.eqb_refl].
Qed.

Lemma reduce_from_all i s axes :
  (∀ j, (i ≤ j < i + length s)%nat → mem_nat j axes = true) →
  reduce_from i s axes false = [].
Proof.
  revert i. induction s as [|d s IH]; intros i Hall; [reflexivity|].
  cbn [reduce_from]. rewrite Hall by (cbn; lia). cbn [app].
  apply IH. intros j Hj. apply Hall. cbn. lia.
Qed.

(** The moments over all the axes are scalars. *)
Lemma shape_moments x do_shift :
  is_Some (shape_of x) →
  shape_of (moments_mean x do_shift) = Some [] ∧
  shape_of (moments_std x do_shift) = Some [].
Proof.
  intros [sh Hsh].
  assert (Hr : reduce_shape sh (Some (all_axes x)) false = []).
  { unfold all_axes. rewrite Hsh. cbn [from_option reduce_shape]. unfold Datatypes.id.
    apply reduce_from_all. intros j Hj. apply mem_nat_seq. lia. }
  unfold moments_std, moments_variance, moments_mean.
  cbn [shape_of]. rewrite Hsh. cbn [mbind option_bind]. rewrite Hr. split; reflexivity.
Qed.

Lemma shape_reduce_all op x :
  is_Some (shape_of x) → shape_of (TReduce op x None false) = Some [].
Proof. intros [sh Hsh]. cbn [shape_of]. now rewrite Hsh. Qed.

Lemma as_metrics_lookup mean_metric (metric_map : gmap string Tensor) k :
  as_metrics mean_metric metric_map !! k = as_metric mean_metric <$> metric_map !! k.
Proof. unfold as_metrics, as_metric. destruct mean_metric; apply lookup_fmap. Qed.

Lemma act_metric_map_run (end_points : gmap string Value) mean_metric block_scopes pc nu w :
  act_end_points end_points block_scopes pc nu →
  act_metric_map end_points mean_metric w =
    (grow (block_scopes ≫= λ s, act_scope_nodes (pc s) (nu s))
          (block_scopes ≫= λ s, act_scope_summaries s (pc s) (nu s)) w,
     Ok (as_metrics mean_metric
           (collect_entries (λ s, act_scope_entries s (pc s) (nu s)) ∅ block_scopes))).
Proof.
  intros [Hb Hep]. unfold act_metric_map.
  erewrite bind_run by (apply get_strings, Hb).
  erewrite bind_run by (apply (act_metrics_loop end_points pc nu); exact Hep). reflexivity.
Qed.

Lemma act_entries_lookup block_scopes (pc nu : string → Tensor) k t :
  collect_entries (λ s, act_scope_entries s (pc s) (nu s)) ∅ block_scopes !! k = Some t ↔
  ∃ s, s ∈ block_scopes ∧ (k, t) ∈ act_scope_entries s (pc s) (nu s).
Proof.
  rewrite collect_entries_lookup.
  - split; [intros [H|[_ H]]; [done|now rewrite lookup_empty in H]|now left].
  - intros s. apply act_scope_entries_NoDup.
  - intros s s' k' v v' H1 H2.
    destruct (act_scope_entries_functional _ _ _ _ _ _ _ _ _ H1 H2) as [-> Hv]. now apply Hv.
Qed.

(** X4. On the end points of an adaptive network, [act_metric_map] returns
    five metrics per block scope [S] and nothing else: the mean and the
    standard deviation of the ponder cost under [S/ponder_cost_mean] and
    [S/ponder_cost_std], those of the number of units, as floats, under
    [S/num_units_mean] and [S/num_units_std], and the maximum of the number
    of units under [S/num_units_executed]; with [mean_metric] each is wrapped
    in a streaming mean.  All are scalars.  It adds the histograms of the
    ponder cost and of the number of units of each scope, in order, and
    leaves the losses alone. *)
Theorem act_metric_map_five_metrics_per_scope
    (end_points : gmap string Value) mean_metric block_scopes (pc nu : string → Tensor) w :
  act_end_points end_points block_scopes pc nu →
  ∃ w' (metric_map : gmap string Metric),
    act_metric_map end_points mean_metric w = (w', Ok metric_map) ∧
    (∀ k v, metric_map !! k = Some v ↔
       ∃ s t, s ∈ block_scopes ∧ (k, t) ∈ act_scope_entries s (pc s) (nu s) ∧
              v = as_metric mean_metric t) ∧
    (∀ s k t, s ∈ block_scopes → (k, t) ∈ act_scope_entries s (pc s) (nu s) →
       shape_of t = Some []) ∧
    summaries w' =
      summaries w ++ (block_scopes ≫= λ s, act_scope_summaries s (pc s) (nu s)) ∧
    losses w' = losses w.
Proof.
  intros Hep. eexists _, _.
  split; [exact (act_metric_map_run _ mean_metric block_scopes pc nu w Hep)|].
  split; [|split; [|split; reflexivity]].
  - intros k v. rewrite as_metrics_lookup. split.
    + intros Hk. apply fmap_Some in Hk as (t & Ht & ->).
      apply act_entries_lookup in Ht as (s & Hs & Ht). now exists s, t.
    + intros (s & t & Hs & Ht & ->). apply fmap_Some. exists t. split; [|done].
      apply act_entries_lookup. now exists s.
  - intros s k t Hs Ht. destruct Hep as [_ Hep].
    destruct (Hep s Hs) as (_ & _ & Hspc & Hsnu).
    assert (Hsf : is_Some (shape_of (TUnary ToFloat (nu s)))) by exact Hsnu.
    destruct (shape_moments (pc s) false Hspc) as [H1 H2].
    destruct (shape_moments _ false Hsf) as [H3 H4].
    pose proof (shape_reduce_all Max _ Hsf) as H5.
    unfold act_scope_entries in Ht. split_elems; assumption.
Qed.

(** ** The metrics of [flops_metric_map] *)

Lemma flops_scope_entries_NoDup s fl : NoDup (flops_scope_entries s fl).*1.
Proof.
  unfold flops_scope_entries. cbn [fmap list_fmap fst].
  repeat (apply NoDup_cons; split;
          [rewrite ?not_elem_of_cons; repeat split;
           try (apply keys_differ; reflexivity); apply not_elem_of_nil|]).
  apply NoDup_nil_2.
Qed.

Lemma flops_total_entries_NoDup total_name total :
  NoDup (flops_total_entries total_name total).*1.
Proof.
  unfold flops_total_entries. cbn [fmap list_fmap fst].
  repeat (apply NoDup_cons; split;
          [rewrite ?not_elem_of_cons; repeat split;
           try (apply keys_differ; reflexivity); apply not_elem_of_nil|]).
  apply NoDup_nil_2.
Qed.

Lemma flops_scope_entries_functional s s' fl fl' k v v' :
  (k, v) ∈ flops_scope_entries s fl → (k, v') ∈ flops_scope_entries s' fl' →
  s = s' ∧ (fl = fl' → v = v').
Proof.
  unfold flops_scope_entries. intros H1 H2. split_elems;
    match goal with H : _ +:+ _ = _ +:+ _ |- _ => key_clash H end;
    (split; [reflexivity|]); intros <-; reflexivity.
Qed.

(** The keys of the total are not keys of a scope, whatever their names. *)
Lemma flops_total_not_scope total_name total s fl k :
  k ∈ (flops_total_entries total_name total).*1 → k ∉ (flops_scope_entries s fl).*1.
Proof.
  unfold flops_total_entries, flops_scope_entries. cbn [fmap list_fmap fst].
  intros H1 H2. split_elems; subst;
    match goal with H : _ +:+ _ = _ +:+ _ |- _ => key_clash H end.
Qed.

Lemma flops_metrics_loop (end_points : gmap string Value) (fl : string → Tensor)
    block_scopes :
  (∀ s, s ∈ block_scopes →
     end_points !! (s +:+ "/flops") = Some (VTensor (fl s)) ∧ is_Some (shape_of (fl s))) →
  ∀ (metric_map : gmap string Tensor) w,
    for_in block_scopes metric_map (λ metric_map block_scope,
      let name := block_scope +:+ "/flops" in
      flops ← dict_get end_points name ≫= as_tensor;
      flops ← tf_to_float flops;
      flops_map ← moments_metric_map flops name "_" true;
      mret (dict_update metric_map flops_map)) w =
    (grow (block_scopes ≫= λ s, flops_scope_nodes (fl s))
          (block_scopes ≫= λ s, [(s +:+ "/flops", TUnary ToFloat (fl s))]) w,
     Ok (collect_entries (λ s, flops_scope_entries s (fl s)) metric_map block_scopes)).
Proof.
  induction block_scopes as [|s l IH]; intros Hep metric_map w.
  - cbn. now rewrite grow_nil.
  - destruct (Hep s) as (Hfl & Hsfl); [left|].
    cbn [for_in]. cbn zeta.
    erewrite bind_run; cycle 1.
    { erewrite bind_run by (apply get_tensor, Hfl).
      unfold tf_to_float. erewrite bind_run by apply emit_grow.
      erewrite bind_run by (now apply moments_metric_map_run).
      rewrite !grow_grow. reflexivity. }
    rewrite IH by (intros s' Hs'; apply Hep; now right).
    rewrite grow_grow. unfold collect_entries. cbn [foldl mbind list_bind].
    f_equal. f_equal. f_equal.
    unfold dict_update, moments_map, flops_scope_entries.
    unfold reverse. cbn [rev_append list_to_map foldr fst snd uncurry]. cbn.
    rewrite !append_assoc. reflexivity.
Qed.

Lemma flops_metric_map_run (end_points : gmap string Value) mean_metric total_name
    block_scopes total fl w :
  flops_end_points end_points block_scopes total fl →
  flops_metric_map end_points mean_metric total_name w =
    (grow (flops_scope_nodes total ++ (block_scopes ≫= λ s, flops_scope_nodes (fl s)))
          ((total_name, TUnary ToFloat total) ::
           (block_scopes ≫= λ s, [(s +:+ "/flops", TUnary ToFloat (fl s))])) w,
     Ok (as_metrics mean_metric
           (collect_entries (λ s, flops_scope_entries s (fl s))
              (list_to_map (reverse (flops_total_entries total_name total)))
              block_scopes))).
Proof.
  intros (Ht & Hst & Hb & Hep). unfold flops_metric_map.
  erewrite bind_run by (apply get_tensor, Ht).
  unfold tf_to_float. erewrite bind_run by apply emit_grow.
  erewrite bind_run by (now apply moments_metric_map_run).
  erewrite bind_run by (apply get_strings, Hb).
  erewrite bind_run by (apply (flops_metrics_loop end_points fl); exact Hep).
  rewrite !grow_grow. cbn [mret M_ret]. f_equal. f_equal. f_equal. f_equal.
  unfold dict_update, moments_map, flops_total_entries.
  unfold reverse. cbn [rev_append list_to_map foldr fst snd uncurry]. cbn.
  rewrite (right_id ∅ (∪)). reflexivity.
Qed.

Lemma flops_entries_lookup total_name total block_scopes (fl : string → Tensor) k t :
  collect_entries (λ s, flops_scope_entries s (fl s))
    (list_to_map (reverse (flops_total_entries total_name total))) block_scopes !! k = Some t ↔
  (k, t) ∈ flops_total_entries total_name total ∨
  ∃ s, s ∈ block_scopes ∧ (k, t) ∈ flops_scope_entries s (fl s).
Proof.
  pose proof (flops_total_entries_NoDup total_name total) as Hnd.
  assert (Hnd' : NoDup (reverse (flops_total_entries total_name total)).*1).
  { now rewrite fmap_reverse, reverse_Permutation. }
  rewrite collect_entries_lookup.
  - rewrite <- elem_of_list_to_map, elem_of_reverse by done. split.
    + intros [H|[_ H]]; [now right|now left].
    + intros [H|H]; [|now left]. right. split; [|done].
      intros s _. apply (flops_total_not_scope total_name total).
      apply list_elem_of_fmap. now exists (k, t).
  - intros s. apply flops_scope_entries_NoDup.
  - intros s s' k' v v' H1 H2.
    destruct (flops_scope_entries_functional _ _ _ _ _ _ _ H1 H2) as [-> Hv]. now apply Hv.
Qed.

(** X5. On end points that hold the FLOPs, [flops_metric_map] returns the
    mean and the standard deviation of the total under [total_name/mean] and
    [total_name/std], those of the FLOPs of each block scope [S] under
    [S/flops_mean] and [S/flops_std], and nothing else: whatever
    [total_name] and the scopes are, no metric of a block replaces one of the
    total.  The FLOPs are taken as floats, their moments are shifted by
    their mean, and all the metrics are scalars; with [mean_metric] each is
    wrapped in a streaming mean.  One histogram is added for the total and
    one per scope. *)
Theorem flops_metric_map_total_and_scopes
    (end_points : gmap string Value) mean_metric total_name block_scopes total
    (fl : string → Tensor) w :
  flops_end_points end_points block_scopes total fl →
  ∃ w' (metric_map : gmap string Metric),
    flops_metric_map end_points mean_metric total_name w = (w', Ok metric_map) ∧
    (∀ k v, metric_map !! k = Some v ↔
       ∃ t, v = as_metric mean_metric t ∧
            ((k, t) ∈ flops_total_entries total_name total ∨
             ∃ s, s ∈ block_scopes ∧ (k, t) ∈ flops_scope_entries s (fl s))) ∧
    (∀ k t, (k, t) ∈ flops_total_entries total_name total ∨
            (∃ s, s ∈ block_scopes ∧ (k, t) ∈ flops_scope_entries s (fl s)) →
       shape_of t = Some []) ∧
    summaries w' =
      summaries w ++ (total_name, TUnary ToFloat total) ::
        (block_scopes ≫= λ s, [(s +:+ "/flops", TUnary ToFloat (fl s))]) ∧
    losses w' = losses w.
Proof.
  intros Hep. eexists _, _.
  split; [exact (flops_metric_map_run _ mean_metric total_name block_scopes total fl w Hep)|].
  split; [|split; [|split; reflexivity]].
  - intros k v. rewrite as_metrics_lookup. split.
    + intros Hk. apply fmap_Some in Hk as (t & Ht & ->).
      apply flops_entries_lookup in Ht. now exists t.
    + intros (t & -> & Ht). apply fmap_Some. exists t. split; [|done].
      now apply flops_entries_lookup.
  - destruct Hep as (_ & Hst & _ & Hep). intros k t [Ht|(s & Hs & Ht)].
    + assert (Hsf : is_Some (shape_of (TUnary ToFloat total))) by exact Hst.
      destruct (shape_moments _ true Hsf) as [H1 H2].
      unfold flops_total_entries in Ht. split_elems; assumption.
    + destruct (Hep s Hs) as [_ Hsfl].
      assert (Hsf : is_Some (shape_of (TUnary ToFloat (fl s)))) by exact Hsfl.
      destruct (shape_moments _ true Hsf) as [H1 H2].
      unfold flops_scope_entries in Ht. split_elems; assumption.
Qed.

(** X6. The two metric maps can be merged: on end points that hold what
    both functions read, no key of the map of [act_metric_map] is a key of
    the map of [flops_metric_map], whatever the block scopes and
    [total_name] are, so that [metrics.update(flops_metric_map(...))] adds
    to the metrics and replaces none. *)
Theorem act_and_flops_metric_maps_share_no_key
    (end_points : gmap string Value) mean_metric mean_metric' total_name block_scopes
    (pc nu : string → Tensor) total (fl : string → Tensor) w w0 :
  act_end_points end_points block_scopes pc nu →
  flops_end_points end_points block_scopes total fl →
  ∃ w' w0' (act_map flops_map : gmap string Metric),
    act_metric_map end_points mean_metric w = (w', Ok act_map) ∧
    flops_metric_map end_points mean_metric' total_name w0 = (w0', Ok flops_map) ∧
    act_map ##ₘ flops_map ∧
    ∀ k, dict_update act_map flops_map !! k =
         match act_map !! k with Some v => Some v | None => flops_map !! k end.
Proof.
  intros Ha Hf. eexists _, _, _, _.
  split; [exact (act_metric_map_run _ mean_metric block_scopes pc nu w Ha)|].
  split; [exact (flops_metric_map_run _ mean_metric' total_name block_scopes total fl w0 Hf)|].
  assert (Hdisj : as_metrics mean_metric
                    (collect_entries (λ s, act_scope_entries s (pc s) (nu s)) ∅ block_scopes)
                  ##ₘ
                  as_metrics mean_metric'
                    (collect_entries (λ s, flops_scope_entries s (fl s))
                       (list_to_map (reverse (flops_total_entries total_name total)))
                       block_scopes)).
  { apply map_disjoint_spec. intros k v v'. rewrite !as_metrics_lookup.
    intros H1 H2. apply fmap_Some in H1 as (t & H1 & _). apply fmap_Some in H2 as (t' & H2 & _).
    apply act_entries_lookup in H1 as (s & _ & H1).
    apply flops_entries_lookup in H2 as [H2|(s' & _ & H2)];
      unfold act_scope_entries, flops_total_entries, flops_scope_entries in *;
      split_elems;
      match goal with H : _ +:+ _ = _ +:+ _ |- _ => key_clash H end. }
  split; [exact Hdisj|].
  intros k. unfold dict_update. rewrite lookup_union.
  match goal with |- _ ∪ ?o = _ => destruct o as [v|] eqn:H1 end.
  - rewrite (map_disjoint_Some_l _ _ _ _ Hdisj H1). reflexivity.
  - match goal with |- ?o ∪ None = _ => now destruct o end.
Qed.

(** ** The statements on the metrics, on the small network *)

Lemma sample_act_end_points :
  act_end_points sample_end_points ["block1"; "block2"]
    (sample_metric "ponder_cost") (sample_metric "num_units").
Proof.
  split; [reflexivity|].
  apply sample_scopes_cases; (split; [reflexivity|]); (split; [reflexivity|]);
    split; eexists; reflexivity.
Qed.

Lemma sample_flops_end_points :
  flops_end_points sample_end_points ["block1"; "block2"]
    (TPlaceholder "flops" [3%nat]) (sample_metric "flops").
Proof.
  split; [reflexivity|]. split; [eexists; reflexivity|]. split; [reflexivity|].
  apply sample_scopes_cases; (split; [reflexivity|]); eexists; reflexivity.
Qed.

Lemma act_metric_map_five_metrics_per_scope_witness :
  ∃ w' (metric_map : gmap string Metric),
    act_metric_map sample_end_points true empty_world = (w', Ok metric_map) ∧
    metric_map !! "block2/num_units_executed"
      = Some (StreamingMean
                (TReduce Max (TUnary ToFloat (TPlaceholder "block2/num_units" [3; 28; 28]%nat))
                   None false)) ∧
    summaries w' =
      [("block1/ponder_cost", TPlaceholder "block1/ponder_cost" [3; 56; 56]%nat);
       ("block1/num_units", TUnary ToFloat (TPlaceholder "block1/num_units" [3; 56; 56]%nat));
       ("block2/ponder_cost", TPlaceholder "block2/ponder_cost" [3; 28; 28]%nat);
       ("block2/num_units", TUnary ToFloat (TPlaceholder "block2/num_units" [3; 28; 28]%nat))].
Proof.
  destruct (act_metric_map_five_metrics_per_scope sample_end_points true
              ["block1"; "block2"] (sample_metric "ponder_cost") (sample_metric "num_units")
              empty_world sample_act_end_points)
    as (w' & metric_map & Hrun & Hm & _ & Hs & _).
  exists w', metric_map. split; [exact Hrun|]. split; [|exact Hs].
  apply Hm. eexists "block2", _. split; [right; left|]. split; [|reflexivity].
  unfold act_scope_entries. do 4 right. left.
Defined.

Lemma flops_metric_map_total_and_scopes_witness :
  ∃ w' (metric_map : gmap string Metric),
    flops_metric_map sample_end_points false "Total Flops" empty_world = (w', Ok metric_map) ∧
    metric_map !! "Total Flops/mean"
      = Some (MetricTensor (moments_mean (TUnary ToFloat (TPlaceholder "flops" [3%nat])) true)) ∧
    metric_map !! "block1/flops_std"
      = Some (MetricTensor
                (moments_std (TUnary ToFloat (TPlaceholder "block1/flops" [3%nat])) true)).
Proof.
  destruct (flops_metric_map_total_and_scopes sample_end_points false "Total Flops"
              ["block1"; "block2"] (TPlaceholder "flops" [3%nat]) (sample_metric "flops")
              empty_world sample_flops_end_points)
    as (w' & metric_map & Hrun & Hm & _).
  exists w', metric_map. split; [exact Hrun|]. split; apply Hm; eexists; (split; [reflexivity|]).
  - left. left.
  - right. exists "block1". split; [left|]. right. left.
Defined.

Lemma act_and_flops_metric_maps_share_no_key_witness :
  ∃ w' w0' (act_map flops_map : gmap string Metric),
    act_metric_map sample_end_points false empty_world = (w', Ok act_map) ∧
    flops_metric_map sample_end_points false "Total Flops" empty_world = (w0', Ok flops_map) ∧
    act_map ##ₘ flops_map.
Proof.
  destruct (act_and_flops_metric_maps_share_no_key sample_end_points false false
              "Total Flops" ["block1"; "block2"] (sample_metric "ponder_cost")
              (sample_metric "num_units") (TPlaceholder "flops" [3%nat])
              (sample_metric "flops") empty_world empty_world
              sample_act_end_points sample_flops_end_points)
    as (w' & w0' & act_map & flops_map & H1 & H2 & Hd & _).
  exists w', w0', act_map, flops_map. auto.
Defined.

(** ** The end points of a network without a controller *)

Lemma plain_scope_not_flops blocks b : plain_scopes blocks → b ∈ blocks → scope b ≠ "flops".
Proof.
  intros [_ Hall] Hin Heq. destruct (Hall b Hin) as [_ Hr]. apply Hr. rewrite Heq. left.
Qed.

Lemma initial_end_points_flops blocks ep0 f0 :
  default (VTensor (TInt 0)) (default ∅ ep0 !! "flops") = VTensor f0 →
  initial_end_points blocks ep0 !! "flops" = Some (VTensor f0).
Proof.
  intros Hf0. unfold initial_end_points. rewrite !lookup_insert_ne by done.
  rewrite lookup_insert_eq. now rewrite Hf0.
Qed.


Lemma stack_blocks_static_run act net blocks aes sact ep0 f0 w :
  plain_scopes blocks →
  default (VTensor (TInt 0)) (default ∅ ep0 !! "flops") = VTensor f0 →
  stack_blocks act net blocks false aes sact ep0 w =
    (static_world blocks net f0 w,
     Ok (static_net blocks net, static_end_points blocks net ep0)).
Proof.
  intros Hplain Hf0. rewrite stack_blocks_loop.
  exact (static_loop act aes sact blocks (losses w) (summaries w) (io w) (scopes w)
           (λ b, plain_scope_not_flops blocks b Hplain) net _ f0 (graph w)
           (initial_end_points_flops blocks ep0 f0 Hf0)).
Qed.






(** ** The end points and the heat maps *)









(** ** The outputs of the blocks *)




(** ** Stacking in several calls *)

Lemma stack_body_run_block act use_act aes sact net (ep : gmap string Value) b w :
  stack_body act use_act aes sact (net, ep) b w =
    (run_block act use_act aes sact net b ≫= λ '(flops, net', entries),
       record_block b flops net' (set_entries entries ep)) w.
Proof.
  unfold stack_body, run_block, select_act_func, record_block. destruct use_act.
  - unfold mbind, M_bind.
    destruct ((if sact then spatially_adaptive_computation_time act
               else if aes then adaptive_computation_early_stopping act
               else adaptive_computation_time_wrapper act)
                net (partial_unit_act b sact) (len (args b)) (scope b) w)
      as [w1 [[[[[pc nu] fl] hd] net']|e]]; reflexivity.
  - unfold variable_scope, mbind, M_bind.
    destruct (for_in (range (len (args b))) (net, TInt 0) _ _)
      as [w1 [[net' flops]|e]]; reflexivity.
Qed.

Lemma same_but_block_lists_insert ep ep' k v :
  same_but_block_lists ep ep' → same_but_block_lists (<[k := v]> ep) (<[k := v]> ep').
Proof.
  intros H k' H1 H2. destruct (decide (k = k')) as [->|Hne].
  - now rewrite !lookup_insert_eq.
  - rewrite !lookup_insert_ne by done. now apply H.
Qed.

Lemma same_but_block_lists_set_entries entries ep ep' :
  same_but_block_lists ep ep' →
  same_but_block_lists (set_entries entries ep) (set_entries entries ep').
Proof.
  revert ep ep'. induction entries as [|[k v] l IH]; intros ep ep' H; [exact H|].
  cbn. apply IH. now apply same_but_block_lists_insert.
Qed.

Lemma record_block_same b flops net ep ep' w :
  same_but_block_lists ep ep' →
  same_outcome (record_block b flops net ep w) (record_block b flops net ep' w).
Proof.
  intros H. unfold record_block, dict_get. cbn zeta.
  pose proof (same_but_block_lists_insert _ _ (scope b +:+ "/flops") (VTensor flops) H)
    as H'.
  rewrite <- (H' "flops") by discriminate.
  destruct (<[scope b +:+ "/flops" := VTensor flops]> ep !! "flops") as [[t| |]|];
    try (split; reflexivity).
  run_m. split; [reflexivity|]. cbn. split; [reflexivity|].
  now repeat apply same_but_block_lists_insert.
Qed.

Lemma stack_body_same act use_act aes sact net ep ep' b w :
  same_but_block_lists ep ep' →
  same_outcome (stack_body act use_act aes sact (net, ep) b w)
               (stack_body act use_act aes sact (net, ep') b w).
Proof.
  intros H. rewrite !stack_body_run_block. unfold mbind, M_bind.
  destruct (run_block act use_act aes sact net b w) as [w1 [[[flops net'] entries]|e]].
  - apply record_block_same. now apply same_but_block_lists_set_entries.
  - split; reflexivity.
Qed.

Lemma stack_loop_same act use_act aes sact blocks :
  ∀ net ep ep' w,
    same_but_block_lists ep ep' →
    same_outcome (for_in blocks (net, ep) (stack_body act use_act aes sact) w)
                 (for_in blocks (net, ep') (stack_body act use_act aes sact) w).
Proof.
  induction blocks as [|b blocks IH]; intros net ep ep' w H.
  - split; [reflexivity|]. cbn. auto.
  - cbn [for_in]. unfold mbind, M_bind.
    destruct (stack_body_same act use_act aes sact net ep ep' b w H) as [Hw Hr].
    destruct (stack_body act use_act aes sact (net, ep) b w) as [w1 [[n1 e1]|x1]],
             (stack_body act use_act aes sact (net, ep') b w) as [w2 [[n2 e2]|x2]];
      cbn in Hw, Hr; try done.
    destruct Hr as [-> Hr]. subst w2. now apply IH.
Qed.

Lemma for_in_app {A S} (l1 l2 : list A) (acc : S) (body : S → A → M S) w :
  for_in (l1 ++ l2) acc body w = (for_in l1 acc body ≫= λ acc', for_in l2 acc' body) w.
Proof.
  revert acc w. induction l1 as [|x l1 IH]; intros acc w; [reflexivity|].
  cbn [app for_in]. unfold mbind, M_bind.
  destruct (body acc x w) as [w1 [acc1|e]]; [|reflexivity].
  rewrite IH. reflexivity.
Qed.

(** Once set, the ['flops'] entry stays. *)
Lemma stack_body_keeps_flops act use_act aes sact net (ep : gmap string Value) b w w' net' ep' :
  stack_body act use_act aes sact (net, ep) b w = (w', Ok (net', ep')) →
  is_Some (ep' !! "flops").
Proof.
  rewrite stack_body_run_block. intros H.
  apply bind_inv in H as (w1 & [[flops n1] entries] & _ & H).
  unfold record_block in H. cbn zeta in H.
  apply bind_inv in H as (w2 & total & _ & H).
  apply bind_inv in H as (w3 & total' & _ & H).
  injection H as _ _ <-.
  destruct (decide (scope b = "flops")) as [->|Hne].
  - rewrite lookup_insert_eq. eauto.
  - rewrite lookup_insert_ne, lookup_insert_eq by done. eauto.
Qed.

Lemma stack_loop_keeps_flops act use_act aes sact blocks :
  ∀ net (ep : gmap string Value) w w' net' ep',
    for_in blocks (net, ep) (stack_body act use_act aes sact) w = (w', Ok (net', ep')) →
    is_Some (ep !! "flops") → is_Some (ep' !! "flops").
Proof.
  induction blocks as [|b blocks IH]; intros net ep w w' net' ep' H Hf.
  - cbn in H. now injection H as _ _ <-.
  - cbn [for_in] in H. apply bind_inv in H as (w1 & [n1 e1] & Hb & H).
    apply (IH _ _ _ _ _ _ H). now apply stack_body_keeps_flops in Hb.
Qed.

(** The loop sets no other key than those of the blocks. *)
Lemma stack_body_other act use_act aes sact net (ep : gmap string Value) b w w' net' ep' k :
  stack_body act use_act aes sact (net, ep) b w = (w', Ok (net', ep')) →
  k ∉ act_keys b → ep' !! k = ep !! k.
Proof.
  rewrite stack_body_run_block. intros H Hk.
  unfold act_keys, flops_keys in Hk. cbn [app] in Hk. rewrite !not_elem_of_cons in Hk.
  destruct Hk as (H1 & H2 & H3 & H4 & H5 & H6 & _).
  apply bind_inv in H as (w1 & [[flops n1] entries] & Hrun & H).
  unfold record_block in H. cbn zeta in H.
  apply bind_inv in H as (w2 & total & _ & H).
  apply bind_inv in H as (w3 & total' & _ & H).
  injection H as _ _ <-. rewrite !lookup_insert_ne by done.
  unfold run_block in Hrun. destruct use_act.
  - apply bind_inv in Hrun as (w0 & [[[[pc nu] fl] hd] n0] & _ & Hrun).
    injection Hrun as _ _ _ <-. cbn. now rewrite !lookup_insert_ne.
  - unfold variable_scope in Hrun.
    match type of Hrun with
    | (let '(_, _) := ?m ?w0 in _) = _ => destruct (m w0) as [w0' [r|e]] eqn:Hin
    end; [|discriminate].
    injection Hrun as _ Hrun. apply bind_inv in Hin as (w4 & [n4 f4] & _ & Hin).
    injection Hin as _ <-. now injection Hrun as _ _ <-.
Qed.

Lemma stack_loop_other act use_act aes sact blocks k :
  ∀ net (ep : gmap string Value) w w' net' ep',
    for_in blocks (net, ep) (stack_body act use_act aes sact) w = (w', Ok (net', ep')) →
    (∀ b, b ∈ blocks → k ∉ act_keys b) → ep' !! k = ep !! k.
Proof.
  induction blocks as [|b blocks IH]; intros net ep w w' net' ep' H Hk.
  - cbn in H. now injection H as _ _ <-.
  - cbn [for_in] in H. apply bind_inv in H as (w1 & [n1 e1] & Hb & H).
    rewrite (IH _ _ _ _ _ _ H) by (intros b' Hb'; apply Hk; now right).
    apply (stack_body_other _ _ _ _ _ _ _ _ _ _ _ _ Hb). apply Hk. left.
Qed.

Lemma initial_end_points_same blocks blocks' ep0 :
  same_but_block_lists (initial_end_points blocks ep0) (initial_end_points blocks' ep0).
Proof.
  intros k H1 H2. unfold initial_end_points.
  rewrite !(lookup_insert_ne _ "block_num_units"), !(lookup_insert_ne _ "block_scopes");
    done.
Qed.

Lemma initial_end_points_again blocks (ep ep' : gmap string Value) :
  same_but_block_lists ep' ep → is_Some (ep !! "flops") →
  same_but_block_lists ep' (initial_end_points blocks (Some ep)).
Proof.
  intros H [v Hv] k H1 H2. unfold initial_end_points.
  change (default ∅ (Some ep)) with ep.
  rewrite !lookup_insert_ne by done. rewrite Hv. cbn.
  destruct (decide (k = "flops")) as [->|Hne].
  - rewrite lookup_insert_eq, <- Hv. now apply H.
  - rewrite lookup_insert_ne by done. now apply H.
Qed.

Lemma initial_end_points_has_flops blocks ep0 :
  is_Some (initial_end_points blocks ep0 !! "flops").
Proof.
  unfold initial_end_points. rewrite !lookup_insert_ne by done.
  rewrite lookup_insert_eq. eauto.
Qed.

Lemma stack_blocks_block_lists act net blocks use_act aes sact ep0 w w' net' ep :
  stack_blocks act net blocks use_act aes sact ep0 w = (w', Ok (net', ep)) →
  (∀ b, b ∈ blocks → scope b ∉ reserved_keys) →
  ep !! "block_scopes" = Some (VStrings (scope <$> blocks)) ∧
  ep !! "block_num_units" = Some (VInts ((λ b, len (args b)) <$> blocks)).
Proof.
  rewrite stack_blocks_loop. intros Hrun Hb. split.
  - rewrite (stack_loop_other _ _ _ _ _ "block_scopes" _ _ _ _ _ _ Hrun).
    + unfold initial_end_points. rewrite lookup_insert_ne by done. apply lookup_insert_eq.
    + intros b Hin. apply reserved_not_act_key; [right; left|now apply Hb|done].
  - rewrite (stack_loop_other _ _ _ _ _ "block_num_units" _ _ _ _ _ _ Hrun).
    + unfold initial_end_points. apply lookup_insert_eq.
    + intros b Hin. apply reserved_not_act_key; [right; right; left|now apply Hb|done].
Qed.

(** X10. Stacking blocks in two calls, the second on the tensor and the
    mapping that the first returned, builds what one call on all the blocks
    builds: the same graph, the same tensor, the same exception if there is
    one, and the same mapping but for two entries.  ['flops'] goes on from the
    total of the first call, but ['block_scopes'] and ['block_num_units'] are
    set anew by the second call and list its blocks only, so that what reads
    them afterwards does not see the blocks of the first call. *)
Theorem stack_blocks_in_two_calls act net blocks1 blocks2 use_act aes sact ep0 w :
  let whole := stack_blocks act net (blocks1 ++ blocks2) use_act aes sact ep0 w in
  let first := stack_blocks act net blocks1 use_act aes sact ep0 w in
  (∀ w1 e, first = (w1, Raise e) → whole = (w1, Raise e)) ∧
  (∀ w1 net1 ep1, first = (w1, Ok (net1, ep1)) →
     let second := stack_blocks act net1 blocks2 use_act aes sact (Some ep1) w1 in
     same_outcome whole second ∧
     ∀ w2 net2 ep2, second = (w2, Ok (net2, ep2)) →
       (∀ b, b ∈ blocks1 ++ blocks2 → scope b ∉ reserved_keys) →
       ∃ ep, whole = (w2, Ok (net2, ep)) ∧
             ep !! "block_scopes" = Some (VStrings (scope <$> blocks1 ++ blocks2)) ∧
             ep2 !! "block_scopes" = Some (VStrings (scope <$> blocks2)) ∧
             ep !! "block_num_units"
               = Some (VInts ((λ b, len (args b)) <$> blocks1 ++ blocks2)) ∧
             ep2 !! "block_num_units" = Some (VInts ((λ b, len (args b)) <$> blocks2))).
Proof.
  intros whole first.
  pose proof (stack_loop_same act use_act aes sact blocks1 net _ _ w
                (initial_end_points_same (blocks1 ++ blocks2) blocks1 ep0)) as [Hw Hr].
  assert (Hwhole : whole =
            (for_in blocks1 (net, initial_end_points (blocks1 ++ blocks2) ep0)
               (stack_body act use_act aes sact) ≫= λ acc',
             for_in blocks2 acc' (stack_body act use_act aes sact)) w).
  { subst whole. rewrite stack_blocks_loop. apply for_in_app. }
  fold first in Hw, Hr. rewrite <- stack_blocks_loop in Hw, Hr. fold first in Hw, Hr.
  split.
  - intros w1 e Hfirst. rewrite Hfirst in Hw, Hr. cbn in Hw, Hr.
    rewrite Hwhole. unfold mbind, M_bind.
    destruct (for_in blocks1 _ _ w) as [w0 [[n0 e0]|x]]; cbn in Hw, Hr; [done|].
    now subst.
  - intros w1 net1 ep1 Hfirst second. pose proof Hfirst as Hfirst'.
    rewrite Hfirst in Hw, Hr. cbn in Hw, Hr.
    assert (Hflops : is_Some (ep1 !! "flops")).
    { subst first. rewrite stack_blocks_loop in Hfirst'.
      apply (stack_loop_keeps_flops _ _ _ _ _ _ _ _ _ _ _ Hfirst').
      apply initial_end_points_has_flops. }
    assert (Hsame : same_outcome whole second).
    { rewrite Hwhole. unfold mbind, M_bind.
      destruct (for_in blocks1 _ _ w) as [w0 [[n0 e0]|x]]; cbn in Hw, Hr; [|done].
      destruct Hr as [-> Hr]. subst w0. subst second. rewrite stack_blocks_loop.
      apply stack_loop_same. now apply initial_end_points_again. }
    split; [exact Hsame|].
    intros w2 net2 ep2 Hsecond Hres. destruct Hsame as [Hw2 Hr2].
    rewrite Hsecond in Hw2, Hr2. cbn in Hw2, Hr2.
    destruct whole as [w3 [[n3 e3]|x]] eqn:Hrun; cbn in Hw2, Hr2; [|done].
    destruct Hr2 as [-> _]. subst w3. exists e3. split; [reflexivity|].
    destruct (stack_blocks_block_lists _ _ _ _ _ _ _ _ _ _ _ Hrun Hres) as [H1 H2].
    destruct (stack_blocks_block_lists _ _ _ _ _ _ _ _ _ _ _ Hsecond) as [H3 H4].
    { intros b Hb. apply Hres. apply elem_of_app. now right. }
    auto.
Qed.

Lemma sample_plain_scopes_of (b : Block) :
  b = sample_block1 ∨ b = sample_block2 → plain_scopes [b].
Proof.
  intros Hb. split.
  - apply NoDup_singleton.
  - intros b' Hb'. apply list_elem_of_singleton in Hb' as ->.
    destruct Hb as [-> | ->]; (split; [reflexivity|]);
      apply (bool_decide_unpack _); vm_compute; exact I.
Qed.

Lemma stack_blocks_in_two_calls_witness :
  ∃ w1 net1 (ep1 : gmap string Value) w2 net2 (ep2 ep : gmap string Value),
    stack_blocks sample_act sample_images [sample_block1] false false false None empty_world
      = (w1, Ok (net1, ep1)) ∧
    stack_blocks sample_act net1 [sample_block2] false false false (Some ep1) w1
      = (w2, Ok (net2, ep2)) ∧
    stack_blocks sample_act sample_images sample_blocks false false false None empty_world
      = (w2, Ok (net2, ep)) ∧
    ep !! "block_scopes" = Some (VStrings ["block1"; "block2"]) ∧
    ep2 !! "block_scopes" = Some (VStrings ["block2"]).
Proof.
  pose proof (stack_blocks_static_run sample_act sample_images [sample_block1] false false
                None (TInt 0) empty_world (sample_plain_scopes_of _ (or_introl eq_refl))
                eq_refl) as Hfirst.
  assert (Hsecond : ∃ f0,
            stack_blocks sample_act (static_net [sample_block1] sample_images)
              [sample_block2] false false false
              (Some (static_end_points [sample_block1] sample_images None))
              (static_world [sample_block1] sample_images (TInt 0) empty_world)
            = (static_world [sample_block2] (static_net [sample_block1] sample_images) f0
                 (static_world [sample_block1] sample_images (TInt 0) empty_world),
               Ok (static_net [sample_block2] (static_net [sample_block1] sample_images),
                   static_end_points [sample_block2]
                     (static_net [sample_block1] sample_images)
                     (Some (static_end_points [sample_block1] sample_images None))))).
  { eexists. apply stack_blocks_static_run.
    - apply sample_plain_scopes_of. now right.
    - vm_compute. reflexivity. }
  destruct Hsecond as [f0 Hsecond].
  destruct (stack_blocks_in_two_calls sample_act sample_images [sample_block1]
              [sample_block2] false false false None empty_world) as [_ Htwo].
  destruct (Htwo _ _ _ Hfirst) as [_ Hlists].
  destruct (Hlists _ _ _ Hsecond) as (ep & Hwhole & H1 & H2 & _).
  { intros b Hb. destruct sample_plain_scopes as [_ Hall]. now apply Hall. }
  eexists _, _, _, _, _, _, ep.
  split; [exact Hfirst|]. split; [exact Hsecond|]. split; [exact Hwhole|].
  split; [exact H1|exact H2].
Defined.

(** ** Computations that only build the graph *)

Lemma only_adds_nodes_same {A} (m : M A) : (∀ w, (m w).1 = w) → only_adds_nodes m.
Proof. intros H w. exists []. rewrite H, app_nil_r. reflexivity. Qed.

Lemma only_adds_nodes_ext {A} (m m' : M A) :
  (∀ w, m w = m' w) → only_adds_nodes m' → only_adds_nodes m.
Proof. intros H Hm w. destruct (Hm w) as [nodes Hn]. exists nodes. now rewrite H. Qed.

Lemma only_adds_nodes_ret {A} (a : A) : only_adds_nodes (mret a).
Proof. now apply only_adds_nodes_same. Qed.

Lemma only_adds_nodes_raise {A} e : only_adds_nodes (raise e : M A).
Proof. now apply only_adds_nodes_same. Qed.

Lemma only_adds_nodes_emit t : only_adds_nodes (emit t).
Proof. intros w. now exists [(scopes w, t)]. Qed.

Lemma only_adds_nodes_bind {A B} (m : M A) (f : A → M B) :
  only_adds_nodes m → (∀ a, only_adds_nodes (f a)) → only_adds_nodes (m ≫= f).
Proof.
  intros Hm Hf w. destruct (Hm w) as (n1 & H1).
  unfold mbind, M_bind. destruct (m w) as [w1 [a|e]]; cbn in *.
  - destruct (Hf a w1) as (n2 & H2). exists (n1 ++ n2). rewrite H2, H1. cbn.
    now rewrite app_assoc.
  - now exists n1.
Qed.

Lemma only_adds_nodes_for_in {A B} (l : list B) (body : A → B → M A) :
  (∀ acc x, only_adds_nodes (body acc x)) → ∀ acc, only_adds_nodes (for_in l acc body).
Proof.
  intros Hb. induction l as [|x l IH]; intros acc; cbn.
  - apply only_adds_nodes_ret.
  - apply only_adds_nodes_bind; [apply Hb|apply IH].
Qed.

Lemma only_adds_nodes_variable_scope {A} name (body : M A) :
  only_adds_nodes body → only_adds_nodes (variable_scope name body).
Proof.
  intros Hb w. unfold variable_scope.
  destruct (Hb (set_scopes (name :: scopes w) w)) as (nodes & H).
  destruct (body _) as [w' r]. cbn in *. exists nodes. now rewrite H.
Qed.

Lemma only_adds_nodes_dict_get {V} (d : gmap string V) k : only_adds_nodes (dict_get d k).
Proof.
  unfold dict_get. destruct (d !! k); [apply only_adds_nodes_ret|apply only_adds_nodes_raise].
Qed.

Lemma only_adds_nodes_as_tensor v : only_adds_nodes (as_tensor v).
Proof. destruct v; first [apply only_adds_nodes_ret|apply only_adds_nodes_raise]. Qed.

Lemma only_adds_nodes_as_strings v : only_adds_nodes (as_strings v).
Proof. destruct v; first [apply only_adds_nodes_ret|apply only_adds_nodes_raise]. Qed.

Lemma only_adds_nodes_as_ints v : only_adds_nodes (as_ints v).
Proof. destruct v; first [apply only_adds_nodes_ret|apply only_adds_nodes_raise]. Qed.

Lemma only_adds_nodes_assert c : only_adds_nodes (assert c).
Proof. destruct c; [apply only_adds_nodes_ret|apply only_adds_nodes_raise]. Qed.

Lemma only_adds_nodes_py_getitem {A} (l : list A) i : only_adds_nodes (py_getitem l i).
Proof.
  unfold py_getitem. destruct (_ && _); [|apply only_adds_nodes_raise].
  destruct (l !! _); [apply only_adds_nodes_ret|apply only_adds_nodes_raise].
Qed.

Lemma only_adds_nodes_py_truediv a b : only_adds_nodes (py_truediv a b).
Proof.
  unfold py_truediv. destruct (b =? 0); [apply only_adds_nodes_raise|apply only_adds_nodes_ret].
Qed.

Ltac nodes_step :=
  match goal with
  | |- only_adds_nodes (mret _) => apply only_adds_nodes_ret
  | |- only_adds_nodes (raise _) => apply only_adds_nodes_raise
  | |- only_adds_nodes (emit _) => apply only_adds_nodes_emit
  | |- only_adds_nodes (dict_get _ _) => apply only_adds_nodes_dict_get
  | |- only_adds_nodes (as_tensor _) => apply only_adds_nodes_as_tensor
  | |- only_adds_nodes (as_strings _) => apply only_adds_nodes_as_strings
  | |- only_adds_nodes (as_ints _) => apply only_adds_nodes_as_ints
  | |- only_adds_nodes (assert _) => apply only_adds_nodes_assert
  | |- only_adds_nodes (py_getitem _ _) => apply only_adds_nodes_py_getitem
  | |- only_adds_nodes (py_truediv _ _) => apply only_adds_nodes_py_truediv
  | |- only_adds_nodes (variable_scope _ _) => apply only_adds_nodes_variable_scope
  | |- only_adds_nodes (for_in _ _ _) => apply only_adds_nodes_for_in; intros ? ?
  | |- only_adds_nodes (_ ≫= _) => apply only_adds_nodes_bind; [|intros ?]
  | |- only_adds_nodes (let '(_, _) := ?p in _) => destruct p
  | |- only_adds_nodes ((let '(_, _) := ?p in _) _) => destruct p; cbn beta
  | |- only_adds_nodes (if ?c then _ else _) => destruct c
  | |- only_adds_nodes (match ?c with _ => _ end) => destruct c
  end.

Ltac unfold_tf :=
  unfold tf_reduce_mean, tf_reduce_min, tf_reduce_max, tf_sqrt, tf_sigmoid, tf_to_float,
    tf_maximum, tf_add, tf_sub, tf_mul, tf_div, tf_squeeze, tf_expand_dims, tf_shape,
    tf_stack, tf_zeros, tf_concat, tf_add_n, tf_resize_nearest_neighbor, slim_batch_norm,
    tf_nn_moments, flopsometer_conv2d.

Lemma only_adds_nodes_get_halting_proba outputs : only_adds_nodes (get_halting_proba outputs).
Proof. unfold get_halting_proba. unfold_tf. repeat nodes_step. Qed.

Lemma only_adds_nodes_get_halting_proba_conv outputs mask :
  only_adds_nodes (get_halting_proba_conv outputs mask).
Proof. unfold get_halting_proba_conv. unfold_tf. repeat nodes_step. Qed.

Lemma only_adds_nodes_unit_act block inputs unit_idx skip sact mask :
  only_adds_nodes (unit_act block inputs unit_idx skip sact mask).
Proof.
  unfold unit_act, call_unit_fn. unfold_tf.
  repeat nodes_step.
  - apply only_adds_nodes_get_halting_proba_conv.
  - apply only_adds_nodes_get_halting_proba.
Qed.

Lemma only_adds_nodes_sact_map end_points metric_name :
  only_adds_nodes (sact_map end_points metric_name).
Proof. unfold sact_map. unfold_tf. repeat nodes_step. Qed.

Lemma only_adds_nodes_sact_image_heatmap end_points metric_name num_images alpha border
    normalize_images :
  only_adds_nodes
    (sact_image_heatmap end_points metric_name num_images alpha border normalize_images).
Proof. unfold sact_image_heatmap. unfold_tf. repeat nodes_step. Qed.

Lemma only_adds_nodes_stack_blocks act net blocks use_act aes sact end_points :
  (use_act = true → act_only_adds_nodes (select_act_func act aes sact)) →
  only_adds_nodes (stack_blocks act net blocks use_act aes sact end_points).
Proof.
  intros Hact. rewrite stack_blocks_loop. apply only_adds_nodes_for_in.
  intros [net' ep] b.
  apply (only_adds_nodes_ext _ _ (stack_body_run_block act use_act aes sact net' ep b)).
  apply only_adds_nodes_bind.
  - unfold run_block. destruct use_act.
    + apply only_adds_nodes_bind; [|intros [[[[? ?] ?] ?] ?]; apply only_adds_nodes_ret].
      apply (Hact eq_refl). intros. apply only_adds_nodes_unit_act.
    + unfold_tf. repeat nodes_step. apply only_adds_nodes_unit_act.
  - intros [[flops n1] entries]. unfold record_block. unfold_tf. repeat nodes_step.
Qed.

(** X11. The functions that build a part of the network only add nodes to
    the graph: the estimators, [unit_act], [stack_blocks] (with a controller
    that only adds nodes, if one is used), [sact_map] and [sact_image_heatmap]
    leave the losses, the summaries, the file and the session alone and
    give back the variable scope they were called in, whether they return or
    raise. *)
Theorem graph_builders_only_add_nodes :
  (∀ outputs, only_adds_nodes (get_halting_proba outputs)) ∧
  (∀ outputs residual_mask, only_adds_nodes (get_halting_proba_conv outputs residual_mask)) ∧
  (∀ block inputs unit_idx skip_halting_proba sact residual_mask,
     only_adds_nodes (unit_act block inputs unit_idx skip_halting_proba sact residual_mask)) ∧
  (∀ act net blocks use_act act_early_stopping sact end_points,
     (use_act = true → act_only_adds_nodes (select_act_func act act_early_stopping sact)) →
     only_adds_nodes (stack_blocks act net blocks use_act act_early_stopping sact end_points)) ∧
  (∀ end_points metric_name, only_adds_nodes (sact_map end_points metric_name)) ∧
  (∀ end_points metric_name num_images alpha border normalize_images,
     only_adds_nodes
       (sact_image_heatmap end_points metric_name num_images alpha border normalize_images)).
Proof.
  split; [exact only_adds_nodes_get_halting_proba|].
  split; [exact only_adds_nodes_get_halting_proba_conv|].
  split; [exact only_adds_nodes_unit_act|].
  split; [exact only_adds_nodes_stack_blocks|].
  split; [exact only_adds_nodes_sact_map|exact only_adds_nodes_sact_image_heatmap].
Qed.

(** ** Indices of units *)

Lemma py_getitem_index {A} (l : list A) (i : Z) w :
  py_getitem l i w =
    match py_index (len l) i ≫= (l !!.) with
    | Some x => (w, Ok x)
    | None => (w, Raise IndexError)
    end.
Proof.
  unfold py_getitem, py_index, len.
  destruct (Z.ltb_spec i 0), (Z.leb_spec 0 i), (Z.ltb_spec i (Z.of_nat (length l)));
    try lia; cbn [andb].
  - destruct (Z.leb_spec 0 (i + Z.of_nat (length l))),
             (Z.ltb_spec (i + Z.of_nat (length l)) (Z.of_nat (length l))),
             (Z.leb_spec (- Z.of_nat (length l)) i); try lia; cbn [andb mbind option_bind].
    + now destruct (l !! _).
    + reflexivity.
  - cbn [mbind option_bind]. now destruct (l !! _).
  - destruct (Z.leb_spec (- Z.of_nat (length l)) i); reflexivity.
Qed.

Lemma unit_act_at block inputs unit_idx skip sact mask a w :
  py_index (len (args block)) unit_idx ≫= (args block !!.) = Some a →
  let r := unit_fn block inputs a mask in
  let sc := ("unit_" +:+ string_of_Z (unit_idx + 1)) :: scopes w in
  ∃ w' halting_proba flops nodes,
    unit_act block inputs unit_idx skip sact mask w = (w', Ok (r.1, halting_proba, flops)) ∧
    graph w' = graph w ++ under sc [r.1; r.2] ++ nodes ∧
    (negb skip && (unit_idx <? len (args block) - 1) = false →
     halting_proba = None ∧ flops = r.2 ∧ nodes = []) ∧
    (negb skip && (unit_idx <? len (args block) - 1) = true →
     ∃ p current_flops, halting_proba = Some p ∧ flops = TBinary Add r.2 current_flops).
Proof.
  intros Ha r sc. unfold unit_act, variable_scope.
  assert (Hget : ∀ w0, py_getitem (args block) unit_idx w0 = (w0, Ok a)).
  { intros w0. rewrite py_getitem_index. now rewrite Ha. }
  rewrite (bind_run _ _ _ _ a (Hget _)).
  unfold call_unit_fn. fold r. unfold len.
  destruct (negb skip && _) eqn:Hc.
  - destruct r as [o f] eqn:Hr.
    destruct sact; unfold get_halting_proba, get_halting_proba_conv; unfold_tf; run_m;
      eexists _, _, _, _; (split; [reflexivity|]); cbn [graph];
      (split; [rewrite <- !app_assoc; reflexivity|]); (split; [done|]); intros _;
      eexists _, _; split; reflexivity.
  - destruct r as [o f] eqn:Hr. run_m. eexists _, _, _, [].
    split; [reflexivity|]. cbn [graph]. split; [now rewrite <- !app_assoc|].
    split; [auto|done].
Qed.

(** X12. [unit_act] indexes the units of the block as Python indexes a
    list.  An index beyond either end raises [IndexError], leaving the world
    as it was.  A negative index counts from the end: the unit it runs is the
    one at [unit_idx + N] for a block of [N] units, under the scope
    ['unit_%d' % (unit_idx + 1)]; and as a negative index is below [N - 1],
    the unit is asked for its halting probability whenever
    [skip_halting_proba] is off, the last unit as any other. *)
Theorem unit_act_indexes_units_as_python_does
    block inputs unit_idx skip_halting_proba sact residual_mask w :
  let n := len (args block) in
  (unit_idx < - n ∨ n ≤ unit_idx →
   unit_act block inputs unit_idx skip_halting_proba sact residual_mask w
     = (w, Raise IndexError)) ∧
  (∀ a, - n ≤ unit_idx < 0 → args block !! Z.to_nat (unit_idx + n) = Some a →
     let r := unit_fn block inputs a residual_mask in
     ∃ w' halting_proba flops nodes,
       unit_act block inputs unit_idx skip_halting_proba sact residual_mask w
         = (w', Ok (r.1, halting_proba, flops)) ∧
       graph w' =
         graph w ++ under (("unit_" +:+ string_of_Z (unit_idx + 1)) :: scopes w) [r.1; r.2]
                 ++ nodes ∧
       (skip_halting_proba = true → halting_proba = None ∧ flops = r.2) ∧
       (skip_halting_proba = false → is_Some halting_proba)).
Proof.
  intros n. split.
  - intros Hout.
    assert (Hi : py_index n unit_idx = None).
    { unfold py_index, n, len in *.
      destruct (Z.leb_spec 0 unit_idx), (Z.ltb_spec unit_idx (Z.of_nat (length (args block)))),
               (Z.leb_spec (- Z.of_nat (length (args block))) unit_idx),
               (Z.ltb_spec unit_idx 0); try lia; reflexivity. }
    assert (Hget : ∀ w0, py_getitem (args block) unit_idx w0 = (w0, Raise IndexError)).
    { intros w0. rewrite py_getitem_index. fold n. now rewrite Hi. }
    unfold unit_act, variable_scope. rewrite (bind_raise _ _ _ _ _ (Hget _)). reflexivity.
  - intros a Hneg Ha r.
    assert (Hi : py_index n unit_idx = Some (Z.to_nat (unit_idx + n))).
    { unfold py_index, n, len in *.
      destruct (Z.leb_spec 0 unit_idx), (Z.ltb_spec unit_idx (Z.of_nat (length (args block)))),
               (Z.leb_spec (- Z.of_nat (length (args block))) unit_idx),
               (Z.ltb_spec unit_idx 0); try lia; reflexivity. }
    destruct (unit_act_at block inputs unit_idx skip_halting_proba sact residual_mask a w)
      as (w' & hp & flops & nodes & Hrun & Hg & Hplain & Hest).
    { fold n. rewrite Hi. exact Ha. }
    exists w', hp, flops, nodes. split; [exact Hrun|]. split; [exact Hg|]. split.
    + intros ->. destruct (Hplain eq_refl) as (? & ? & _). auto.
    + intros ->. destruct Hest as (p & cf & -> & _); [|eauto].
      cbn [negb andb]. apply Z.ltb_lt. fold n. lia.
Qed.

Lemma unit_act_indexes_units_as_python_does_witness :
  unit_act sample_block1 sample_images 3 false true None empty_world
    = (empty_world, Raise IndexError) ∧
  ∃ w' halting_proba flops,
    unit_act sample_block1 sample_images (-1) false true None empty_world
      = (w', Ok (TBatchNorm sample_images "unit", Some halting_proba, flops)) ∧
    head (graph w') = Some (["unit_0"], TBatchNorm sample_images "unit").
Proof.
  destruct (unit_act_indexes_units_as_python_does sample_block1 sample_images 3 false true
              None empty_world) as [Hout _].
  destruct (unit_act_indexes_units_as_python_does sample_block1 sample_images (-1) false
              true None empty_world) as [_ Hneg].
  split.
  - apply Hout. right. vm_compute. congruence.
  - destruct (Hneg [256; 64; 2]) as (w' & hp & flops & nodes & Hrun & Hg & _ & Hest).
    { vm_compute. split; congruence. }
    { reflexivity. }
    destruct (Hest eq_refl) as [p ->].
    exists w', p, flops. split; [exact Hrun|]. rewrite Hg. reflexivity.
Defined.

(** ** How the export fails *)

(** X13. [export_to_h5] opens its output file, for writing, before it looks
    at anything: when the end points have no ['block_scopes'] the call raises
    [KeyError] with the file already opened.  Once the datasets are created,
    a batch size of 0 raises [ZeroDivisionError], and a batch size other than
    0 that does not divide the number of samples raises [AssertionError].
    When the quotient is not positive (no sample, or a negative batch size)
    the call opens the session and returns without having evaluated or
    written anything. *)
Theorem export_to_h5_failures
    model_variables checkpoint_path export_path images (end_points : gmap string Value)
    num_samples batch_size sact w :
  let run :=
    export_to_h5 model_variables checkpoint_path export_path images end_points num_samples
      batch_size sact w in
  (end_points !! "block_scopes" = None →
   run = (add_io [H5Open export_path] w, Raise (KeyError "block_scopes"))) ∧
  (∀ w1 kt kd,
     export_prepare model_variables checkpoint_path export_path images end_points
       num_samples sact w = (w1, Ok (kt, kd)) →
     (batch_size = 0 → run = (w1, Raise ZeroDivisionError)) ∧
     (batch_size ≠ 0 → ¬ (batch_size | num_samples) → run = (w1, Raise AssertionError)) ∧
     (batch_size ≠ 0 → (batch_size | num_samples) → num_samples / batch_size ≤ 0 →
      run = (add_io [SessionOpened; InitFn; StartQueueRunners] w1, Ok ()))).
Proof.
  intros run. subst run. split.
  - intros Hb. unfold export_to_h5.
    erewrite bind_run by reflexivity.
    erewrite bind_raise; [reflexivity|]. unfold dict_get. rewrite Hb. reflexivity.
  - intros w1 kt kd Hprep. rewrite export_to_h5_phases.
    rewrite (bind_run _ _ _ _ _ Hprep). cbn [fst snd].
    unfold export_batches, py_mod, py_floordiv. split; [|split].
    + intros ->. reflexivity.
    + intros Hne Hdiv. destruct (Z.eqb_spec batch_size 0); [done|].
      assert (Hm : (num_samples `mod` batch_size =? 0) = false).
      { apply Z.eqb_neq. intros Hm. apply Hdiv. now apply Z.mod_divide. }
      run_m. rewrite Hm. reflexivity.
    + intros Hne Hdiv Hq. destruct (Z.eqb_spec batch_size 0); [done|].
      assert (Hm : (num_samples `mod` batch_size =? 0) = true).
      { apply Z.eqb_eq. now apply Z.mod_divide. }
      run_m. rewrite Hm. cbn beta iota.
      assert (Hr : range (num_samples `div` batch_size) = []).
      { unfold range, seqZ. replace (Z.to_nat (num_samples `div` batch_size)) with 0%nat by lia.
        reflexivity. }
      rewrite Hr. cbn [for_in]. unfold add_io. cbn.
      now rewrite <- !app_assoc.
Qed.

Lemma sample_export_prepared :
  export_prepare sample_model_variables "ckpt" "out.h5" sample_images sample_end_points 6
    true empty_world
    = (sample_prepared_world, Ok (sample_tensors, sample_datasets)).
Proof.
  vm_cast_no_check (eq_refl (sample_prepared_world, Ok (sample_tensors, sample_datasets))).
Qed.

Lemma export_to_h5_failures_witness :
  (export_to_h5 sample_model_variables "ckpt" "out.h5" sample_images ∅ 6 3 true
     empty_world).2 = Raise (KeyError "block_scopes") ∧
  (export_to_h5 sample_model_variables "ckpt" "out.h5" sample_images sample_end_points
     6 0 true empty_world).2 = Raise ZeroDivisionError ∧
  (export_to_h5 sample_model_variables "ckpt" "out.h5" sample_images sample_end_points
     6 4 true empty_world).2 = Raise AssertionError ∧
  (export_to_h5 sample_model_variables "ckpt" "out.h5" sample_images sample_end_points
     6 (-3) true empty_world).2 = Ok ().
Proof.
  destruct (export_to_h5_failures sample_model_variables "ckpt" "out.h5" sample_images ∅
              6 3 true empty_world) as [Hkey _].
  destruct (export_to_h5_failures sample_model_variables "ckpt" "out.h5" sample_images
              sample_end_points 6 0 true empty_world) as [_ H0].
  destruct (export_to_h5_failures sample_model_variables "ckpt" "out.h5" sample_images
              sample_end_points 6 4 true empty_world) as [_ H4].
  destruct (export_to_h5_failures sample_model_variables "ckpt" "out.h5" sample_images
              sample_end_points 6 (-3) true empty_world) as [_ H3].
  destruct (H0 _ _ _ sample_export_prepared) as (H0' & _).
  destruct (H4 _ _ _ sample_export_prepared) as (_ & H4' & _).
  destruct (H3 _ _ _ sample_export_prepared) as (_ & _ & H3').
  split; [now rewrite Hkey|]. split; [now rewrite H0'|]. split.
  - rewrite H4'; [reflexivity|lia|]. intros [k Hk]. lia.
  - rewrite H3'; [reflexivity|lia| |vm_compute; congruence]. exists (-2). reflexivity.
Defined.

(** ** The map of a metric *)

Lemma sact_map_loop (end_points : gmap string Value) metric_name resolution
    (metric : string → Tensor) block_scopes :
  (∀ s, s ∈ block_scopes →
        end_points !! (s +:+ "/" +:+ metric_name) = Some (VTensor (metric s))) →
  ∀ acc w,
    (for_in block_scopes acc (λ heatmaps scope,
      h ← dict_get end_points (scope +:+ "/" +:+ metric_name) ≫= as_tensor;
      h ← tf_to_float h;
      h ← tf_expand_dims h 3;
      h ← tf_resize_nearest_neighbor h resolution;
      mret (heatmaps ++ [h])) w).2 =
    Ok (acc ++ (block_map resolution ∘ metric <$> block_scopes)).
Proof.
  induction block_scopes as [|s l IH]; intros Hm acc w.
  - cbn. now rewrite app_nil_r.
  - assert (Hs : end_points !! (s +:+ "/" +:+ metric_name) = Some (VTensor (metric s))).
    { apply Hm. left. }
    cbn [for_in]. erewrite bind_run; cycle 1.
    { erewrite bind_run by (apply get_tensor, Hs). run_m. reflexivity. }
    rewrite IH by (intros s' Hin; apply Hm; now right).
    now rewrite fmap_cons, <- app_assoc.
Qed.

Lemma sact_map_run (end_points : gmap string Value) metric_name images sh block_scopes
    (metric : string → Tensor) w :
  metric_name_ok metric_name = true →
  end_points !! "inputs" = Some (VTensor images) →
  shape_of images = Some sh →
  end_points !! "block_scopes" = Some (VStrings block_scopes) →
  (∀ s, s ∈ block_scopes →
        end_points !! (s +:+ "/" +:+ metric_name) = Some (VTensor (metric s))) →
  ∃ w',
    sact_map end_points metric_name w =
      (w', Ok (TAddN (block_map (static_resolution sh) ∘ metric <$> block_scopes))).
Proof.
  intros Hok Hi Hs Hb Hm. unfold sact_map. rewrite Hok.
  run_step. run_step. rewrite Hs. run_step. run_step. cbn zeta.
  erewrite bind_run_snd by (eapply sact_map_loop; exact Hm). cbn [app].
  eexists. unfold tf_add_n. rewrite emit_grow. reflexivity.
Qed.

Lemma shape_block_map h wd m n hs ws :
  shape_of m = Some [n; hs; ws] →
  shape_of (block_map (TIntList [Z.of_nat h; Z.of_nat wd]) m) = Some [n; h; wd; 1%nat].
Proof.
  intros Hm. unfold block_map. cbn. rewrite Hm. cbn.
  now rewrite !nat_of_Z_of_nat.
Qed.

(** X14. On the end points of a spatially adaptive network whose inputs have
    a known shape (batch, h, w, c), [sact_map] returns the sum of the maps of
    the blocks, each taken as floats and resized by nearest neighbour to the
    resolution of the inputs: a tensor of shape (n, h, w, 1) for metric maps of
    [n] images, whatever the resolutions of the blocks are. *)
Theorem sact_map_shape (end_points : gmap string Value) metric_name images batch h wd c
    block_scopes (metric : string → Tensor) n w :
  metric_name = "ponder_cost" ∨ metric_name = "num_units" →
  end_points !! "inputs" = Some (VTensor images) →
  shape_of images = Some [batch; h; wd; c] →
  end_points !! "block_scopes" = Some (VStrings block_scopes) →
  block_scopes ≠ [] →
  (∀ s, s ∈ block_scopes →
        end_points !! (s +:+ "/" +:+ metric_name) = Some (VTensor (metric s)) ∧
        ∃ hs ws, shape_of (metric s) = Some [n; hs; ws]) →
  let resolution := TIntList [Z.of_nat h; Z.of_nat wd] in
  let map := TAddN (block_map resolution ∘ metric <$> block_scopes) in
  ∃ w',
    sact_map end_points metric_name w = (w', Ok map) ∧
    shape_of map = Some [n; h; wd; 1%nat] ∧
    summaries w' = summaries w ∧ losses w' = losses w.
Proof.
  intros Hname Hi Hs Hb Hne Hm resolution map.
  assert (Hok : metric_name_ok metric_name = true).
  { unfold metric_name_ok. destruct Hname as [-> | ->]; reflexivity. }
  destruct (sact_map_run end_points metric_name images _ block_scopes metric w Hok Hi Hs Hb
              (λ s Hin, proj1 (Hm s Hin))) as (w' & Hrun).
  exists w'. split; [exact Hrun|]. split.
  - apply shape_add_n.
    + destruct block_scopes; [done|discriminate].
    + intros t Ht. apply list_elem_of_fmap in Ht as (s & -> & Hin).
      destruct (Hm s Hin) as (_ & hs & ws & Hsh). now apply (shape_block_map h wd _ n hs ws).
  - destruct (only_adds_nodes_sact_map end_points metric_name w) as (nodes & Hw).
    rewrite Hrun in Hw. cbn in Hw. rewrite Hw. split; reflexivity.
Qed.

Lemma sact_map_shape_witness :
  ∃ w' map,
    sact_map sample_end_points "num_units" empty_world = (w', Ok map) ∧
    shape_of map = Some [3; 224; 224; 1]%nat.
Proof.
  assert (Hm : ∀ s, s ∈ ["block1"; "block2"] →
             sample_end_points !! (s +:+ "/" +:+ "num_units")
               = Some (VTensor (sample_metric "num_units" s)) ∧
             ∃ hs ws, shape_of (sample_metric "num_units" s) = Some [3%nat; hs; ws]).
  { apply sample_scopes_cases; (split; [reflexivity|]).
    - exists 56%nat, 56%nat. reflexivity.
    - exists 28%nat, 28%nat. reflexivity. }
  assert (Hne : ["block1"; "block2"] ≠ []) by discriminate.
  destruct (sact_map_shape sample_end_points "num_units" sample_images 3%nat 224%nat 224%nat
              3%nat ["block1"; "block2"] (sample_metric "num_units") 3%nat empty_world
              (or_intror eq_refl) eq_refl eq_refl eq_refl Hne Hm)
    as (w' & Hrun & Hshape & _).
  eexists w', _. split; [exact Hrun|exact Hshape].
Defined.

(** ** The image summaries *)

(** X15. On the end points of a spatially adaptive network,
    [add_heatmaps_image_summary] adds two image summaries and nothing else to
    the summaries: ['heatmaps/ponder_cost'] and ['heatmaps/num_units'], in
    this order, each the normalised images beside their overlay, of shape
    (num_images, h, 2 w + border, 3).  The ponder costs are scaled by the
    number of units plus the number of blocks, the numbers of units by the
    number of units. *)
Theorem add_heatmaps_image_summary_adds_two_images
    (end_points : gmap string Value) num_images alpha border images block_num_units
    block_scopes (pc nu : string → Tensor) batch h wd w :
  end_points !! "inputs" = Some (VTensor images) →
  shape_of images = Some [batch; h; wd; 3%nat] →
  num_images_ok batch num_images →
  0 ≤ border →
  end_points !! "block_num_units" = Some (VInts block_num_units) →
  0 < py_sum block_num_units →
  end_points !! "block_scopes" = Some (VStrings block_scopes) →
  block_scopes ≠ [] →
  (∀ s, s ∈ block_scopes →
        end_points !! (s +:+ "/ponder_cost") = Some (VTensor (pc s)) ∧
        end_points !! (s +:+ "/num_units") = Some (VTensor (nu s)) ∧
        ∃ bs hs ws, shape_of (pc s) = Some [bs; hs; ws] ∧
                    shape_of (nu s) = Some [bs; hs; ws] ∧
                    (shown_count batch num_images ≤ bs)%nat) →
  let n := shown_count batch num_images in
  let cost_image :=
    image_heatmap images num_images alpha border true
      (py_sum block_num_units + len block_num_units) (pc <$> block_scopes) in
  let units_image :=
    image_heatmap images num_images alpha border true
      (py_sum block_num_units) (nu <$> block_scopes) in
  ∃ w',
    add_heatmaps_image_summary end_points num_images alpha border w = (w', Ok ()) ∧
    summaries w' =
      summaries w ++ [("heatmaps/ponder_cost", cost_image); ("heatmaps/num_units", units_image)] ∧
    shape_of cost_image = Some [n; h; (wd * 2 + Z.to_nat border)%nat; 3%nat] ∧
    shape_of units_image = Some [n; h; (wd * 2 + Z.to_nat border)%nat; 3%nat] ∧
    losses w' = losses w.
Proof.
  intros Hi Hs Hn Hb Hu Hsum Hsc Hne Hm n cost_image units_image.
  assert (Hlen : 0 ≤ len block_num_units) by (unfold len; lia).
  assert (Hmax1 : heatmap_max_value "ponder_cost" block_num_units ≠ 0).
  { unfold heatmap_max_value. destruct (bool_decide _); lia. }
  assert (Hmax2 : heatmap_max_value "num_units" block_num_units ≠ 0).
  { unfold heatmap_max_value. destruct (bool_decide _); lia. }
  unfold add_heatmaps_image_summary.
  destruct (sact_image_heatmap_run end_points "ponder_cost" num_images alpha border true
              images block_num_units block_scopes pc w eq_refl Hi Hu Hsc
              (λ s Hin, proj1 (Hm s Hin)) Hmax1) as (w1 & Hrun1).
  destruct (only_adds_nodes_sact_image_heatmap end_points "ponder_cost" num_images alpha
              border true w) as (nodes1 & Hw1).
  rewrite Hrun1 in Hw1. cbn [fst] in Hw1.
  rewrite (bind_run _ _ _ _ _ Hrun1).
  erewrite bind_run by reflexivity.
  match goal with |- context [mbind _ _ ?w0] => set (w2 := w0) end.
  destruct (sact_image_heatmap_run end_points "num_units" num_images alpha border true
              images block_num_units block_scopes nu w2 eq_refl Hi Hu Hsc
              (λ s Hin, proj1 (proj2 (Hm s Hin))) Hmax2) as (w3 & Hrun3).
  destruct (only_adds_nodes_sact_image_heatmap end_points "num_units" num_images alpha
              border true w2) as (nodes3 & Hw3).
  rewrite Hrun3 in Hw3. cbn [fst] in Hw3.
  rewrite (bind_run _ _ _ _ _ Hrun3).
  eexists. split; [reflexivity|].
  assert (Hshape : ∀ max_value (metric : string → Tensor),
            (∀ s, s ∈ block_scopes →
                  ∃ bs hs ws, shape_of (metric s) = Some [bs; hs; ws] ∧ (n ≤ bs)%nat) →
            shape_of (image_heatmap images num_images alpha border true max_value
                        (metric <$> block_scopes))
            = Some [n; h; (wd * 2 + Z.to_nat border)%nat; 3%nat]).
  { intros max_value metric Hmetric.
    destruct (shape_image_heatmap images num_images alpha border true max_value
                (metric <$> block_scopes) batch h wd Hs Hn Hb)
      as (dims & overlay & -> & _ & _ & _ & Hshape).
    - destruct block_scopes; [done|discriminate].
    - intros m Hin. apply list_elem_of_fmap in Hin as (s & -> & Hin). now apply Hmetric.
    - exact Hshape. }
  split; [|split; [|split]].
  - unfold summary_image. cbn [summaries fst]. rewrite Hw3. cbn [summaries].
    subst w2. cbn [summaries]. rewrite Hw1. cbn [summaries].
    rewrite <- app_assoc. reflexivity.
  - apply Hshape. intros s Hin. destruct (Hm s Hin) as (_ & _ & bs & hs & ws & H1 & _ & Hle).
    eauto.
  - apply Hshape. intros s Hin. destruct (Hm s Hin) as (_ & _ & bs & hs & ws & _ & H2 & Hle).
    eauto.
  - unfold summary_image. cbn [losses fst]. rewrite Hw3. cbn [losses].
    subst w2. cbn [losses]. rewrite Hw1. reflexivity.
Qed.

Lemma add_heatmaps_image_summary_adds_two_images_witness :
  ∃ w' cost_image units_image,
    add_heatmaps_image_summary sample_end_points (Some 3) (3 # 4) 5 empty_world
      = (w', Ok ()) ∧
    summaries w' = [("heatmaps/ponder_cost", cost_image); ("heatmaps/num_units", units_image)] ∧
    shape_of cost_image = Some [3; 224; 453; 3]%nat ∧
    shape_of units_image = Some [3; 224; 453; 3]%nat.
Proof.
  assert (Hm : ∀ s, s ∈ ["block1"; "block2"] →
             sample_end_points !! (s +:+ "/ponder_cost")
               = Some (VTensor (sample_metric "ponder_cost" s)) ∧
             sample_end_points !! (s +:+ "/num_units")
               = Some (VTensor (sample_metric "num_units" s)) ∧
             ∃ bs hs ws, shape_of (sample_metric "ponder_cost" s) = Some [bs; hs; ws] ∧
                         shape_of (sample_metric "num_units" s) = Some [bs; hs; ws] ∧
                         (shown_count 3 (Some 3%Z) ≤ bs)%nat).
  { apply sample_scopes_cases; (split; [reflexivity|]); (split; [reflexivity|]).
    - exists 3%nat, 56%nat, 56%nat. split; [reflexivity|]. split; [reflexivity|].
      vm_compute. lia.
    - exists 3%nat, 28%nat, 28%nat. split; [reflexivity|]. split; [reflexivity|].
      vm_compute. lia. }
  assert (Hn : num_images_ok 3 (Some 3)) by (cbn; lia).
  assert (Hb : 0 ≤ 5) by lia.
  assert (Hsum : 0 < py_sum [3; 2]) by (vm_compute; reflexivity).
  assert (Hne : ["block1"; "block2"] ≠ []) by discriminate.
  destruct (add_heatmaps_image_summary_adds_two_images sample_end_points (Some 3) (3 # 4) 5
              sample_images [3; 2] ["block1"; "block2"] (sample_metric "ponder_cost")
              (sample_metric "num_units") 3%nat 224%nat 224%nat empty_world
              eq_refl eq_refl Hn Hb eq_refl Hsum eq_refl Hne Hm)
    as (w' & Hrun & Hsum' & Hs1 & Hs2 & _).
  eexists w', _, _. split; [exact Hrun|]. split; [exact Hsum'|]. split; [exact Hs1|exact Hs2].
Defined.

(** ** The datasets of the export *)

Lemma get_tensor_inv (d : gmap string Value) k w w' t :
  (dict_get d k ≫= as_tensor) w = (w', Ok t) → w' = w ∧ d !! k = Some (VTensor t).
Proof.
  unfold mbind, M_bind, dict_get. destruct (d !! k) as [[t'| |]|]; try discriminate.
  now intros [= <- <-].
Qed.

Lemma get_strings_inv (d : gmap string Value) k w w' l :
  (dict_get d k ≫= as_strings) w = (w', Ok l) → w' = w ∧ d !! k = Some (VStrings l).
Proof.
  unfold mbind, M_bind, dict_get. destruct (d !! k) as [[| l'|]|]; try discriminate.
  now intros [= <- <-].
Qed.

(** The loop that collects the tensors under the keys [l]. *)
Lemma key_loop_inv (end_points : gmap string Value) (l : list string) :
  ∀ (acc : gmap string Tensor) w w' kt,
    for_in l acc (λ keys_to_tensors k,
      t ← dict_get end_points k ≫= as_tensor;
      mret (<[k := t]> keys_to_tensors)) w = (w', Ok kt) →
    (∀ key, key ∈ dom kt ↔ key ∈ dom acc ∨ key ∈ l) ∧
    (∀ key, key ∈ l → ∃ t, end_points !! key = Some (VTensor t) ∧ kt !! key = Some t) ∧
    (∀ key, key ∉ l → kt !! key = acc !! key).
Proof.
  induction l as [|k l IH]; intros acc w w' kt Hrun; cbn [for_in] in Hrun.
  - injection Hrun as <- <-. split; [|split].
    + intros key. rewrite elem_of_nil. tauto.
    + intros key Hk. now apply elem_of_nil in Hk.
    + done.
  - apply bind_inv in Hrun as (w0 & acc' & Hbody & Hrest).
    apply bind_inv in Hbody as (w1 & t & Hget & Hret).
    apply get_tensor_inv in Hget as [-> Hget]. injection Hret as <- <-.
    destruct (IH _ _ _ _ Hrest) as (Hdom & Hin & Hout). split; [|split].
    + intros key. rewrite Hdom, dom_insert, elem_of_union, elem_of_singleton, elem_of_cons.
      tauto.
    + intros key Hk. destruct (decide (key ∈ l)) as [Hl|Hl]; [now apply Hin|].
      apply elem_of_cons in Hk as [->|Hk]; [|done].
      exists t. split; [done|]. rewrite Hout by done. apply lookup_insert_eq.
    + intros key Hk. apply not_elem_of_cons in Hk as [Hne Hk].
      rewrite Hout by done. now apply lookup_insert_ne.
Qed.

Lemma for_in_cons {A S} (x : A) (l : list A) (acc : S) (body : S → A → M S) :
  for_in (x :: l) acc body = body acc x ≫= λ acc', for_in l acc' body.
Proof. reflexivity. Qed.

Lemma tensor_loop_inv (end_points : gmap string Value) (block_scopes : list string) :
  ∀ (acc : gmap string Tensor) w w' kt,
    for_in block_scopes acc (λ keys_to_tensors block_scope,
      for_in [block_scope +:+ "/ponder_cost";
              block_scope +:+ "/num_units";
              block_scope +:+ "/halting_distribution";
              block_scope +:+ "/flops"] keys_to_tensors (λ keys_to_tensors k,
        t ← dict_get end_points k ≫= as_tensor;
        mret (<[k := t]> keys_to_tensors))) w = (w', Ok kt) →
    (∀ key, key ∈ dom kt ↔ key ∈ dom acc ∨ ∃ s, s ∈ block_scopes ∧ key ∈ export_keys s) ∧
    (∀ s key, s ∈ block_scopes → key ∈ export_keys s →
       ∃ t, end_points !! key = Some (VTensor t) ∧ kt !! key = Some t) ∧
    (∀ key, (∀ s, s ∈ block_scopes → key ∉ export_keys s) → kt !! key = acc !! key).
Proof.
  induction block_scopes as [|s0 l IH]; intros acc w w' kt Hrun.
  - injection Hrun as <- <-. split; [|split].
    + intros key. split; [auto|]. intros [H|(s & Hs & _)]; [done|now apply elem_of_nil in Hs].
    + intros s key Hs. now apply elem_of_nil in Hs.
    + done.
  - rewrite for_in_cons in Hrun.
    apply bind_inv in Hrun as (w0 & acc' & Hbody & Hrest).
    fold (export_keys s0) in Hbody.
    destruct (key_loop_inv _ _ _ _ _ _ Hbody) as (Hdom0 & Hin0 & Hout0).
    destruct (IH _ _ _ _ Hrest) as (Hdom & Hin & Hout). split; [|split].
    + intros key. rewrite Hdom, Hdom0. split.
      * intros [[H|H]|(s & Hs & H)]; [now left| |].
        -- right. exists s0. split; [left|done].
        -- right. exists s. split; [now right|done].
      * intros [H|(s & Hs & H)]; [now left; left|].
        apply elem_of_cons in Hs as [->|Hs]; [left; now right|right; eauto].
    + intros s key Hs Hk.
      destruct (decide (Exists (λ s', key ∈ export_keys s') l)) as [Hex|Hno].
      * apply Exists_exists in Hex as (s' & Hs' & Hk'). now apply (Hin s').
      * rewrite Hout.
        -- apply elem_of_cons in Hs as [->|Hs]; [now apply Hin0|].
           exfalso. apply Hno, Exists_exists. eauto.
        -- intros s' Hs' Hk'. apply Hno, Exists_exists. eauto.
    + intros key Hk. rewrite Hout by (intros s Hs; apply Hk; now right).
      apply Hout0. apply Hk. left.
Qed.

(** The loop that creates the datasets gives each the shape of its tensor,
    with [num_samples] in the place of the first dimension. *)
Lemma dataset_loop_shapes num_samples (l : list (string * Tensor)) :
  ∀ acc w w' (kd : gmap string (list Z)),
    for_in l acc (λ keys_to_datasets '(key, tensor),
      sh ← get_shape_as_list tensor;
      sh ← py_set_first (Z.of_nat <$> sh) num_samples;
      _ ← do_io (PrintShape key sh);
      dataset ← create_dataset key sh;
      mret (<[key := dataset]> keys_to_datasets)) w = (w', Ok kd) →
    NoDup l.*1 →
    (∀ key t, (key, t) ∈ l →
       ∃ d sh, shape_of t = Some (d :: sh) ∧
               kd !! key = Some (num_samples :: (Z.of_nat <$> sh))) ∧
    (∀ key, key ∉ l.*1 → kd !! key = acc !! key).
Proof.
  induction l as [|[key0 t0] l IH]; intros acc w w' kd Hrun Hnd; cbn [for_in] in Hrun.
  - injection Hrun as <- <-. split; [|done]. intros key t Hin. now apply elem_of_nil in Hin.
  - cbn in Hnd. apply NoDup_cons in Hnd as [Hk0 Hnd].
    apply bind_inv in Hrun as (w0 & acc' & Hbody & Hrest).
    apply bind_inv in Hbody as (w1 & sh & Hshape & Hbody).
    apply bind_inv in Hbody as (w2 & sh' & Hset & Hbody).
    apply bind_inv in Hbody as (w3 & [] & _ & Hbody).
    apply bind_inv in Hbody as (w4 & ds & Hds & Hret).
    injection Hret as <- <-.
    assert (Hfirst : ∃ d s, shape_of t0 = Some (d :: s) ∧ ds = num_samples :: (Z.of_nat <$> s)).
    { unfold get_shape_as_list in Hshape. destruct (shape_of t0) as [s0|]; [|discriminate].
      injection Hshape as <- <-. destruct s0 as [|d s]; [discriminate|].
      cbn in Hset. injection Hset as <- <-. unfold create_dataset in Hds.
      destruct (forallb _ _); [|discriminate].
      apply bind_inv in Hds as (? & ? & _ & Hret). injection Hret as <- <-. eauto. }
    destruct (IH _ _ _ _ Hrest Hnd) as [Hin Hout]. split.
    + intros key t Hkt. apply elem_of_cons in Hkt as [[= -> ->]|Hkt]; [|now apply Hin].
      destruct Hfirst as (d & s & Hs & ->). exists d, s. split; [done|].
      rewrite Hout by done. apply lookup_insert_eq.
    + intros key Hk. cbn in Hk. apply not_elem_of_cons in Hk as [Hne Hk].
      rewrite Hout by done. now apply lookup_insert_ne.
Qed.

Lemma export_keys_slash s key : key ∈ export_keys s → has_slash key = true.
Proof.
  unfold export_keys. intros H. split_elems; subst; apply has_slash_key.
Qed.

(** X16. The datasets that [export_to_h5] creates, once it has got as far
    as the session: one for ['images'], holding the images it was given, one
    for ['flops'] and one for each of the four end points of every block, and
    with [sact] the two maps ['ponder_cost_map'] and ['num_units_map'], and no
    other.  Each has the static shape of the tensor it is to hold, with
    [num_samples] in the place of the first dimension. *)
Theorem export_to_h5_datasets
    model_variables checkpoint_path export_path images (end_points : gmap string Value)
    num_samples sact w w1 (kt : gmap string Tensor) (kd : gmap string (list Z)) :
  export_prepare model_variables checkpoint_path export_path images end_points num_samples
    sact w = (w1, Ok (kt, kd)) →
  ∃ block_scopes flops,
    end_points !! "block_scopes" = Some (VStrings block_scopes) ∧
    end_points !! "flops" = Some (VTensor flops) ∧
    (∀ key, key ∈ dom kd ↔
       key = "images" ∨ key = "flops" ∨
       (∃ s, s ∈ block_scopes ∧ key ∈ export_keys s) ∨
       (sact = true ∧ (key = "ponder_cost_map" ∨ key = "num_units_map"))) ∧
    kt !! "images" = Some images ∧
    kt !! "flops" = Some flops ∧
    (∀ s key, s ∈ block_scopes → key ∈ export_keys s →
       ∃ t, end_points !! key = Some (VTensor t) ∧ kt !! key = Some t) ∧
    (∀ key t, kt !! key = Some t →
       ∃ d sh, shape_of t = Some (d :: sh) ∧
               kd !! key = Some (num_samples :: (Z.of_nat <$> sh))) ∧
    ∀ batch_size,
      export_to_h5 model_variables checkpoint_path export_path images end_points num_samples
        batch_size sact w
        = export_batches kt kd num_samples batch_size w1.
Proof.
  intros Hprep. pose proof Hprep as H.
  destruct (export_prepare_datasets _ _ _ _ _ _ _ _ _ _ _ Hprep) as [Hdomkd _].
  unfold export_prepare in H.
  apply bind_inv in H as (wa & [] & _ & H).
  apply bind_inv in H as (wb & block_scopes & Hscopes & H).
  apply get_strings_inv in Hscopes as [-> Hscopes].
  apply bind_inv in H as (wc & [] & _ & H).
  apply bind_inv in H as (wd & kt0 & Hloop & H).
  cbn zeta in H.
  apply bind_inv in H as (we & flops & Hflops & H).
  apply get_tensor_inv in Hflops as [-> Hflops].
  apply bind_inv in H as (wf & kt3 & Hmaps & H).
  apply bind_inv in H as (wg & kd' & Hds & H).
  apply bind_inv in H as (wh & [] & _ & H).
  apply bind_inv in H as (wi & [] & _ & H).
  injection H as <- <- <-.
  destruct (tensor_loop_inv _ _ _ _ _ _ Hloop) as (Hdom0 & Hin0 & Hout0).
  destruct (dataset_loop_shapes _ _ _ _ _ _ Hds (NoDup_fst_map_to_list _)) as [Hshapes _].
  set (kt2 := <["flops" := flops]> (<["images" := images]> kt0)) in *.
  assert (Hkt3 : ∀ key, kt3 !! key =
            if sact then
              if decide (key = "num_units_map") then kt3 !! key
              else if decide (key = "ponder_cost_map") then kt3 !! key
              else kt2 !! key
            else kt2 !! key).
  { intros key. destruct sact.
    - apply bind_inv in Hmaps as (w2 & m1 & _ & Hmaps). cbn zeta in Hmaps.
      apply bind_inv in Hmaps as (w3 & m2 & _ & Hmaps). injection Hmaps as _ <-.
      destruct (decide (key = "num_units_map")); [done|].
      destruct (decide (key = "ponder_cost_map")); [done|].
      now rewrite !lookup_insert_ne.
    - now injection Hmaps as _ <-. }
  assert (Hdom3 : ∀ key, key ∈ dom kt3 ↔
            key ∈ dom kt2 ∨ (sact = true ∧ (key = "ponder_cost_map" ∨ key = "num_units_map"))).
  { intros key. destruct sact.
    - apply bind_inv in Hmaps as (w2 & m1 & _ & Hmaps). cbn zeta in Hmaps.
      apply bind_inv in Hmaps as (w3 & m2 & _ & Hmaps). injection Hmaps as _ <-.
      rewrite !dom_insert, !elem_of_union, !elem_of_singleton. fold kt2. tauto.
    - injection Hmaps as _ <-. split; [auto|]. intros [H|[H _]]; [done|discriminate]. }
  assert (Hplain : ∀ key, has_slash key = false →
            ∀ s, s ∈ block_scopes → key ∉ export_keys s).
  { intros key Hk s _ Hin. apply export_keys_slash in Hin. congruence. }
  exists block_scopes, flops. split; [exact Hscopes|]. split; [exact Hflops|].
  split; [|split; [|split; [|split; [|split]]]].
  - intros key. rewrite Hdomkd, Hdom3. unfold kt2.
    rewrite !dom_insert, !elem_of_union, !elem_of_singleton, Hdom0, dom_empty.
    rewrite elem_of_empty. tauto.
  - rewrite Hkt3. destruct sact; cbn; unfold kt2;
      (rewrite lookup_insert_ne by done); apply lookup_insert_eq.
  - rewrite Hkt3. destruct sact; cbn; unfold kt2; apply lookup_insert_eq.
  - intros s key Hs Hk. destruct (Hin0 s key Hs Hk) as (t & Hep & Hkt).
    exists t. split; [exact Hep|].
    pose proof (export_keys_slash s key Hk) as Hslash.
    rewrite Hkt3.
    assert (Hne : ∀ k', has_slash k' = false → key ≠ k').
    { intros k' Hk' ->. congruence. }
    destruct sact; [rewrite !decide_False by (apply Hne; reflexivity)|]; unfold kt2;
      rewrite !lookup_insert_ne by (intros Heq; symmetry in Heq; revert Heq;
                                    apply Hne; reflexivity); exact Hkt.
  - intros key t Hkt. apply (Hshapes key t). now apply elem_of_map_to_list.
  - intros batch_size. rewrite export_to_h5_phases. now rewrite (bind_run _ _ _ _ _ Hprep).
Qed.

Lemma export_to_h5_datasets_witness :
  ∃ w1 (kt : gmap string Tensor) (kd : gmap string (list Z)),
    export_prepare sample_model_variables "ckpt" "out.h5" sample_images sample_end_points 6
      true empty_world = (w1, Ok (kt, kd)) ∧
    kd !! "images" = Some [6; 224; 224; 3] ∧
    kd !! "inputs" = None.
Proof.
  destruct (export_to_h5_datasets sample_model_variables "ckpt" "out.h5" sample_images
              sample_end_points 6 true empty_world sample_prepared_world sample_tensors
              sample_datasets sample_export_prepared)
    as (block_scopes & flops & _ & _ & Hdom & Hi & _ & _ & Hsh & _).
  exists sample_prepared_world, sample_tensors, sample_datasets.
  split; [exact sample_export_prepared|]. split.
  - destruct (Hsh _ _ Hi) as (d & sh & Hs & Hkd).
    change (Some [3; 224; 224; 3]%nat = Some (d :: sh)) in Hs.
    injection Hs as <- <-. exact Hkd.
  - apply not_elem_of_dom. rewrite Hdom. intros [H|[H|[(s & Hs & H)|[_ [H|H]]]]];
      try discriminate.
    apply export_keys_slash in H. discriminate.
Defined.

(** ** The check of the batch size *)










(** ** The moments of a tensor *)

(** X17. For a tensor of a known shape, whatever its rank, the map that
    [moments_metric_map] returns has exactly two entries, [name] followed by
    the delimiter and [mean] or [std], and both are scalars: the moments are
    taken over all the axes.  With [do_shift] they are shifted by the mean of
    the tensor.  One histogram of the tensor is added under [name]. *)
Theorem moments_metric_map_has_two_scalars x name delimiter (do_shift : bool) w :
  is_Some (shape_of x) →
  let shift := if do_shift then Some (TReduce Mean x None false) else None in
  ∃ w' (metric_map : gmap string Tensor) axes,
    moments_metric_map x name delimiter do_shift w = (w', Ok metric_map) ∧
    metric_map !! (name +:+ delimiter +:+ "mean")
      = Some (TMoments MomentsMean x axes shift) ∧
    metric_map !! (name +:+ delimiter +:+ "std")
      = Some (TUnary Sqrt (TBinary Maximum (TFloat 0) (TMoments MomentsVariance x axes shift))) ∧
    (∀ k, is_Some (metric_map !! k) ↔
          k = name +:+ delimiter +:+ "mean" ∨ k = name +:+ delimiter +:+ "std") ∧
    size metric_map = 2%nat ∧
    (∀ k t, metric_map !! k = Some t → shape_of t = Some []) ∧
    summaries w' = summaries w ++ [(name, x)] ∧
    losses w' = losses w.
Proof.
  intros Hs shift.
  assert (Hne : name +:+ delimiter +:+ "std" ≠ name +:+ delimiter +:+ "mean").
  { rewrite <- !append_assoc. apply keys_differ. reflexivity. }
  destruct (shape_moments x do_shift Hs) as [Hm Hsd].
  exists (grow (moments_nodes x do_shift) [(name, x)] w),
    (moments_map x name delimiter do_shift), (all_axes x).
  split; [now apply moments_metric_map_run|]. unfold moments_map.
  split; [rewrite lookup_insert_ne by done; apply lookup_insert_eq|].
  split; [apply lookup_insert_eq|].
  split; [|split; [|split; [|split; reflexivity]]].
  - intros k. rewrite <- elem_of_dom, !dom_insert, dom_empty.
    rewrite !elem_of_union, !elem_of_singleton, elem_of_empty. tauto.
  - rewrite !map_size_insert_None, map_size_empty; [reflexivity|apply lookup_empty|].
    rewrite lookup_insert_ne by done. apply lookup_empty.
  - intros k t Hk. apply lookup_insert_Some in Hk as [[_ <-]|[_ Hk]]; [exact Hsd|].
    apply lookup_insert_Some in Hk as [[_ <-]|[_ Hk]]; [exact Hm|].
    now rewrite lookup_empty in Hk.
Qed.

Lemma moments_metric_map_has_two_scalars_witness :
  ∃ w' (metric_map : gmap string Tensor),
    moments_metric_map sample_outputs "Total Flops" "/" true empty_world
      = (w', Ok metric_map) ∧
    size metric_map = 2%nat ∧
    is_Some (metric_map !! "Total Flops/mean") ∧
    summaries w' = [("Total Flops", sample_outputs)].
Proof.
  assert (Hs : is_Some (shape_of sample_outputs)) by (eexists; reflexivity).
  destruct (moments_metric_map_has_two_scalars sample_outputs "Total Flops" "/" true
              empty_world Hs) as (w' & metric_map & axes & Hrun & _ & _ & Hk & Hsize & _ & Hsum & _).
  exists w', metric_map. split; [exact Hrun|]. split; [exact Hsize|]. split; [|exact Hsum].
  apply Hk. left. reflexivity.
Defined.

(** ** The total of the FLOPs without a controller *)






(** ** The loss of the ponder costs *)

(** X19. [add_all_ponder_costs] adds its loss last: when it raises, for a
    missing end point or one that is no tensor, the loss collection is as it
    was, though the means of the ponder costs read so far have joined the
    graph; when it returns, exactly one loss has been added, a product by
    [weights].  The summaries, the variable scope and the session are left
    alone either way. *)
Theorem add_all_ponder_costs_adds_its_loss_last
    (end_points : gmap string Value) weights w :
  let run := add_all_ponder_costs end_points weights w in
  (∀ e, run.2 = Raise e → losses run.1 = losses w) ∧
  (run.2 = Ok () → ∃ total, losses run.1 = losses w ++ [TBinary Mul total weights]) ∧
  (∃ nodes, graph run.1 = graph w ++ nodes) ∧
  (scopes run.1, summaries run.1, io run.1) = (scopes w, summaries w, io w).
Proof.
  intros run. subst run. unfold add_all_ponder_costs. cbn zeta.
  assert (Hget : only_adds_nodes (dict_get end_points "block_scopes" ≫= as_strings)).
  { repeat nodes_step. }
  destruct (Hget w) as (n0 & Hw0).
  destruct ((dict_get end_points "block_scopes" ≫= as_strings) w)
    as [w0 [block_scopes|e]] eqn:Hrun0; cbn [fst] in Hw0; subst w0.
  - rewrite (bind_run _ _ _ _ _ Hrun0).
    match goal with
    | |- context [for_in block_scopes ?acc ?body ≫= _] =>
        assert (Hloop : only_adds_nodes (for_in block_scopes acc body));
        [unfold_tf; repeat nodes_step|];
        set (loop := for_in block_scopes acc body) in *
    end.
    match goal with |- context [(loop ≫= _) ?w0] =>
      destruct (Hloop w0) as (n1 & Hw1);
      destruct (loop w0) as [w1 [total|e]] eqn:Hrun1
    end; cbn [fst scopes graph losses summaries io] in Hw1; subst w1.
    + rewrite (bind_run _ _ _ _ _ Hrun1). unfold tf_mul, emit, add_loss, mbind, M_bind.
      cbn. split; [discriminate|]. split; [eauto|].
      split; [|reflexivity]. eexists. rewrite <- !app_assoc. reflexivity.
    + rewrite (bind_raise _ _ _ _ _ Hrun1).
      cbn. split; [reflexivity|]. split; [discriminate|]. split; [|reflexivity].
      eexists. rewrite <- !app_assoc. reflexivity.
  - rewrite (bind_raise _ _ _ _ _ Hrun0).
    cbn. split; [reflexivity|]. split; [discriminate|]. split; [eauto|reflexivity].
Qed.

Lemma add_all_ponder_costs_adds_its_loss_last_witness :
  ∃ w' nodes,
    add_all_ponder_costs (delete "block2/ponder_cost" sample_end_points) (TFloat 1) empty_world
      = (w', Raise (KeyError "block2/ponder_cost")) ∧
    losses w' = [] ∧ graph w' = nodes ∧ length nodes = 2%nat.
Proof.
  pose proof (add_all_ponder_costs_adds_its_loss_last
                (delete "block2/ponder_cost" sample_end_points) (TFloat 1) empty_world)
    as (Hraise & _).
  eexists _, _. split; [vm_compute; reflexivity|]. split; [|split; reflexivity].
  apply (Hraise (KeyError "block2/ponder_cost")). vm_compute. reflexivity.
Defined.
